(** * Shopping concierge: product search tools (serp_tools.py)

    A shallow embedding of the search tools of the MCP shopping server:
    query optimisation, price-range extraction, the provider search with
    its filter and ranking, the multi-variant orchestrator and the packing
    list generator, followed by the properties stated for them.

    Modelling conventions.
    - Python [str] is the list of the bytes of its UTF-8 encoding
      ([str := list ascii]). The case, digit and white-space tests and the
      regular expressions look at ASCII characters only: a byte of another
      character is carried through unchanged and is neither a letter, a
      digit nor white space. The length and the slices of a text count
      characters, not bytes.
    - Python [int] is [Z]. A Python [float] is a finite number, an
      infinity or NaN ([pyfloat]); a finite float is the rational it
      denotes, and the rounding and the overflow of a conversion are left
      to the built-in that converts.
    - JSON data coming from the provider is the dynamically typed [value].
    - Exceptions are values of [exn]; code that may raise returns
      [exn + A]; code that talks to the outside world (the secret store and
      the search provider) threads a [World]. *)

From Stdlib Require Import List Ascii String ZArith QArith Qround Lia Lqa Bool.
From Stdlib Require Import Permutation Sorted.
Import ListNotations.
Open Scope string_scope.
Open Scope list_scope.

(** ** Python strings *)

Module PyStr.

Definition str := list ascii.

Definition lit (s : string) : str := list_ascii_of_string s.

Definition code (c : ascii) : nat := nat_of_ascii c.

Definition is_upper (c : ascii) : bool := (65 <=? code c)%nat && (code c <=? 90)%nat.
Definition is_lower (c : ascii) : bool := (97 <=? code c)%nat && (code c <=? 122)%nat.
Definition is_alpha (c : ascii) : bool := is_upper c || is_lower c.
Definition is_digit (c : ascii) : bool := (48 <=? code c)%nat && (code c <=? 57)%nat.

(** [str.isspace] on ASCII: TAB, LF, VT, FF, CR, the four separators
    FS GS RS US, and the space. *)
Definition is_space (c : ascii) : bool :=
  ((9 <=? code c)%nat && (code c <=? 13)%nat)
  || ((28 <=? code c)%nat && (code c <=? 32)%nat).

Definition lower_char (c : ascii) : ascii :=
  if is_upper c then ascii_of_nat (code c + 32) else c.
Definition upper_char (c : ascii) : ascii :=
  if is_lower c then ascii_of_nat (code c - 32) else c.

(** [s.lower()] *)
Definition lower (s : str) : str := map lower_char s.

Definition ascii_eqb (a b : ascii) : bool := Ascii.eqb a b.

Fixpoint str_eqb (a b : str) : bool :=
  match a, b with
  | [], [] => true
  | x :: a', y :: b' => ascii_eqb x y && str_eqb a' b'
  | _, _ => false
  end.

(** [s.startswith(p)] *)
Fixpoint starts_with (p s : str) : bool :=
  match p, s with
  | [], _ => true
  | _ :: _, [] => false
  | x :: p', y :: s' => ascii_eqb x y && starts_with p' s'
  end.

(** [sub in s] *)
Fixpoint contains (sub s : str) : bool :=
  starts_with sub s ||
  match s with
  | [] => false
  | _ :: s' => contains sub s'
  end.

(** [s.lstrip()], [s.rstrip()], [s.strip()] with no argument. *)
Fixpoint lstrip (s : str) : str :=
  match s with
  | [] => []
  | c :: s' => if is_space c then lstrip s' else s
  end.
Definition rstrip (s : str) : str := rev (lstrip (rev s)).
Definition strip (s : str) : str := rstrip (lstrip s).

(** [s.split()] with no argument: the maximal runs of non-space
    characters. [cur] is the run being read, reversed. *)
Definition flush (cur : str) (k : list str) : list str :=
  match cur with
  | [] => k
  | _ :: _ => rev cur :: k
  end.

Fixpoint split_from (cur : str) (s : str) : list str :=
  match s with
  | [] => flush cur []
  | c :: s' =>
      if is_space c then flush cur (split_from [] s')
      else split_from (c :: cur) s'
  end.
Definition split (s : str) : list str := split_from [] s.

(** [sep.join(parts)] *)
Fixpoint join (sep : str) (parts : list str) : str :=
  match parts with
  | [] => []
  | [p] => p
  | p :: rest => p ++ sep ++ join sep rest
  end.

(** [s.replace(old, new)]: every non-overlapping occurrence, leftmost
    first. [skip] counts the characters of an occurrence still to drop.
    With an empty [old] Python puts [new] before every character and at
    the end. *)
Fixpoint replace_from (old new : str) (skip : nat) (s : str) : str :=
  match s with
  | [] => []
  | c :: s' =>
      match skip with
      | S k => replace_from old new k s'
      | O =>
          if starts_with old s
          then new ++ replace_from old new (List.length old - 1) s'
          else c :: replace_from old new 0 s'
      end
  end.

Definition replace (old new s : str) : str :=
  match old with
  | [] => new ++ flat_map (fun c => c :: new) s
  | _ :: _ => replace_from old new 0 s
  end.

(** [s.title()] on ASCII: a letter that follows a non-letter is put in
    upper case, a letter that follows a letter in lower case. *)
Fixpoint title_from (prev_alpha : bool) (s : str) : str :=
  match s with
  | [] => []
  | c :: s' =>
      (if is_alpha c then (if prev_alpha then lower_char c else upper_char c) else c)
        :: title_from (is_alpha c) s'
  end.
Definition title (s : str) : str := title_from false s.

(** [s * n] for a string [s] and an [int] [n]. *)
Fixpoint repeat_str (s : str) (n : nat) : str :=
  match n with
  | O => []
  | S k => s ++ repeat_str s k
  end.

(** [int(s)] on a string of ASCII decimal digits. *)
Definition digit_val (c : ascii) : Z := Z.of_nat (code c - 48).
Definition int_of_digits (s : str) : Z :=
  fold_left (fun acc c => 10 * acc + digit_val c)%Z s 0%Z.

(** [any(p(x) for x in xs)] *)
Definition any {A} (p : A -> bool) (xs : list A) : bool := existsb p xs.

(** The characters of a text: in UTF-8 a byte [10xxxxxx] continues the
    character begun before it. *)
Definition is_continuation (c : ascii) : bool :=
  (128 <=? code c)%nat && (code c <? 192)%nat.

Definition chars (s : str) : list str :=
  fold_right
    (fun c acc =>
       match acc with
       | (d :: _ as g) :: acc' =>
           if is_continuation d then (c :: g) :: acc' else [c] :: acc
       | _ => [c] :: acc
       end)
    [] s.

End PyStr.

Export PyStr.
Coercion lit : string >-> str.

Definition nl : str := ["010"%char].
Definition dq : str := ["034"%char].

(** ** Regular expressions ([re.search])

    The fragment of Python's [re] syntax the source uses: literal
    characters, the escapes [\s] and [\d], an escaped punctuation
    character, bracketed sets, capturing groups and the greedy
    quantifiers [*], [+] and [?]. Matching is Python's: backtracking,
    leftmost start first, every quantifier greedy. *)

Module Re.

Inductive citem :=
| IChar (c : ascii)
| IDigit
| ISpace.

Inductive re :=
| Eps
| Chr (cs : list citem)
| Cat (r1 r2 : re)
| Star (r : re)
| Plus (r : re)
| Opt (r : re)
| Grp (n : nat) (r : re).

Definition in_item (x : ascii) (i : citem) : bool :=
  match i with
  | IChar c => ascii_eqb c x
  | IDigit => is_digit x
  | ISpace => is_space x
  end.
Definition in_class (cs : list citem) (x : ascii) : bool := existsb (in_item x) cs.

(** *** Compiling a pattern *)

Definition escape_item (c : ascii) : option citem :=
  if ascii_eqb c "s" then Some ISpace
  else if ascii_eqb c "d" then Some IDigit
  else if is_alpha c || is_digit c then None
  else Some (IChar c).

(** The items of a bracketed set, up to the closing bracket. *)
Fixpoint parse_set (p : str) : option (list citem * str) :=
  match p with
  | [] => None
  | c :: p' =>
      if ascii_eqb c "]" then Some ([], p')
      else if ascii_eqb c "\" then
        match p' with
        | [] => None
        | e :: p'' =>
            match escape_item e, parse_set p'' with
            | Some i, Some (items, rest) => Some (i :: items, rest)
            | _, _ => None
            end
        end
      else
        match parse_set p' with
        | Some (items, rest) => Some (IChar c :: items, rest)
        | None => None
        end
  end.

Definition parse_quant (a : re) (p : str) : re * str :=
  match p with
  | c :: p' =>
      if ascii_eqb c "*" then (Star a, p')
      else if ascii_eqb c "+" then (Plus a, p')
      else if ascii_eqb c "?" then (Opt a, p')
      else (a, p)
  | [] => (a, p)
  end.

Definition is_meta (c : ascii) : bool :=
  existsb (ascii_eqb c) (lit ".^$*+?{}|").

(** A sequence of quantified atoms, up to the end of the pattern or an
    unmatched closing parenthesis. [g] is the number of groups opened so
    far: groups are numbered by their opening parenthesis. *)
Fixpoint parse_seq (fuel : nat) (p : str) (g : nat) : option (re * str * nat) :=
  match fuel with
  | O => None
  | S f =>
      match p with
      | [] => Some (Eps, [], g)
      | c :: p' =>
          if ascii_eqb c ")" then Some (Eps, p, g)
          else
            let atom :=
              if ascii_eqb c "(" then
                match parse_seq f p' (S g) with
                | Some (r, d :: rest, g') =>
                    if ascii_eqb d ")" then Some (Grp (S g) r, rest, g') else None
                | _ => None
                end
              else if ascii_eqb c "[" then
                match parse_set p' with
                | Some (items, rest) => Some (Chr items, rest, g)
                | None => None
                end
              else if ascii_eqb c "\" then
                match p' with
                | e :: rest =>
                    match escape_item e with
                    | Some i => Some (Chr [i], rest, g)
                    | None => None
                    end
                | [] => None
                end
              else if is_meta c then None
              else Some (Chr [IChar c], p', g)
            in
            match atom with
            | None => None
            | Some (a, rest, g') =>
                let (a', rest') := parse_quant a rest in
                match parse_seq f rest' g' with
                | Some (r, rest'', g'') => Some (Cat a' r, rest'', g'')
                | None => None
                end
            end
      end
  end.

(** [re.compile(pattern)]; [None] for a pattern outside the fragment. *)
Definition compile (pattern : str) : option re :=
  match parse_seq (S (List.length pattern)) pattern 0 with
  | Some (r, [], _) => Some r
  | _ => None
  end.

(** *** Matching *)

(** The groups bound so far, latest binding first. *)
Definition caps := list (nat * str).

Section Matcher.
Context {R : Type}.

Definition cont := str -> caps -> option R.

(** Greedy iteration of [step]: one more round when it succeeds and
    consumes input, otherwise the continuation. *)
Fixpoint star_loop (step : str -> caps -> cont -> option R)
    (fuel : nat) (s : str) (c : caps) (k : cont) : option R :=
  match fuel with
  | O => k s c
  | S f =>
      match step s c (fun s' c' =>
              if (List.length s' <? List.length s)%nat
              then star_loop step f s' c' k else None) with
      | Some x => Some x
      | None => k s c
      end
  end.

Fixpoint rmatch (r : re) (s : str) (c : caps) (k : cont) : option R :=
  match r with
  | Eps => k s c
  | Chr cs =>
      match s with
      | x :: s' => if in_class cs x then k s' c else None
      | [] => None
      end
  | Cat r1 r2 => rmatch r1 s c (fun s' c' => rmatch r2 s' c' k)
  | Star r1 => star_loop (rmatch r1) (S (List.length s)) s c k
  | Plus r1 =>
      rmatch r1 s c (fun s' c' =>
        star_loop (rmatch r1) (S (List.length s')) s' c' k)
  | Opt r1 =>
      match rmatch r1 s c k with
      | Some x => Some x
      | None => k s c
      end
  | Grp n r1 =>
      rmatch r1 s c (fun s' c' =>
        k s' ((n, firstn (List.length s - List.length s') s) :: c'))
  end.
End Matcher.

(** The match anchored at the start of [s]. *)
Definition match_here (r : re) (s : str) : option caps :=
  rmatch r s [] (fun _ c => Some c).

(** The leftmost match. *)
Fixpoint search_from (r : re) (s : str) : option caps :=
  match match_here r s with
  | Some c => Some c
  | None =>
      match s with
      | [] => None
      | _ :: s' => search_from r s'
      end
  end.

(** [re.search(pattern, s)] *)
Definition search (pattern s : str) : option caps :=
  match compile pattern with
  | Some r => search_from r s
  | None => None
  end.

(** [m.group(n)] *)
Fixpoint group (m : caps) (n : nat) : option str :=
  match m with
  | [] => None
  | (i, t) :: m' => if Nat.eqb i n then Some t else group m' n
  end.

End Re.

(** ** Query normaliser *)

Definition filler_words : list str :=
  [lit "i need"; lit "i want"; lit "looking for"; lit "find me";
   lit "search for"; lit "show me"; lit "get me"].

Definition improvements : list (str * str) :=
  [(lit "hiking", lit "hiking outdoor gear");
   (lit "travel", lit "travel accessories");
   (lit "beach", lit "beach vacation");
   (lit "winter", lit "winter gear");
   (lit "workout", lit "fitness exercise");
   (lit "office", lit "office supplies");
   (lit "kitchen", lit "kitchen appliances");
   (lit "phone", lit "smartphone accessories");
   (lit "laptop", lit "laptop computer");
   (lit "camera", lit "digital camera photography")].

(** The filler loop: each phrase is replaced by nothing and the text
    stripped, phrase after phrase. *)
Definition remove_fillers (fillers : list str) (query_lower : str) : str :=
  fold_left (fun q filler => strip (replace filler [] q)) fillers query_lower.

(** The expansion loop: the first keyword found whose expansion is not
    yet in the text puts the expansion in front and ends the loop. *)
Fixpoint improve (table : list (str * str)) (query_lower : str) : str :=
  match table with
  | [] => query_lower
  | (keyword, improvement) :: rest =>
      if contains keyword query_lower && negb (contains improvement query_lower)
      then improvement ++ lit " " ++ query_lower
      else improve rest query_lower
  end.

Definition optimize_search_query (query : str) : str :=
  let query_lower := lower query in
  let query_lower := remove_fillers filler_words query_lower in
  let query_lower := improve improvements query_lower in
  join (lit " ") (split query_lower).

(** ** Price range *)

Definition price_patterns : list str :=
  [lit "under\s*\$?(\d+)";
   lit "below\s*\$?(\d+)";
   lit "less than\s*\$?(\d+)";
   lit "\$?(\d+)\s*-\s*\$?(\d+)";
   lit "between\s*\$?(\d+)\s*and\s*\$?(\d+)";
   lit "\$?(\d+)\s*to\s*\$?(\d+)"].

(** [int(match.group(n))]; the groups of the price patterns are [\d+],
    so the text is a non-empty string of digits whenever the pattern
    matched. The limit an interpreter may put on the number of digits
    that [int] reads is not modelled. *)
Definition group_int (m : Re.caps) (n : nat) : Z :=
  match Re.group m n with
  | Some d => int_of_digits d
  | None => 0
  end.

Definition is_upper_bound_pattern (pattern : str) : bool :=
  contains (lit "under") pattern || contains (lit "below") pattern
  || contains (lit "less than") pattern.

Fixpoint scan_price_patterns (patterns : list str) (query : str)
  : option Z * option Z :=
  match patterns with
  | [] => (None, None)
  | pattern :: rest =>
      match Re.search pattern (lower query) with
      | Some m =>
          if is_upper_bound_pattern pattern
          then (None, Some (group_int m 1))
          else (Some (group_int m 1), Some (group_int m 2))
      | None => scan_price_patterns rest query
      end
  end.

Definition extract_price_range (query : str) : option Z * option Z :=
  scan_price_patterns price_patterns query.

(** ** Floating-point numbers

    A Python [float] is a finite number, one of the two infinities, or
    NaN. The same type carries the exact value of an [int] where numbers
    of both kinds are compared. *)

Inductive pyfloat :=
| Fin (q : Q)
| PInf
| NInf
| NaN.

Coercion Fin : Q >-> pyfloat.

Definition Qltb (p q : Q) : bool := negb (Qle_bool q p).

Definition is_nan (f : pyfloat) : bool :=
  match f with NaN => true | _ => false end.

(** [a == b]: NaN is equal to nothing, not even to itself. *)
Definition fl_eqb (a b : pyfloat) : bool :=
  match a, b with
  | Fin p, Fin q => Qeq_bool p q
  | PInf, PInf => true
  | NInf, NInf => true
  | _, _ => false
  end.

(** [a < b]: false whenever NaN is involved. *)
Definition fl_ltb (a b : pyfloat) : bool :=
  match a, b with
  | Fin p, Fin q => Qltb p q
  | Fin _, PInf => true
  | NInf, Fin _ => true
  | NInf, PInf => true
  | _, _ => false
  end.

(** [a <= b] *)
Definition fl_leb (a b : pyfloat) : bool := fl_ltb a b || fl_eqb a b.

(** [bool(f)]: only zero is false. *)
Definition fl_truthy (f : pyfloat) : bool :=
  match f with
  | Fin q => negb (Qeq_bool q 0)
  | _ => true
  end.

(** ** Dynamically typed data and exceptions *)

#[warnings="-register-all"] Inductive value :=
| VNone
| VBool (b : bool)
| VInt (z : Z)
| VFloat (f : pyfloat)
| VStr (s : str)
| VList (l : list value)
| VDict (d : list (str * value)).

Arguments VFloat f%_Q.

(** A Python dict is an association list; the first entry of a key is
    the one looked up. The keys of a dict are distinct. *)
Definition dict := list (str * value).

Inductive exn_class :=
| ValueError
| TypeError
| AttributeError
| OverflowError
| OtherError (name : str).

(** An exception: its class and the text [str(e)] gives. *)
Record exn := Exn { exn_class_of : exn_class; exn_text : str }.

Definition exn_class_eqb (a b : exn_class) : bool :=
  match a, b with
  | ValueError, ValueError => true
  | TypeError, TypeError => true
  | AttributeError, AttributeError => true
  | OverflowError, OverflowError => true
  | OtherError n, OtherError m => str_eqb n m
  | _, _ => false
  end.

(** Code that may raise. *)
Definition result (A : Type) : Type := exn + A.
Definition ok {A} (a : A) : result A := inr a.
Definition raise {A} (e : exn) : result A := inl e.
Definition rbind {A B} (m : result A) (k : A -> result B) : result B :=
  match m with
  | inl e => inl e
  | inr a => k a
  end.
Notation "'try!' x ':=' m 'in' k" := (rbind m (fun x => k))
  (at level 10, x pattern, m at level 100, k at level 200).

Definition type_name (v : value) : str :=
  match v with
  | VNone => lit "NoneType"
  | VBool _ => lit "bool"
  | VInt _ => lit "int"
  | VFloat _ => lit "float"
  | VStr _ => lit "str"
  | VList _ => lit "list"
  | VDict _ => lit "dict"
  end.

(** [bool(v)] *)
Definition truthy (v : value) : bool :=
  match v with
  | VNone => false
  | VBool b => b
  | VInt z => negb (z =? 0)%Z
  | VFloat f => fl_truthy f
  | VStr s => match s with [] => false | _ => true end
  | VList l => match l with [] => false | _ => true end
  | VDict d => match d with [] => false | _ => true end
  end.

(** The number a [bool], [int] or [float] denotes. *)
Definition num_of (v : value) : option pyfloat :=
  match v with
  | VBool b => Some (Fin (if b then 1 else 0))
  | VInt z => Some (Fin (inject_Z z))
  | VFloat f => Some f
  | _ => None
  end.

(** [int(f)]: the integer part, which NaN and the infinities do not
    have. *)
Definition int_of_float (f : pyfloat) : result Z :=
  match f with
  | Fin q => ok (if Qltb q 0 then Qceiling q else Qfloor q)
  | NaN => raise (Exn ValueError (lit "cannot convert float NaN to integer"))
  | _ => raise (Exn OverflowError
                  (lit "cannot convert float infinity to integer"))
  end.

(** [isinstance(v, (int, float))]; a [bool] is an [int]. *)
Definition is_number (v : value) : bool :=
  match num_of v with Some _ => true | None => false end.

Fixpoint dict_lookup (d : dict) (key : str) : option value :=
  match d with
  | [] => None
  | (k, v) :: d' => if str_eqb k key then Some v else dict_lookup d' key
  end.

(** [d.get(key, default)] on a dict. *)
Definition dict_get (d : dict) (key : str) (default : value) : value :=
  match dict_lookup d key with
  | Some v => v
  | None => default
  end.

(** [v.get(key, default)] on any value: only a dict has the method. *)
Definition py_get (v : value) (key : str) (default : value) : result value :=
  match v with
  | VDict d => ok (dict_get d key default)
  | _ => raise (Exn AttributeError
                  (lit "'" ++ type_name v ++ lit "' object has no attribute 'get'"))
  end.

(** The elements a [for] loop draws from a value. *)
Definition py_iter (v : value) : result (list value) :=
  match v with
  | VList l => ok l
  | VStr s => ok (map VStr (chars s))
  | VDict d => ok (map (fun kv => VStr (fst kv)) d)
  | _ => raise (Exn TypeError
                  (lit "'" ++ type_name v ++ lit "' object is not iterable"))
  end.

(** *** Comparison

    [==] on numbers is numeric across [bool], [int] and [float], exact,
    and false with NaN; on strings and [None] it is identity of content.
    Two lists are equal when they have the same length and equal
    elements; two dicts when they have as many entries and every key of
    the first has an equal value in the second, whatever the order of
    the entries. [<] is defined between two numbers, between two strings
    and between two lists, which compare as sequences: the first pair of
    elements that are not equal decides, and a list that is the beginning
    of the other is the smaller. Every other pair raises [TypeError].
    Tuples compare as lists do.

    Inside a list or a tuple CPython takes an object for equal to itself
    without asking [==]. This differs from [==] for NaN only, and the
    model does not follow the identity of objects: two NaN are never
    equal. *)

Section Sequences.

Context {A : Type}.
Variable eqb : A -> A -> bool.
Variable lt : A -> A -> result bool.

Fixpoint list_eqb (l1 l2 : list A) : bool :=
  match l1, l2 with
  | [], [] => true
  | x :: l1', y :: l2' => eqb x y && list_eqb l1' l2'
  | _, _ => false
  end.

Fixpoint list_lt (l1 l2 : list A) : result bool :=
  match l1, l2 with
  | [], [] => ok false
  | [], _ :: _ => ok true
  | _ :: _, [] => ok false
  | x :: l1', y :: l2' => if eqb x y then list_lt l1' l2' else lt x y
  end.

Variable lookup : list (str * A) -> str -> option A.

(** Every key of [d1] has an equal value in [d2]. *)
Fixpoint dict_sub (d1 d2 : list (str * A)) : bool :=
  match d1 with
  | [] => true
  | (k, x) :: d1' =>
      match lookup d2 k with
      | Some y => eqb x y
      | None => false
      end && dict_sub d1' d2
  end.

End Sequences.

Fixpoint value_eqb (a b : value) : bool :=
  match a, b with
  | VNone, VNone => true
  | VStr s, VStr t => str_eqb s t
  | VList l1, VList l2 => list_eqb value_eqb l1 l2
  | VDict d1, VDict d2 =>
      (List.length d1 =? List.length d2)%nat
      && dict_sub value_eqb dict_lookup d1 d2
  | _, _ =>
      match num_of a, num_of b with
      | Some p, Some q => fl_eqb p q
      | _, _ => false
      end
  end.

Fixpoint str_ltb (a b : str) : bool :=
  match a, b with
  | _, [] => false
  | [], _ :: _ => true
  | x :: a', y :: b' =>
      if (code x <? code y)%nat then true
      else if (code y <? code x)%nat then false
      else str_ltb a' b'
  end.

Definition not_ordered (a b : value) : exn :=
  Exn TypeError
    (lit "'<' not supported between instances of '" ++ type_name a
       ++ lit "' and '" ++ type_name b ++ lit "'").

Fixpoint value_lt (a b : value) : result bool :=
  match a, b with
  | VStr s, VStr t => ok (str_ltb s t)
  | VList l1, VList l2 => list_lt value_eqb value_lt l1 l2
  | _, _ =>
      match num_of a, num_of b with
      | Some p, Some q => ok (fl_ltb p q)
      | _, _ => raise (not_ordered a b)
      end
  end.

(** [<] on the key tuples [(rating, reviews)]: the first component on
    which the tuples differ decides. *)
Definition sort_key_t : Type := pyfloat * value.

Definition key_eqb (k1 k2 : sort_key_t) : bool :=
  fl_eqb (fst k1) (fst k2) && value_eqb (snd k1) (snd k2).

Definition key_lt (k1 k2 : sort_key_t) : result bool :=
  if fl_eqb (fst k1) (fst k2) then
    if value_eqb (snd k1) (snd k2) then ok false
    else value_lt (snd k1) (snd k2)
  else ok (fl_ltb (fst k1) (fst k2)).

(** ** Products *)

Record product_info := ProductInfo {
  asin : value;
  p_title : value;
  link : value;
  price : value;
  rating : pyfloat;
  reviews : value;
  thumbnail : value;
  delivery : value;
  prime : value;
  sponsored : value
}.

Definition sort_key (x : product_info) : sort_key_t := (rating x, reviews x).

(** [products.sort(key=..., reverse=True)]: the built-in stable sort,
    largest key first. CPython reverses the list, sorts it in ascending
    order and reverses it again. It starts by looking for a run, going
    through the reversed list and comparing every element with the one
    before it: a list in which no element is smaller than the one
    before it is one run and is left as it is. Otherwise the list is
    sorted, here by insertion: a new element goes in front of the first
    element whose key is smaller, hence behind every element with an
    equal key. A comparison that raises ends the sort.

    For keys that [<] and [==] order consistently the stable sorted
    arrangement of a list is unique ([sort_by_rating_reviews_unique]),
    so that the algorithm does not matter. For other keys (a NaN is
    among them) only the search for a run follows CPython. *)
Fixpoint insert_desc (x : product_info) (acc : list product_info)
  : result (list product_info) :=
  match acc with
  | [] => ok [x]
  | y :: acc' =>
      try! smaller := key_lt (sort_key y) (sort_key x) in
      if (smaller : bool) then ok (x :: acc)
      else try! l := insert_desc x acc' in ok (y :: l)
  end.

Fixpoint sort_into (acc l : list product_info) : result (list product_info) :=
  match l with
  | [] => ok acc
  | x :: l' => try! acc' := insert_desc x acc in sort_into acc' l'
  end.

(** The search for a run, on the reversed list. *)
Fixpoint one_run (reversed : list product_info) : result bool :=
  match reversed with
  | before :: (x :: _) as rest =>
      try! smaller := key_lt (sort_key x) (sort_key before) in
      if (smaller : bool) then ok false else one_run rest
  | _ => ok true
  end.

Definition sort_by_rating_reviews (products : list product_info)
  : result (list product_info) :=
  try! run := one_run (rev products) in
  if (run : bool) then ok products else sort_into [] products.

(** ** Provider client *)

Record search_params := SearchParams {
  engine : str;
  amazon_domain : str;
  k : str;
  api_key : str;
  low_price : option Z;
  high_price : option Z
}.

Record search_result := SearchResult {
  success : bool;
  error : option str;
  products : list product_info;
  total_results : Z
}.

(** [len(xs)] *)
Definition len {A} (xs : list A) : Z := Z.of_nat (List.length xs).

(** [if price:] on an optional integer: [None] and [0] are false. *)
Definition price_filter (p : option Z) : option Z :=
  match p with
  | Some z => if (z =? 0)%Z then None else Some z
  | None => None
  end.

Definition price_pattern : str := lit "\$?([\d,]+\.?\d*)".

(** The outside world and the built-in conversions the tools rely on. *)
Class Env := {
  World : Type;
  (** [get_serpapi_key()]: the key read from the parameter store. *)
  get_serpapi_key : World -> result str * World;
  (** [GoogleSearch(params).get_dict()]: one request to the provider. *)
  google_search : search_params -> World -> result dict * World;
  (** [float(s)] on a string. *)
  float_of_str : str -> result pyfloat;
  (** [float(n)] on an integer: the nearest float, or [OverflowError]. *)
  float_of_int : Z -> result pyfloat;
  (** [format(x, '.2f')] on a number. *)
  format_2f : pyfloat -> str;
  (** [str(v)] *)
  py_str : value -> str
}.

Section Tools.

Context {env : Env}.

(** Code that may raise and talks to the world. *)
Definition M (A : Type) : Type := World -> result A * World.
Definition mret {A} (a : A) : M A := fun w => (ok a, w).
Definition mbind {A B} (m : M A) (f : A -> M B) : M B :=
  fun w =>
    match m w with
    | (inl e, w') => (inl e, w')
    | (inr a, w') => f a w'
    end.
Definition lift {A} (r : result A) : M A := fun w => (r, w).

(** [float(v)] *)
Definition py_float (v : value) : result pyfloat :=
  match v with
  | VStr s => float_of_str s
  | VInt z => float_of_int z
  | VFloat f => ok f
  | VBool b => ok (Fin (if b then 1 else 0))
  | _ =>
      raise (Exn TypeError
               (lit "float() argument must be a string or a real number, not '"
                  ++ type_name v ++ lit "'"))
  end.

(** The rating of a raw record: [0] when the field is missing, false or
    not convertible. *)
Definition parse_rating (product : value) : result pyfloat :=
  try! r := py_get product (lit "rating") VNone in
  if truthy r then
    try! r0 := py_get product (lit "rating") (VInt 0) in
    match py_float r0 with
    | inr f => ok f
    | inl e =>
        match exn_class_of e with
        | ValueError | TypeError => ok (Fin 0)
        | _ => raise e
        end
    end
  else ok (Fin 0).

Definition extract_price (product : value) : result value :=
  try! price_raw := py_get product (lit "price") VNone in
  match price_raw with
  | VDict d => ok (dict_get d (lit "value") (VStr (lit "N/A")))
  | VStr s =>
      match Re.search price_pattern s with
      | Some price_match =>
          match Re.group price_match 1 with
          | Some g =>
              try! q := float_of_str (replace (lit ",") [] g) in ok (VFloat q)
          | None =>
              raise (Exn AttributeError
                       (lit "'NoneType' object has no attribute 'replace'"))
          end
      | None => ok price_raw
      end
  | VBool _ | VInt _ | VFloat _ => ok price_raw
  | _ => ok (VStr (lit "N/A"))
  end.

Definition make_product_info (product : value) (rating : pyfloat)
    (price_value : value)
  : result product_info :=
  try! v_asin := py_get product (lit "asin") (VStr []) in
  try! v_title := py_get product (lit "title") (VStr []) in
  try! v_link := py_get product (lit "link") (VStr []) in
  try! v_reviews := py_get product (lit "reviews") (VInt 0) in
  try! v_thumbnail := py_get product (lit "thumbnail") (VStr []) in
  try! v_delivery := py_get product (lit "delivery") (VStr []) in
  try! v_prime := py_get product (lit "prime") (VBool false) in
  try! v_sponsored := py_get product (lit "sponsored") (VBool false) in
  ok {| asin := v_asin; p_title := v_title; link := v_link;
        price := price_value; rating := rating; reviews := v_reviews;
        thumbnail := v_thumbnail; delivery := v_delivery;
        prime := v_prime; sponsored := v_sponsored |}.

(** The rating test of the loop: [rating > 0 and rating < min_rating]. *)
Definition below_min_rating (rating : pyfloat) (min_rating : Q) : bool :=
  fl_ltb (Fin 0) rating && fl_ltb rating (Fin min_rating).

(** One raw record up to the [product_info] dict: [None] when the
    rating test sends the loop to the next record. *)
Definition process_record (min_rating : Q) (product : value)
  : result (option product_info) :=
  try! rating := parse_rating product in
  if below_min_rating rating min_rating then ok None
  else
    try! price_value := extract_price product in
    try! info := make_product_info product rating price_value in
    ok (Some info).

(** The loop over [organic_results]; [products] is the list built so
    far. The records behind the [break] are never looked at. *)
Fixpoint collect (min_rating : Q) (max_results : Z)
    (organic_results : list value) (products : list product_info)
  : result (list product_info) :=
  match organic_results with
  | [] => ok products
  | product :: rest =>
      try! r := process_record min_rating product in
      match r with
      | None => collect min_rating max_results rest products
      | Some info =>
          let products :=
            if truthy (asin info) then products ++ [info] else products in
          if (max_results <=? len products)%Z then ok products
          else collect min_rating max_results rest products
      end
  end.

(** From the provider's answer to the result dict. *)
Definition rank_results (results : dict) (max_results : Z) (min_rating : Q)
  : result search_result :=
  try! organic_results :=
    py_iter (dict_get results (lit "organic_results") (VList [])) in
  try! collected := collect min_rating max_results organic_results [] in
  try! sorted := sort_by_rating_reviews collected in
  ok {| success := true; error := None; products := sorted;
        total_results := len sorted |}.

Definition make_params (query : str) (key : str) : search_params :=
  let optimized_query := optimize_search_query query in
  let '(min_price, max_price) := extract_price_range query in
  {| engine := lit "amazon"; amazon_domain := lit "amazon.com";
     k := optimized_query; api_key := key;
     low_price := price_filter min_price;
     high_price := price_filter max_price |}.

(** The body of the [try] block. *)
Definition search_amazon_products_body (query : str) (max_results : Z)
    (min_rating : Q) : M search_result :=
  mbind get_serpapi_key (fun key =>
  mbind (google_search (make_params query key)) (fun results =>
  lift (rank_results results max_results min_rating))).

Definition failure_result (e : exn) : search_result :=
  {| success := false; error := Some (exn_text e); products := [];
     total_results := 0 |}.

(** [search_amazon_products(query, max_results, min_rating)]: the [try]
    block with its [except Exception] handler. *)
Definition search_amazon_products (query : str) (max_results : Z) (min_rating : Q)
  : World -> search_result * World :=
  fun w =>
    match search_amazon_products_body query max_results min_rating w with
    | (inr r, w') => (r, w')
    | (inl e, w') => (failure_result e, w')
    end.

Definition default_max_results : Z := 15.
Definition default_min_rating : Q := 3.5.

(** *** Search orchestrator *)

Record product_list := ProductList {
  sp_answer : str;
  sp_asins : list value;
  sp_products : list product_info
}.

Definition quality_words : list str :=
  [lit "best"; lit "top"; lit "good"; lit "recommend"].

Definition search_attempts (question : str) : list str :=
  let question_lower := lower question in
  [question; optimize_search_query question]
    ++ (if any (fun word => contains word question_lower) quality_words
        then [lit "best rated " ++ optimize_search_query question] else [])
    ++ (if contains (lit "cheap") question_lower
           || contains (lit "budget") question_lower
        then [lit "budget " ++ optimize_search_query question] else []).

Definition non_empty {A} (l : list A) : bool :=
  match l with [] => false | _ :: _ => true end.

(** [search_results.get('error', 'No products found')] *)
Definition error_or_default (r : search_result) : str :=
  match error r with
  | Some e => e
  | None => lit "No products found"
  end.

(** The loop over the attempts: the products of the first attempt that
    succeeds with a non-empty list, and the last error recorded. *)
Fixpoint try_attempts (attempts : list str) (last_error : option str)
  : World -> (list product_info * option str) * World :=
  fun w =>
    match attempts with
    | [] => (([], last_error), w)
    | search_query :: rest =>
        let '(search_results, w') :=
          search_amazon_products search_query 12 default_min_rating w in
        if success search_results && non_empty (products search_results)
        then ((products search_results, last_error), w')
        else try_attempts rest (Some (error_or_default search_results)) w'
    end.

(** [str(x)] of an optional string. *)
Definition str_of_option (o : option str) : str :=
  match o with
  | Some s => s
  | None => lit "None"
  end.

Definition no_products_answer (question : str) (last_error : option str) : str :=
  lit "No products found matching '" ++ question
    ++ lit "'. Try being more specific or using different keywords. Error: "
    ++ str_of_option last_error.

(** [v[:n]] *)
Definition slice_to (n : nat) (v : value) : result value :=
  match v with
  | VStr s => ok (VStr (List.concat (firstn n (chars s))))
  | VList l => ok (VList (firstn n l))
  | VDict _ => raise (Exn TypeError (lit "unhashable type: 'slice'"))
  | _ => raise (Exn TypeError
                  (lit "'" ++ type_name v ++ lit "' object is not subscriptable"))
  end.

(** [len(v)] *)
Definition py_len (v : value) : result Z :=
  match v with
  | VStr s => ok (len (chars s))
  | VList l => ok (len l)
  | VDict d => ok (len d)
  | _ => raise (Exn TypeError
                  (lit "object of type '" ++ type_name v ++ lit "' has no len()"))
  end.

(** The price as shown: two decimals for a number, the text otherwise. *)
Definition price_str_of (p : value) : str :=
  match num_of p with
  | Some q => lit "$" ++ format_2f q
  | None => py_str p
  end.

(** ["⭐" * int(rating)] *)
Definition stars_of (r : pyfloat) : result str :=
  try! n := int_of_float r in
  ok (repeat_str (lit "⭐") (Z.to_nat n)).

(** [product.get("rating") and product["rating"] > 0] *)
Definition rating_shown (product : product_info) : bool :=
  fl_truthy (rating product) && fl_ltb (Fin 0) (rating product).

(** One entry of the summary of [search_products]. *)
Definition product_entry (i : Z) (product : product_info) : result str :=
  let price_str := price_str_of (price product) in
  try! head := slice_to 80 (p_title product) in
  try! n := py_len (p_title product) in
  try! shown :=
    (if rating_shown product
     then
       try! stars := stars_of (rating product) in
       ok (lit " | " ++ stars ++ lit " "
             ++ py_str (VFloat (rating product)) ++ lit "/5"
             ++ (if truthy (reviews product)
                 then lit " (" ++ py_str (reviews product) ++ lit " reviews)"
                 else []))
     else ok []) in
  ok (lit "**" ++ py_str (VInt i) ++ lit ". " ++ py_str head
        ++ (if (80 <? n)%Z then lit "..." else []) ++ lit "**" ++ nl
      ++ lit "   💰 **Price**: " ++ price_str
      ++ shown
      ++ (if truthy (prime product) then lit " | 🚚 **Prime Eligible**" else [])
      ++ nl ++ lit "   🔗 **ASIN**: `" ++ py_str (asin product) ++ lit "`"
      ++ nl ++ lit "   🛒 **Link**: https://www.amazon.com/dp/" ++ py_str (asin product)
      ++ nl ++ lit "   📦 **Cart Data**: ASIN: " ++ py_str (asin product)
      ++ lit ", Price: " ++ price_str ++ nl ++ nl).

(** The entries of [products], numbered from [i]. *)
Fixpoint product_entries (i : Z) (products : list product_info) : result str :=
  match products with
  | [] => ok []
  | product :: rest =>
      try! e := product_entry i product in
      try! es := product_entries (i + 1) rest in
      ok (e ++ es)
  end.

Definition shop_footer : str :=
  lit "🎯 **Ready to Shop?**" ++ nl
  ++ lit "• Tell me which items you'd like to add to your cart (e.g., 'Add item 1 and 3')" ++ nl
  ++ lit "• Say 'add all to cart' to add all products" ++ nl
  ++ lit "• Or ask me to find more specific products!" ++ nl ++ nl
  ++ lit "💡 **Pro Tip**: I can help you add items to your cart and complete your purchase seamlessly!".

Definition found_answer (question : str) (products : list product_info)
  : result str :=
  try! entries := product_entries 1 (firstn 8 products) in
  ok (lit "🛍️ **Found " ++ py_str (VInt (len products))
        ++ lit " high-quality products for '" ++ question ++ lit "'**" ++ nl ++ nl
        ++ entries ++ shop_footer).

Definition search_error_answer (e : exn) : str :=
  lit "An error occurred while searching for products: " ++ exn_text e
    ++ lit ". Please try rephrasing your search or try again later.".

(** [search_products(user_id, question)] *)
Definition search_products (user_id question : str)
  : World -> product_list * World :=
  fun w =>
    let '((products, last_error), w') :=
      try_attempts (search_attempts question) None w in
    if negb (non_empty products) then
      ({| sp_answer := no_products_answer question last_error;
          sp_asins := []; sp_products := [] |}, w')
    else
      let asins := map asin (filter (fun p => truthy (asin p)) products) in
      match found_answer question products with
      | inr answer =>
          ({| sp_answer := strip answer; sp_asins := asins;
              sp_products := products |}, w')
      | inl e =>
          ({| sp_answer := search_error_answer e; sp_asins := [];
              sp_products := [] |}, w')
      end.

(** *** Packing list generator *)

Definition base_items : list str :=
  [lit "travel backpack"; lit "phone charger"; lit "toiletry bag";
   lit "travel adapter"].

Definition long_trip_words : list str :=
  [lit "week"; lit "7 day"; lit "long trip"].
Definition short_trip_words : list str :=
  [lit "weekend"; lit "2 day"; lit "3 day"; lit "short trip"].

Definition long_trip_items : list str :=
  [lit "laundry detergent pods"; lit "extra underwear";
   lit "medication organizer"].
Definition short_trip_items : list str :=
  [lit "travel size toiletries"; lit "compact packing cubes"].

(** The [if]/[elif] on the duration keywords. *)
Definition duration_items (question_lower : str) : list str :=
  if any (fun word => contains word question_lower) long_trip_words
  then long_trip_items
  else if any (fun word => contains word question_lower) short_trip_words
  then short_trip_items
  else [].

Definition climate_items : list (str * list str) :=
  [(lit "tropical",
    [lit "sunscreen SPF 50"; lit "insect repellent"; lit "lightweight clothing";
     lit "sandals"; lit "sun hat"]);
   (lit "beach",
    [lit "swimsuit"; lit "beach towel"; lit "waterproof phone case";
     lit "flip flops"; lit "beach bag"]);
   (lit "cold",
    [lit "thermal underwear"; lit "winter jacket"; lit "warm gloves";
     lit "beanie"; lit "wool socks"]);
   (lit "mountain",
    [lit "hiking boots"; lit "rain jacket"; lit "first aid kit";
     lit "headlamp"; lit "trekking poles"]);
   (lit "city",
    [lit "comfortable walking shoes"; lit "day pack"; lit "portable charger";
     lit "city guidebook"]);
   (lit "business",
    [lit "business attire"; lit "laptop bag"; lit "dress shoes";
     lit "iron travel size"; lit "business cards"]);
   (lit "camping",
    [lit "sleeping bag"; lit "camping tent"; lit "camping stove";
     lit "water purification tablets"; lit "multi-tool"])].

(** The climate loop: the items of the first entry whose keyword is in
    the text; the [break] ends the scan there. *)
Fixpoint climate_match (table : list (str * list str)) (question_lower : str)
  : list str :=
  match table with
  | [] => []
  | (climate, items) :: rest =>
      if any (fun keyword => contains keyword question_lower)
             [climate; replace (lit "_") (lit " ") climate]
      then items
      else climate_match rest question_lower
  end.

Definition activities : list (str * list str) :=
  [(lit "photography",
    [lit "camera equipment"; lit "extra batteries"; lit "memory cards";
     lit "lens cleaning kit"]);
   (lit "fitness",
    [lit "workout clothes"; lit "running shoes"; lit "fitness tracker";
     lit "protein bars"]);
   (lit "cooking",
    [lit "portable cooking set"; lit "spices travel kit"; lit "cooler bag";
     lit "cutting board"]);
   (lit "reading",
    [lit "e-reader"; lit "reading light"; lit "book stand";
     lit "blue light glasses"])].

(** The activity loop: every entry whose keyword is in the text. *)
Fixpoint activity_matches (table : list (str * list str)) (question_lower : str)
  : list str :=
  match table with
  | [] => []
  | (activity, items) :: rest =>
      (if contains activity question_lower then items else [])
        ++ activity_matches rest question_lower
  end.

Definition mem_str (x : str) (l : list str) : bool := existsb (str_eqb x) l.

(** [list(dict.fromkeys(xs))]: the keys of the dict in insertion order;
    a key already present is not inserted again. *)
Definition from_keys (xs : list str) : list str :=
  fold_left (fun keys x => if mem_str x keys then keys else keys ++ [x]) xs [].

Definition generate_smart_packing_list (question : str) : list str :=
  let question_lower := lower question in
  let base_items := base_items ++ duration_items question_lower in
  let packing_items :=
    climate_match climate_items question_lower
      ++ activity_matches activities question_lower in
  let all_items := base_items ++ packing_items in
  from_keys all_items.

(** *** Packing list with product recommendations *)

Record packing_item := PackingItem {
  item : str;
  item_products : list product_info
}.

Record packing_list := PackingList {
  pl_answer : str;
  pl_asins : list (str * list value);
  pl_items : list packing_item
}.

(** [d[key] = v] on a dict kept as an association list. *)
Fixpoint assoc_set {A} (d : list (str * A)) (key : str) (v : A) : list (str * A) :=
  match d with
  | [] => [(key, v)]
  | (k0, v0) :: d' =>
      if str_eqb k0 key then (k0, v) :: d' else (k0, v0) :: assoc_set d' key v
  end.

(** The query loop of one item: the top three products of the first
    query that succeeds with a non-empty list. *)
Fixpoint try_queries (search_queries : list str)
  : World -> list product_info * World :=
  fun w =>
    match search_queries with
    | [] => ([], w)
    | search_query :: rest =>
        let '(search_results, w') :=
          search_amazon_products search_query 4 default_min_rating w in
        if success search_results && non_empty (products search_results)
        then (firstn 3 (products search_results), w')
        else try_queries rest w'
    end.

Definition item_queries (item : str) : list str :=
  [lit "travel " ++ item; lit "best " ++ item; item].

(** The title as shown in a recommendation: cut at 50 characters. *)
Definition short_title (t : value) : result value :=
  try! n := py_len t in
  if (50 <? n)%Z then
    try! head := slice_to 50 t in
    match head with
    | VStr s => ok (VStr (s ++ lit "..."))
    | _ => raise (Exn TypeError
                    (lit "can only concatenate list (not " ++ dq ++ lit "str"
                       ++ dq ++ lit ") to list"))
    end
  else ok t.

(** One recommendation line of an item. *)
Definition recommendation (i : Z) (product : product_info) : result str :=
  let price_str := price_str_of (price product) in
  try! title := short_title (p_title product) in
  try! shown :=
    (if rating_shown product
     then
       try! stars := stars_of (rating product) in
       ok (lit " | " ++ stars ++ lit " "
             ++ py_str (VFloat (rating product)) ++ lit "/5")
     else ok []) in
  ok (lit "   " ++ py_str (VInt i) ++ lit ". **" ++ py_str title ++ lit "**" ++ nl
      ++ lit "      💰 " ++ price_str
      ++ shown
      ++ (if truthy (prime product) then lit " | 🚚 Prime" else [])
      ++ nl ++ lit "      🛒 ASIN: " ++ py_str (asin product) ++ nl).

Fixpoint recommendations (i : Z) (products : list product_info) : result str :=
  match products with
  | [] => ok []
  | product :: rest =>
      try! r := recommendation i product in
      try! rs := recommendations (i + 1) rest in
      ok (r ++ rs)
  end.

(** What the loop over the items builds. *)
Record pack_state := PackState {
  ps_answer : str;
  ps_results : list packing_item;
  ps_asins_dict : list (str * list value);
  ps_failed_searches : list str
}.

Definition item_header (item : str) : str :=
  lit "📦 **" ++ title item ++ lit "**" ++ nl.

Definition item_not_found : str :=
  lit "   ❌ No specific products found - search manually" ++ nl ++ nl.

(** The loop over the priority items. *)
Fixpoint pack_items (items : list str) (st : pack_state) : M pack_state :=
  fun w =>
    match items with
    | [] => (ok st, w)
    | item :: rest =>
        let '(products, w') := try_queries (item_queries item) w in
        if non_empty products then
          let item_asins :=
            map asin (filter (fun p => truthy (asin p)) products) in
          match recommendations 1 products with
          | inl e => (inl e, w')
          | inr recs =>
              pack_items rest
                {| ps_answer :=
                     ps_answer st ++ item_header item
                       ++ lit "   🏆 **Top Recommendations:**" ++ nl
                       ++ recs ++ nl;
                   ps_results :=
                     ps_results st
                       ++ [{| item := item; item_products := products |}];
                   ps_asins_dict := assoc_set (ps_asins_dict st) item item_asins;
                   ps_failed_searches := ps_failed_searches st |} w'
          end
        else
          pack_items rest
            {| ps_answer := ps_answer st ++ item_header item ++ item_not_found;
               ps_results := ps_results st;
               ps_asins_dict := ps_asins_dict st;
               ps_failed_searches := ps_failed_searches st ++ [item] |} w'
    end.

Definition packing_failure_answer (question : str) : str :=
  lit "Unable to find specific product recommendations for your packing list: "
    ++ question ++ lit ". Try searching for individual items.".

Definition packing_error_answer (e : exn) : str :=
  lit "An error occurred while generating your packing list: " ++ exn_text e
    ++ lit ". Please try again with more specific trip details.".

(** The summary appended when some item found products. *)
Definition packing_summary (st : pack_state) : str :=
  lit "✅ **Found products for " ++ py_str (VInt (len (ps_results st)))
    ++ lit " items**" ++ nl
    ++ (if non_empty (ps_failed_searches st)
        then lit "⚠️ **Manual search needed for:** "
               ++ join (lit ", ") (ps_failed_searches st) ++ nl
        else [])
    ++ nl ++ lit "💡 **Tip:** Ask me to add any items to your cart!".

(** [generate_packing_list(user_id, question)] *)
Definition generate_packing_list (user_id question : str)
  : World -> packing_list * World :=
  fun w =>
    let packing_items := generate_smart_packing_list question in
    let priority_items := firstn 10 packing_items in
    let start :=
      {| ps_answer :=
           lit "🎒 **Smart Packing List for: " ++ question ++ lit "**" ++ nl ++ nl;
         ps_results := []; ps_asins_dict := []; ps_failed_searches := [] |} in
    match pack_items priority_items start w with
    | (inr st, w') =>
        let answer :=
          if non_empty (ps_results st)
          then ps_answer st ++ packing_summary st
          else packing_failure_answer question in
        ({| pl_answer := strip answer; pl_asins := ps_asins_dict st;
            pl_items := ps_results st |}, w')
    | (inl e, w') =>
        ({| pl_answer := packing_error_answer e; pl_asins := [];
            pl_items := [] |}, w')
    end.

End Tools.

(** ** A simulated environment

    The provider answers from a script: each request takes the next
    scripted answer. Used to run the tools on concrete inputs. *)

Module Sim.

Record world := SimWorld {
  key_result : result str;
  script : list (result dict)
}.

Definition sim_get_key (w : world) : result str * world := (key_result w, w).

Definition sim_search (_ : search_params) (w : world) : result dict * world :=
  match script w with
  | [] => (raise (Exn (OtherError (lit "ConnectionError")) (lit "no answer")), w)
  | r :: rest => (r, {| key_result := key_result w; script := rest |})
  end.

(** [float(s)] on the texts used here: white space around, a sign,
    and then a decimal numeral ([ddd], [ddd.ddd], [ddd.] or [.ddd]) or
    one of the words [nan], [inf] and [infinity] in any case. Exponents
    and underscores are not read, and a finite value is the rational
    written, without rounding. Anything else is a [ValueError] that
    names the text. *)
Fixpoint all_digits (s : str) : bool :=
  match s with
  | [] => true
  | c :: s' => is_digit c && all_digits s'
  end.

Fixpoint split_dot (s : str) : str * option str :=
  match s with
  | [] => ([], None)
  | c :: s' =>
      if ascii_eqb c "." then ([], Some s')
      else let '(a, b) := split_dot s' in (c :: a, b)
  end.

Definition sim_unsigned (s : str) : option pyfloat :=
  if str_eqb (lower s) (lit "nan") then Some NaN
  else if str_eqb (lower s) (lit "inf") || str_eqb (lower s) (lit "infinity")
  then Some PInf
  else
    match split_dot s with
    | (a, None) =>
        if non_empty a && all_digits a
        then Some (Fin (inject_Z (int_of_digits a))) else None
    | (a, Some b) =>
        if non_empty (a ++ b) && all_digits a && all_digits b
        then Some (Fin (Qmake (int_of_digits (a ++ b))
                          (Pos.of_nat (10 ^ List.length b))))
        else None
    end.

Definition fl_opp (f : pyfloat) : pyfloat :=
  match f with
  | Fin q => Fin (- q)
  | PInf => NInf
  | NInf => PInf
  | NaN => NaN
  end.

Definition sim_float (s : str) : result pyfloat :=
  let read :=
    match strip s with
    | c :: t =>
        if ascii_eqb c "-" then option_map fl_opp (sim_unsigned t)
        else if ascii_eqb c "+" then sim_unsigned t
        else sim_unsigned (c :: t)
    | [] => None
    end in
  match read with
  | Some f => ok f
  | None =>
      raise (Exn ValueError
               (lit "could not convert string to float: '" ++ s ++ lit "'"))
  end.

(** [float(n)]: an integer beyond the largest float is an
    [OverflowError]; the others are taken without rounding. *)
Definition sim_float_of_int (z : Z) : result pyfloat :=
  if (Z.abs z <? 2 ^ 1024 - 2 ^ 970)%Z then ok (Fin (inject_Z z))
  else raise (Exn OverflowError (lit "int too large to convert to float")).

Definition digit_char (n : nat) : ascii := ascii_of_nat (48 + n).

Fixpoint digits_of (fuel n : nat) (acc : str) : str :=
  match fuel with
  | O => acc
  | S f =>
      if (n <? 10)%nat then digit_char n :: acc
      else digits_of f (n / 10) (digit_char (n mod 10) :: acc)
  end.

Definition str_of_Z (z : Z) : str :=
  (if (z <? 0)%Z then lit "-" else [])
    ++ digits_of (S (Z.abs_nat z)) (Z.abs_nat z) [].

Definition sim_str (v : value) : str :=
  match v with
  | VNone => lit "None"
  | VBool b => if b then lit "True" else lit "False"
  | VInt z => str_of_Z z
  | VStr s => s
  | VFloat NaN => lit "nan"
  | VFloat PInf => lit "inf"
  | VFloat NInf => lit "-inf"
  | VFloat (Fin _) => lit "<float>"
  | VList _ => lit "<list>"
  | VDict _ => lit "<dict>"
  end.

#[export] Instance sim_env : Env := {|
  World := world;
  get_serpapi_key := sim_get_key;
  google_search := sim_search;
  float_of_str := sim_float;
  float_of_int := sim_float_of_int;
  format_2f := fun _ => lit "<price>";
  py_str := sim_str
|}.

(** A raw record with an identifier, a rating and a review count. *)
Definition raw (id : string) (r : value) (n : Z) : value :=
  VDict [(lit "asin", VStr (lit id)); (lit "title", VStr (lit id));
         (lit "rating", r); (lit "reviews", VInt n);
         (lit "price", VStr (lit "$19.99"))].

Definition answer_of (records : list value) : result dict :=
  ok [(lit "organic_results", VList records)].

Definition with_script (answers : list (result dict)) : world :=
  {| key_result := ok (lit "key"); script := answers |}.

(** A provider answer with a usual record, a record rated under the
    minimum, a record without identifier, records with an unknown or
    unreadable rating, and a record with a negative rating. *)
Definition mixed_records : list value :=
  [raw "B0A" (VFloat 4.5) 10; raw "B0B" (VFloat 3.0) 99;
   raw "B0C" (VStr (lit "4.5")) 20; raw "" (VFloat 5) 1;
   raw "B0D" (VInt (-1)) 7; raw "B0E" VNone 7;
   raw "B0F" (VFloat 4.5) 10; raw "B0G" (VStr (lit "n/a")) 10].

(** Two records a provider is not expected to send: an identifier that
    is a number, and a negative rating. *)
Definition odd_records : list value :=
  [VDict [(lit "asin", VInt 1234567890); (lit "rating", VFloat 4.5);
          (lit "reviews", VInt 3)];
   raw "B0D" (VInt (-1)) 7].

(** Three records of which the second has a rating that reads as
    NaN. *)
Definition nan_records : list value :=
  [raw "B0A" (VFloat 3.6) 10; raw "B0B" (VStr (lit "nan")) 10;
   raw "B0C" (VFloat 5) 10].

(** The provider is down: every request raises. *)
Definition provider_down : world := with_script [].

(** A provider with no result for the first two requests and the
    records of [mixed_records] for the two after them. *)
Definition third_time : world :=
  with_script [answer_of []; answer_of []; answer_of mixed_records;
               answer_of mixed_records].

(** A provider that answers every request and never has a result. *)
Definition quiet_env : Env := {|
  World := nat;
  get_serpapi_key := fun n => (ok (lit "key"), n);
  google_search := fun _ n => (ok [(lit "search_metadata", VDict [])], S n);
  float_of_str := sim_float;
  float_of_int := sim_float_of_int;
  format_2f := fun _ => lit "<price>";
  py_str := sim_str
|}.

End Sim.


(** ** Vocabulary of the properties *)

(** Settles a goal [forall x, In x l -> P x] over a literal list [l] by
    running [P] on every element. *)
Ltac each_in H :=
  simpl in H;
  repeat (destruct H as [H | H]; [subst; vm_compute; try reflexivity |]);
  try contradiction.

(** The six filler phrases the documentation lists. *)
Definition documented_fillers : list str :=
  [lit "i need"; lit "looking for"; lit "find me"; lit "search for";
   lit "show me"; lit "get me"].

Definition expansion_keywords : list str := map fst improvements.

(** Duplicates removed, first-seen order kept: what the documentation
    asks of the packing list. *)
Fixpoint first_occurrences (xs : list str) : list str :=
  match xs with
  | [] => []
  | x :: rest => x :: filter (fun y => negb (str_eqb y x)) (first_occurrences rest)
  end.

(** The items of the climate table under the keyword "beach". *)
Definition beach_items : list str :=
  [lit "swimsuit"; lit "beach towel"; lit "waterproof phone case";
   lit "flip flops"; lit "beach bag"].

(** Every item the climate and the activity tables can contribute. *)
Definition table_items (table : list (str * list str)) : list str :=
  flat_map snd table.

(** [a] may stand in front of [b] in the ranking: by Python's [<] on the
    key tuples, the key of [a] is not smaller than the key of [b]. *)
Definition not_below (a b : product_info) : Prop :=
  key_lt (sort_key a) (sort_key b) = ok false.

(** The products whose key equals [key] by Python's [==]. *)
Definition same_key (key : sort_key_t) (p : product_info) : bool :=
  key_eqb (sort_key p) key.

(** The three-way comparison that [==] and [<] give together; no answer
    where [<] raises. *)
Definition compare_values (a b : value) : option comparison :=
  if value_eqb a b then Some Eq
  else match value_lt a b with
       | inr true => Some Lt
       | inr false => Some Gt
       | inl _ => None
       end.

Definition fl_compare (a b : pyfloat) : comparison :=
  if fl_eqb a b then Eq else if fl_ltb a b then Lt else Gt.

Definition str_compare (s t : str) : comparison :=
  if str_eqb s t then Eq else if str_ltb s t then Lt else Gt.

(** The comparison of two sequences: the first pair of elements that
    are not equal decides. *)
Fixpoint lex_compare {A} (c : A -> A -> option comparison) (l1 l2 : list A)
  : option comparison :=
  match l1, l2 with
  | [], [] => Some Eq
  | [], _ :: _ => Some Lt
  | _ :: _, [] => Some Gt
  | x :: l1', y :: l2' =>
      match c x y with
      | Some Eq => lex_compare c l1' l2'
      | r => r
      end
  end.

(** What two comparisons in a row tell about the ends. *)
Definition comp_chain (r1 r2 : comparison) : option comparison :=
  match r1, r2 with
  | Eq, r => Some r
  | r, Eq => Some r
  | Lt, Lt => Some Lt
  | Gt, Gt => Some Gt
  | _, _ => None
  end.

Fixpoint distinct (l : list str) : bool :=
  match l with
  | [] => true
  | x :: l' => negb (existsb (str_eqb x) l') && distinct l'
  end.

(** A value that [==] and [<] treat consistently: it holds no NaN (and
    the keys of a dict are distinct, as they are in Python). *)
Fixpoint orderly (v : value) : bool :=
  match v with
  | VFloat f => negb (is_nan f)
  | VList l => forallb orderly l
  | VDict d => distinct (map fst d) && forallb (fun '(_, x) => orderly x) d
  | _ => true
  end.

(** The key tuple of a product, as the sequence it is compared as. *)
Definition key_value (k : sort_key_t) : value := VList [VFloat (fst k); snd k].

(** A product without NaN in its rating and its review count. *)
Definition orderly_key (p : product_info) : bool :=
  negb (is_nan (rating p)) && orderly (reviews p).

(** [key(a) >= key(b)]: the keys are equal, or the key of [b] is the
    smaller one. *)
Definition ranked_before (a b : product_info) : Prop :=
  key_eqb (sort_key a) (sort_key b) = true
  \/ key_lt (sort_key b) (sort_key a) = ok true.

(** A search result an orchestrator accepts: a success with at least one
    product. *)
Definition yields_products (r : search_result) : bool :=
  success r && match products r with [] => false | _ :: _ => true end.

(** The results of searching every query of a list in turn, [max_results]
    at most each, and the world after the last search. *)
Fixpoint run_searches {env : Env} (max_results : Z) (queries : list str) (w : World)
  : list search_result * World :=
  match queries with
  | [] => ([], w)
  | q :: rest =>
      let '(r, w1) := search_amazon_products q max_results default_min_rating w in
      let '(rs, w2) := run_searches max_results rest w1 in
      (r :: rs, w2)
  end.

(** No query of the list yields products. *)
Definition all_fail {env : Env} (max_results : Z) (queries : list str) (w : World)
  : bool :=
  forallb (fun r => negb (yields_products r)) (fst (run_searches max_results queries w)).

(** The error recorded for the last search of the list. *)
Definition last_recorded_error {env : Env} (max_results : Z) (queries : list str)
    (w : World) : option str :=
  match rev (fst (run_searches max_results queries w)) with
  | [] => None
  | r :: _ => Some (error_or_default r)
  end.

(** Syntactic checks on a compiled pattern. [groups_among allowed r]:
    every group of [r] has a number that [allowed] accepts.
    [no_group n r]: [r] has no group numbered [n]. [binds_number n r]: on
    every path through [r] the last group numbered [n] is entered, and it
    is of the form [(\d+)]. *)
Fixpoint groups_among (allowed : nat -> bool) (r : Re.re) : bool :=
  match r with
  | Re.Eps | Re.Chr _ => true
  | Re.Cat r1 r2 => groups_among allowed r1 && groups_among allowed r2
  | Re.Star r1 | Re.Plus r1 | Re.Opt r1 => groups_among allowed r1
  | Re.Grp m r1 => allowed m && groups_among allowed r1
  end.

Definition no_group (n : nat) (r : Re.re) : bool :=
  groups_among (fun m => negb (Nat.eqb m n)) r.

Definition is_digits_plus (r : Re.re) : bool :=
  match r with
  | Re.Cat (Re.Plus (Re.Chr [Re.IDigit])) Re.Eps => true
  | _ => false
  end.

Fixpoint binds_number (n : nat) (r : Re.re) : bool :=
  match r with
  | Re.Cat r1 r2 => (binds_number n r1 && no_group n r2) || binds_number n r2
  | Re.Grp m r1 => Nat.eqb m n && is_digits_plus r1
  | _ => false
  end.

(** A captured text that [int] reads as a number: digits, one at least. *)
Definition is_number_text (d : str) : Prop :=
  d <> [] /\ forallb is_digit d = true.

(** A word of a normalised text: not empty, no white space in it. *)
Definition is_word (w : str) : Prop :=
  w <> [] /\ forallb (fun c => negb (is_space c)) w = true.

(** [t] occurs in [s]. *)
Definition occurs_in (t s : str) : Prop := exists a b, s = a ++ t ++ b.

(** What a match does to the text and the groups: it hands a suffix of
    the text to its continuation, and every group it binds holds a piece
    of the text. *)
Definition consumes (s : str) (c : Re.caps) (s' : str) (c' : Re.caps) : Prop :=
  (exists d, s = d ++ s')
  /\ forall n t, In (n, t) c' -> In (n, t) c \/ occurs_in t s.

(** A bound [n] that is the value of digits written in the query. *)
Definition written_in (query : str) (n : Z) : Prop :=
  exists d, is_number_text d /\ contains d (lower query) = true
            /\ n = int_of_digits d.

(** The products one raw record contributes to the list: the product
    built from it when it passes the rating test and has a true
    identifier, nothing otherwise. *)
Definition kept {env : Env} (min_rating : Q) (raw : value) : list product_info :=
  match process_record min_rating raw with
  | inr (Some info) => if truthy (asin info) then [info] else []
  | _ => []
  end.

(** [isinstance(v, dict)] *)
Definition is_dict (v : value) : bool :=
  match v with VDict _ => true | _ => false end.

(** A title that is neither text nor a list: [None], a boolean or a
    number. *)
Definition is_scalar_title (t : value) : bool :=
  match t with
  | VNone | VBool _ | VInt _ | VFloat _ => true
  | _ => false
  end.

(** An entry of the result of [generate_packing_list] as it should be:
    between one and three products, each with a true identifier. *)
Definition item_ok (it : packing_item) : Prop :=
  item_products it <> []
  /\ (List.length (item_products it) <= 3)%nat
  /\ forall p, In p (item_products it) -> truthy (asin p) = true.

(** The identifiers of the products of an entry, under its item. *)
Definition asins_of (it : packing_item) : str * list value :=
  (item it, map asin (filter (fun p => truthy (asin p)) (item_products it))).

(** What the loop over the items keeps true of the state: the dict of
    identifiers goes entry by entry with the results, every result is as
    it should be and belongs to an item already seen, and no item has two
    results. *)
Definition pack_invariant (seen : list str) (st : pack_state) : Prop :=
  ps_asins_dict st = map asins_of (ps_results st)
  /\ Forall item_ok (ps_results st)
  /\ (forall it, In it (ps_results st) -> In (item it) seen)
  /\ NoDup (map item (ps_results st)).

(** The world left by the query loops of the given items, one after the
    other. *)
Fixpoint items_world {env : Env} (items : list str) (w : World) : World :=
  match items with
  | [] => w
  | x :: rest => items_world rest (snd (try_queries (item_queries x) w))
  end.

(** A character a number of a price text is made of: a digit or a
    comma. *)
Definition is_price_char (c : ascii) : bool := is_digit c || ascii_eqb "," c.

Fixpoint take_while (f : ascii -> bool) (s : str) : str :=
  match s with
  | [] => []
  | c :: s' => if f c then c :: take_while f s' else []
  end.

Fixpoint drop_while (f : ascii -> bool) (s : str) : str :=
  match s with
  | [] => []
  | c :: s' => if f c then drop_while f s' else s
  end.

(** The number a text begins with: digits and commas, then a dot and
    digits if a dot follows. *)
Definition leading_number (t : str) : str :=
  take_while is_price_char t
    ++ match drop_while is_price_char t with
       | c :: rest => if ascii_eqb "." c then c :: take_while is_digit rest else []
       | [] => []
       end.

(** The first number written in a text, if it has a digit or a comma. *)
Definition first_number (s : str) : option str :=
  match drop_while (fun c => negb (is_price_char c)) s with
  | [] => None
  | t => Some (leading_number t)
  end.

(** The pattern of a price, compiled: the number, and the pattern with
    its optional dollar sign. *)
Definition number_re : Re.re :=
  Re.Cat (Re.Plus (Re.Chr [Re.IDigit; Re.IChar ","]))
    (Re.Cat (Re.Opt (Re.Chr [Re.IChar "."]))
       (Re.Cat (Re.Star (Re.Chr [Re.IDigit])) Re.Eps)).

Definition price_re : Re.re :=
  Re.Cat (Re.Opt (Re.Chr [Re.IChar "$"])) (Re.Cat (Re.Grp 1 number_re) Re.Eps).

(** * Properties *)

(** ** Strings *)

Section StringFacts.

Lemma ascii_eqb_eq (a b : ascii) : ascii_eqb a b = true <-> a = b.
Proof. unfold ascii_eqb. apply Ascii.eqb_eq. Qed.

Lemma ascii_eqb_refl (a : ascii) : ascii_eqb a a = true.
Proof. apply ascii_eqb_eq; reflexivity. Qed.

Lemma str_eqb_eq (a b : str) : str_eqb a b = true <-> a = b.
Proof.
  revert b; induction a as [|x a IH]; intros [|y b]; simpl; split; intro H;
    try reflexivity; try discriminate.
  - apply andb_true_iff in H as [Hx Hs].
    apply ascii_eqb_eq in Hx. apply IH in Hs. congruence.
  - injection H as -> ->. rewrite ascii_eqb_refl. simpl. apply IH. reflexivity.
Qed.

Lemma str_eqb_refl (a : str) : str_eqb a a = true.
Proof. apply str_eqb_eq; reflexivity. Qed.

Lemma str_eqb_neq (a b : str) : str_eqb a b = false <-> a <> b.
Proof.
  split.
  - intros H E. apply str_eqb_eq in E. congruence.
  - intro N. destruct (str_eqb a b) eqn:E; [|reflexivity].
    apply str_eqb_eq in E. contradiction.
Qed.

(** [starts_with p s] says that [s] is [p] followed by something. *)
Lemma starts_with_app (p s : str) :
  starts_with p s = true <-> exists t, s = p ++ t.
Proof.
  revert s; induction p as [|x p IH]; intros s; simpl.
  - split; [intros _; exists s; reflexivity | reflexivity].
  - destruct s as [|y s].
    + split; [discriminate | intros [t Ht]; discriminate].
    + rewrite andb_true_iff, ascii_eqb_eq, IH. split.
      * intros [-> [t ->]]. exists t. reflexivity.
      * intros [t Ht]. injection Ht as -> ->. split; [reflexivity | exists t; reflexivity].
Qed.

(** [contains sub s] says that [sub] occurs in [s]. *)
Lemma contains_app (sub s : str) :
  contains sub s = true <-> exists a b, s = a ++ sub ++ b.
Proof.
  induction s as [|y s IH].
  - simpl. rewrite orb_false_r, starts_with_app. split.
    + intros [t Ht]. exists [], t. exact Ht.
    + intros [a [b H]]. destruct a; [|discriminate]. exists b. exact H.
  - cbn [contains]. rewrite orb_true_iff, IH, starts_with_app. split.
    + intros [[t Ht] | [a [b H]]].
      * exists [], t. exact Ht.
      * exists (y :: a), b. rewrite H. reflexivity.
    + intros [[|x a] [b H]].
      * left. exists b. exact H.
      * right. injection H as -> ->. exists a, b. reflexivity.
Qed.

Lemma contains_within (sub a m b : str) :
  contains sub m = true -> contains sub (a ++ m ++ b) = true.
Proof.
  rewrite !contains_app. intros [a' [b' ->]].
  exists (a ++ a'), (b' ++ b). rewrite <- !app_assoc. reflexivity.
Qed.

Lemma contains_suffix (e a : str) : contains e (a ++ e) = true.
Proof. apply contains_app. exists a, []. rewrite app_nil_r. reflexivity. Qed.

(** Stripping takes white space off both ends. *)
Lemma lstrip_spec (s : str) :
  exists a, s = a ++ lstrip s /\ forallb is_space a = true.
Proof.
  induction s as [|c s [a [Ha Hs]]]; simpl.
  - exists []. split; reflexivity.
  - destruct (is_space c) eqn:E.
    + exists (c :: a). simpl. rewrite E, Hs. split; [f_equal; exact Ha | reflexivity].
    + exists []. split; reflexivity.
Qed.

Lemma rstrip_spec (s : str) :
  exists b, s = rstrip s ++ b /\ forallb is_space b = true.
Proof.
  unfold rstrip. destruct (lstrip_spec (rev s)) as [a [Ha Hs]].
  exists (rev a). split.
  - rewrite <- (rev_involutive s) at 1. rewrite Ha at 1. rewrite rev_app_distr. reflexivity.
  - rewrite forallb_forall in *. intros x Hx. apply Hs. apply in_rev. exact Hx.
Qed.

Lemma strip_spec (s : str) :
  exists a b, s = a ++ strip s ++ b
              /\ forallb is_space a = true /\ forallb is_space b = true.
Proof.
  unfold strip. destruct (lstrip_spec s) as [a [Ha Hsa]].
  destruct (rstrip_spec (lstrip s)) as [b [Hb Hsb]].
  exists a, b. split; [|split; assumption].
  rewrite <- Hb. exact Ha.
Qed.

Lemma contains_strip (sub s : str) :
  contains sub (strip s) = true -> contains sub s = true.
Proof.
  intro H. destruct (strip_spec s) as [a [b [E _]]]. rewrite E.
  apply contains_within. exact H.
Qed.

Lemma lstrip_fixed (s : str) :
  match s with [] => True | c :: _ => is_space c = false end -> lstrip s = s.
Proof. destruct s as [|c s]; simpl; [reflexivity | intros ->; reflexivity]. Qed.

(** A text that begins and ends with a character that is not white
    space is left alone by [strip]. *)
Lemma strip_fixed (x y : ascii) (m : str) :
  is_space x = false -> is_space y = false ->
  strip (x :: m ++ [y]) = x :: m ++ [y].
Proof.
  intros Hx Hy. unfold strip. simpl. rewrite Hx. unfold rstrip.
  change (x :: m ++ [y]) with ((x :: m) ++ [y]).
  rewrite rev_app_distr. simpl. rewrite Hy.
  change (y :: rev m ++ [x]) with ([y] ++ rev (x :: m)).
  rewrite rev_app_distr, rev_involutive. reflexivity.
Qed.

(** Replacing a phrase that does not occur changes nothing. *)
Lemma replace_from_absent (old new s : str) :
  contains old s = false -> replace_from old new 0 s = s.
Proof.
  induction s as [|c s IH]; [reflexivity|].
  cbn [contains replace_from]. intro H. apply orb_false_iff in H as [H1 H2].
  rewrite H1. f_equal. apply IH. exact H2.
Qed.

Lemma replace_absent (old new s : str) :
  contains old s = false -> replace old new s = s.
Proof.
  destruct old as [|o old].
  - destruct s; discriminate.
  - intro H. unfold replace. apply replace_from_absent. exact H.
Qed.

(** Splitting ignores white space at both ends. *)
Lemma split_from_spaces_left (a s : str) :
  forallb is_space a = true -> split_from [] (a ++ s) = split_from [] s.
Proof.
  induction a as [|c a IH]; simpl; [reflexivity|].
  intro H. apply andb_true_iff in H as [Hc Ha]. rewrite Hc. simpl. apply IH. exact Ha.
Qed.

Lemma split_from_spaces_only (cur b : str) :
  forallb is_space b = true -> split_from cur b = flush cur [].
Proof.
  revert cur; induction b as [|c b IH]; intros cur H; simpl; [reflexivity|].
  simpl in H. apply andb_true_iff in H as [Hc Hb]. rewrite Hc.
  rewrite (IH [] Hb). reflexivity.
Qed.

Lemma split_from_spaces_right (cur s b : str) :
  forallb is_space b = true -> split_from cur (s ++ b) = split_from cur s.
Proof.
  intro Hb. revert cur; induction s as [|c s IH]; intros cur; simpl.
  - apply split_from_spaces_only. exact Hb.
  - destruct (is_space c); rewrite IH; reflexivity.
Qed.

Lemma split_strip (s : str) : split (strip s) = split s.
Proof.
  destruct (strip_spec s) as [a [b [E [Ha Hb]]]]. unfold split.
  transitivity (split_from [] (a ++ strip s ++ b)); [|rewrite <- E; reflexivity].
  rewrite split_from_spaces_left by exact Ha.
  rewrite split_from_spaces_right by exact Hb. reflexivity.
Qed.

End StringFacts.


(** ** Query normaliser *)

Lemma remove_fillers_absent (fillers : list str) (q : str) :
  (forall f, In f fillers -> contains f q = false) ->
  split (remove_fillers fillers q) = split q
  /\ forall sub, contains sub (remove_fillers fillers q) = true ->
                 contains sub q = true.
Proof.
  unfold remove_fillers. revert q.
  induction fillers as [|f fillers IH]; intros q H; simpl.
  - split; [reflexivity | auto].
  - assert (Hf : replace f [] q = q)
      by (apply replace_absent, H; left; reflexivity).
    rewrite Hf.
    destruct (IH (strip q)) as [Hs Hc].
    + intros g Hg. destruct (contains g (strip q)) eqn:E; [|reflexivity].
      apply contains_strip in E. rewrite H in E by (right; exact Hg). discriminate.
    + split.
      * rewrite Hs. apply split_strip.
      * intros sub Hsub. apply contains_strip, Hc, Hsub.
Qed.

Lemma improve_absent (table : list (str * str)) (q : str) :
  (forall kw, In kw (map fst table) -> contains kw q = false) -> improve table q = q.
Proof.
  induction table as [|[kw imp] table IH]; intro H; simpl; [reflexivity|].
  rewrite (H kw) by (left; reflexivity). simpl.
  apply IH. intros kw' Hkw'. apply H. right. exact Hkw'.
Qed.

(** C6, as documented, fails: "i want" is a filler phrase of the code. The
    text "i want shoes" has none of the six documented phrases and no
    expansion keyword, and is not returned as it stands. *)
Lemma optimize_documented_fillers_counterexample :
  ~ (forall query : str,
        (forall f, In f documented_fillers -> contains f (lower query) = false) ->
        (forall kw, In kw expansion_keywords -> contains kw (lower query) = false) ->
        optimize_search_query query = join (lit " ") (split (lower query))).
Proof.
  intro H. specialize (H (lit "i want shoes")).
  assert (E : optimize_search_query (lit "i want shoes")
              = join (lit " ") (split (lower (lit "i want shoes")))).
  { apply H; intros x Hx; each_in Hx. }
  vm_compute in E. discriminate E.
Qed.

(** C6 (amended): the filler phrases are the seven of [filler_words],
    "i want" among them. A query whose lower-casing has none of the seven
    phrases and no expansion keyword comes back lower-cased, with white
    space collapsed to single spaces and trimmed. *)
Theorem optimize_search_query_plain (query : str) :
  (forall f, In f filler_words -> contains f (lower query) = false) ->
  (forall kw, In kw expansion_keywords -> contains kw (lower query) = false) ->
  optimize_search_query query = join (lit " ") (split (lower query)).
Proof.
  intros Hf Hk. unfold optimize_search_query.
  destruct (remove_fillers_absent filler_words (lower query) Hf) as [Hs Hc].
  rewrite improve_absent.
  - rewrite Hs. reflexivity.
  - intros kw Hkw.
    destruct (contains kw (remove_fillers filler_words (lower query))) eqn:E;
      [|reflexivity].
    apply Hc in E. rewrite (Hk kw Hkw) in E. discriminate.
Qed.

Lemma optimize_search_query_plain_witness :
  (forall f, In f filler_words -> contains f (lower (lit "  Red   SHOES size 9 ")) = false)
  /\ (forall kw, In kw expansion_keywords ->
                 contains kw (lower (lit "  Red   SHOES size 9 ")) = false)
  /\ optimize_search_query (lit "  Red   SHOES size 9 ") = lit "red shoes size 9".
Proof.
  assert (Hf : forall f, In f filler_words ->
                         contains f (lower (lit "  Red   SHOES size 9 ")) = false)
    by (intros x Hx; each_in Hx).
  assert (Hk : forall kw, In kw expansion_keywords ->
                          contains kw (lower (lit "  Red   SHOES size 9 ")) = false)
    by (intros x Hx; each_in Hx).
  split; [exact Hf | split; [exact Hk |]].
  rewrite (optimize_search_query_plain _ Hf Hk). reflexivity.
Defined.

(** The documented example: the filler is removed and the expansion put
    in front. *)
Example optimize_hiking_boots :
  optimize_search_query (lit "I need hiking boots")
  = lit "hiking outdoor gear hiking boots".
Proof. reflexivity. Qed.

(** "i want" is removed like the other fillers. *)
Example optimize_i_want :
  optimize_search_query (lit "i want shoes") = lit "shoes".
Proof. reflexivity. Qed.


(** ** Packing list generator *)

Section PackingListFacts.

Lemma mem_str_In (x : str) (l : list str) : mem_str x l = true <-> In x l.
Proof.
  unfold mem_str. rewrite existsb_exists. split.
  - intros [y [Hy E]]. apply str_eqb_eq in E. subst. exact Hy.
  - intro H. exists x. split; [exact H | apply str_eqb_refl].
Qed.

Lemma mem_str_not_In (x : str) (l : list str) : mem_str x l = false <-> ~ In x l.
Proof.
  rewrite <- mem_str_In. destruct (mem_str x l); split; intro H;
    try reflexivity; try discriminate; try (intro; discriminate).
  exfalso. apply H. reflexivity.
Qed.

Lemma filter_filter {A} (f g : A -> bool) (l : list A) :
  filter f (filter g l) = filter (fun x => g x && f x) l.
Proof.
  induction l as [|x l IH]; simpl; [reflexivity|].
  destruct (g x); simpl; [destruct (f x)|]; rewrite IH; reflexivity.
Qed.

(** The fold of [from_keys] leaves the keys it starts from in place and
    adds, in order, the first occurrences that are new. *)
Lemma from_keys_fold (xs keys : list str) :
  fold_left (fun keys x => if mem_str x keys then keys else keys ++ [x]) xs keys
  = keys ++ filter (fun y => negb (mem_str y keys)) (first_occurrences xs).
Proof.
  revert keys; induction xs as [|x xs IH]; intro keys; simpl.
  - rewrite app_nil_r. reflexivity.
  - destruct (mem_str x keys) eqn:E; simpl.
    + rewrite IH. f_equal. rewrite filter_filter. apply filter_ext.
      intro y. destruct (str_eqb y x) eqn:Eyx; simpl; [|reflexivity].
      apply str_eqb_eq in Eyx. subst. rewrite E. reflexivity.
    + rewrite IH, <- app_assoc. simpl. do 2 f_equal.
      rewrite filter_filter. apply filter_ext. intro y.
      unfold mem_str. rewrite existsb_app. simpl. rewrite orb_false_r.
      fold (mem_str y keys).
      destruct (str_eqb y x), (mem_str y keys); reflexivity.
Qed.

(** [from_keys] removes duplicates and keeps the first-seen order. *)
Lemma from_keys_first_occurrences (xs : list str) :
  from_keys xs = first_occurrences xs.
Proof.
  unfold from_keys. rewrite from_keys_fold. simpl.
  apply forallb_filter_id, forallb_forall. reflexivity.
Qed.

Lemma first_occurrences_In (x : str) (xs : list str) :
  In x (first_occurrences xs) <-> In x xs.
Proof.
  induction xs as [|y xs IH]; simpl; [tauto|].
  rewrite filter_In, IH, negb_true_iff, str_eqb_neq. split.
  - intros [H | [H _]]; [left | right]; assumption.
  - intros [H | H]; [left; exact H|].
    destruct (str_eqb x y) eqn:E.
    + left. apply str_eqb_eq in E. congruence.
    + right. split; [exact H | apply str_eqb_neq; exact E].
Qed.

Lemma first_occurrences_NoDup (xs : list str) : NoDup (first_occurrences xs).
Proof.
  induction xs as [|y xs IH]; simpl; constructor.
  - rewrite filter_In, negb_true_iff, str_eqb_neq. intros [_ N]. apply N. reflexivity.
  - apply NoDup_filter. exact IH.
Qed.

Lemma from_keys_In (x : str) (xs : list str) : In x (from_keys xs) <-> In x xs.
Proof. rewrite from_keys_first_occurrences. apply first_occurrences_In. Qed.

Lemma from_keys_NoDup (xs : list str) : NoDup (from_keys xs).
Proof. rewrite from_keys_first_occurrences. apply first_occurrences_NoDup. Qed.

(** A list without duplicates is returned as it is. *)
Lemma first_occurrences_NoDup_id (xs : list str) :
  NoDup xs -> first_occurrences xs = xs.
Proof.
  induction 1 as [|x xs Hx Hn IH]; simpl; [reflexivity|].
  rewrite IH. f_equal. apply forallb_filter_id. apply forallb_forall.
  intros y Hy. apply negb_true_iff, str_eqb_neq. intros ->. contradiction.
Qed.

(** The climate loop contributes the items of one table entry, the
    first whose keyword is found. *)
Lemma climate_match_In (table : list (str * list str)) (q x : str) :
  In x (climate_match table q) -> In x (table_items table).
Proof.
  induction table as [|[c items] table IH]; [simpl; tauto|].
  cbn [climate_match table_items flat_map snd].
  intro H. apply in_or_app.
  destruct (any _ _); [left; exact H | right; apply IH; exact H].
Qed.

Lemma climate_match_first (pre post : list (str * list str))
    (climate : str) (items : list str) (q : str) :
  (forall c, In c (map fst pre) ->
             any (fun keyword => contains keyword q)
                 [c; replace (lit "_") (lit " ") c] = false) ->
  contains climate q = true ->
  climate_match (pre ++ (climate, items) :: post) q = items.
Proof.
  intros Hpre Hc. induction pre as [|[c its] pre IH].
  - simpl. rewrite Hc. reflexivity.
  - cbn [app climate_match].
    rewrite (Hpre c (or_introl eq_refl)).
    apply IH. intros c' Hc'. apply Hpre. right. exact Hc'.
Qed.

Lemma activity_matches_In (table : list (str * list str)) (q x : str) :
  In x (activity_matches table q) -> In x (table_items table).
Proof.
  induction table as [|[a items] table IH]; [simpl; tauto|].
  cbn [activity_matches table_items flat_map snd].
  intro H. apply in_app_or in H. apply in_or_app.
  destruct H as [H | H]; [|right; apply IH; exact H].
  destruct (contains a q); [left; exact H | contradiction].
Qed.

(** The three shapes the duration branch can take. *)
Lemma duration_items_cases (q : str) :
  (duration_items q = long_trip_items
   /\ any (fun word => contains word q) long_trip_words = true)
  \/ (duration_items q = short_trip_items
      /\ any (fun word => contains word q) long_trip_words = false
      /\ any (fun word => contains word q) short_trip_words = true)
  \/ (duration_items q = []
      /\ any (fun word => contains word q) long_trip_words = false
      /\ any (fun word => contains word q) short_trip_words = false).
Proof.
  unfold duration_items.
  destruct (any _ long_trip_words); [left; auto|].
  destruct (any _ short_trip_words); [right; left | right; right]; auto.
Qed.

(** What the packing list is made of. *)
Lemma packing_list_In (question x : str) :
  In x (generate_smart_packing_list question) <->
  In x base_items \/ In x (duration_items (lower question))
  \/ In x (climate_match climate_items (lower question))
  \/ In x (activity_matches activities (lower question)).
Proof.
  unfold generate_smart_packing_list. rewrite from_keys_In, !in_app_iff. tauto.
Qed.

(** A duration item comes from the duration branch only. *)
Lemma duration_item_source (question x : str) :
  mem_str x (base_items ++ table_items climate_items ++ table_items activities)
    = false ->
  In x (generate_smart_packing_list question) ->
  In x (duration_items (lower question)).
Proof.
  intros Hm H. apply mem_str_not_In in Hm. apply packing_list_In in H.
  destruct H as [H | [H | [H | H]]]; [| exact H | |]; exfalso; apply Hm;
    rewrite !in_app_iff.
  - left; exact H.
  - right; left. apply climate_match_In in H. exact H.
  - right; right. apply activity_matches_In in H. exact H.
Qed.

Lemma any_true_iff {A} (f : A -> bool) (l : list A) :
  any f l = true <-> exists x, In x l /\ f x = true.
Proof. unfold any. apply existsb_exists. Qed.

Lemma any_false_iff {A} (f : A -> bool) (l : list A) :
  any f l = false <-> forall x, In x l -> f x = false.
Proof.
  unfold any. induction l as [|y l IH]; simpl.
  - split; [intros _ x [] | reflexivity].
  - rewrite orb_false_iff, IH. split.
    + intros [Hy Hl] x [<- | Hx]; [exact Hy | apply Hl; exact Hx].
    + intro H. split; [apply H; left; reflexivity | intros x Hx; apply H; right; exact Hx].
Qed.

Lemma long_item_branch (question i : str) :
  In i long_trip_items -> In i (generate_smart_packing_list question) ->
  duration_items (lower question) = long_trip_items.
Proof.
  intros Hi H. apply duration_item_source in H; [|each_in Hi].
  destruct (duration_items_cases (lower question)) as [[E _] | [[E _] | [E _]]];
    [exact E | |]; rewrite E in H; exfalso.
  - apply mem_str_In in H. each_in Hi; discriminate H.
  - exact H.
Qed.

Lemma short_item_branch (question i : str) :
  In i short_trip_items -> In i (generate_smart_packing_list question) ->
  duration_items (lower question) = short_trip_items.
Proof.
  intros Hi H. apply duration_item_source in H; [|each_in Hi].
  destruct (duration_items_cases (lower question)) as [[E _] | [[E _] | [E _]]];
    [| exact E |]; rewrite E in H; exfalso.
  - apply mem_str_In in H. each_in Hi; discriminate H.
  - exact H.
Qed.

(** The slip behind the amendment of C7: "weekend" contains "week", so a
    weekend trip takes the long-trip branch. *)
Example weekend_takes_long_branch :
  duration_items (lower (lit "Weekend getaway")) = long_trip_items.
Proof. reflexivity. Qed.

(** C7, as stated, fails: "week" is a long-trip keyword too, and the long
    branch is tested first. "3 day trip next week" has a short-trip
    keyword and neither "7 day" nor "long trip", and gets the long-trip
    items. *)
Lemma short_trip_keyword_counterexample :
  ~ (forall question : str,
        (exists w, In w short_trip_words /\ contains w (lower question) = true) ->
        contains (lit "7 day") (lower question) = false ->
        contains (lit "long trip") (lower question) = false ->
        (forall i, In i short_trip_items ->
                   In i (generate_smart_packing_list question))
        /\ (forall i, In i long_trip_items ->
                      ~ In i (generate_smart_packing_list question))).
Proof.
  intro H. destruct (H (lit "3 day trip next week")) as [_ Hlong].
  - exists (lit "3 day"). split; [simpl; auto | reflexivity].
  - reflexivity.
  - reflexivity.
  - apply (Hlong (lit "extra underwear")); [simpl; auto|].
    apply mem_str_In. reflexivity.
Qed.

(** C7 (amended): at most one duration branch applies, the long-trip
    keywords "week", "7 day" and "long trip" being tested first. A
    description whose lower-casing has a short-trip keyword and none of
    the three long-trip keywords gets the short-trip items and none of
    the long-trip items. *)
Theorem duration_branch_selection (question : str) :
  ~ ((exists i, In i long_trip_items
                /\ In i (generate_smart_packing_list question))
     /\ (exists i, In i short_trip_items
                   /\ In i (generate_smart_packing_list question)))
  /\ ((exists w, In w short_trip_words /\ contains w (lower question) = true) ->
      (forall w, In w long_trip_words -> contains w (lower question) = false) ->
      (forall i, In i short_trip_items ->
                 In i (generate_smart_packing_list question))
      /\ (forall i, In i long_trip_items ->
                    ~ In i (generate_smart_packing_list question))).
Proof.
  split.
  - intros [[i [Hi Hin]] [j [Hj Hjn]]].
    apply long_item_branch in Hin; [|exact Hi].
    apply short_item_branch in Hjn; [|exact Hj].
    rewrite Hin in Hjn. discriminate Hjn.
  - intros Hshort Hlong.
    assert (E : duration_items (lower question) = short_trip_items).
    { unfold duration_items.
      apply any_false_iff in Hlong. apply any_true_iff in Hshort.
      rewrite Hlong, Hshort. reflexivity. }
    split.
    + intros i Hi. apply packing_list_In. right; left. rewrite E. exact Hi.
    + intros i Hi Hin. apply long_item_branch in Hin; [|exact Hi].
      rewrite E in Hin. discriminate Hin.
Qed.

Lemma duration_branch_selection_witness :
  (exists w, In w short_trip_words
             /\ contains w (lower (lit "3 Day city trip")) = true)
  /\ (forall w, In w long_trip_words ->
                contains w (lower (lit "3 Day city trip")) = false)
  /\ (forall i, In i short_trip_items ->
                In i (generate_smart_packing_list (lit "3 Day city trip")))
  /\ (forall i, In i long_trip_items ->
                ~ In i (generate_smart_packing_list (lit "3 Day city trip"))).
Proof.
  assert (Hs : exists w, In w short_trip_words
                         /\ contains w (lower (lit "3 Day city trip")) = true)
    by (exists (lit "3 day"); split; [simpl; auto | reflexivity]).
  assert (Hl : forall w, In w long_trip_words ->
                         contains w (lower (lit "3 Day city trip")) = false)
    by (intros x Hx; each_in Hx).
  split; [exact Hs | split; [exact Hl |]].
  exact (proj2 (duration_branch_selection (lit "3 Day city trip")) Hs Hl).
Defined.

(** C8: the packing list of "beach vacation for a week" is the base
    items, the week-duration items and the beach items, in that order:
    all week items and all beach items are there, beach is the only
    climate entry applied, nothing is listed twice, and the order is the
    first-seen order of generation. *)
Theorem packing_list_beach_week :
  let question := lit "beach vacation for a week" in
  let r := generate_smart_packing_list question in
  r = base_items ++ long_trip_items ++ beach_items
  /\ (forall i, In i long_trip_items -> In i r)
  /\ (forall i, In i beach_items -> In i r)
  /\ climate_match climate_items (lower question) = beach_items
  /\ NoDup r
  /\ r = first_occurrences
           (base_items ++ duration_items (lower question)
              ++ climate_match climate_items (lower question)
              ++ activity_matches activities (lower question)).
Proof.
  intros question r.
  assert (Er : r = base_items ++ long_trip_items ++ beach_items) by reflexivity.
  split; [exact Er|].
  split; [intros i Hi; rewrite Er, !in_app_iff; auto|].
  split; [intros i Hi; rewrite Er, !in_app_iff; auto|].
  split; [reflexivity|].
  split; [apply from_keys_NoDup|].
  unfold r, generate_smart_packing_list.
  rewrite from_keys_first_occurrences, <- app_assoc. reflexivity.
Qed.

(** For every description the list has no duplicates and keeps the
    first-seen order. *)
Lemma packing_list_deduplicated (question : str) :
  NoDup (generate_smart_packing_list question)
  /\ generate_smart_packing_list question
     = first_occurrences
         ((base_items ++ duration_items (lower question))
            ++ climate_match climate_items (lower question)
            ++ activity_matches activities (lower question)).
Proof.
  split; [apply from_keys_NoDup|].
  unfold generate_smart_packing_list. apply from_keys_first_occurrences.
Qed.

End PackingListFacts.


(** ** The groups of the price patterns *)

Section GroupFacts.

Context {R : Type}.

(** A relation between the groups bound before and after a match that
    every step respects, such as "group [n] is as it was". *)
Section Invariant.

Variable P : Re.caps -> Re.caps -> Prop.
Variable allowed : nat -> bool.
Hypothesis P_refl : forall c, P c c.
Hypothesis P_trans : forall c1 c2 c3, P c1 c2 -> P c2 c3 -> P c1 c3.
Hypothesis P_bind :
  forall m t c c', allowed m = true -> P c c' -> P c ((m, t) :: c').

Lemma star_loop_inv (step : str -> Re.caps -> @Re.cont R -> option R) :
  (forall s c k x, step s c k = Some x ->
     exists s' c', k s' c' = Some x /\ P c c') ->
  forall fuel s c k x,
    Re.star_loop step fuel s c k = Some x ->
    exists s' c', k s' c' = Some x /\ P c c'.
Proof.
  intros Hstep. induction fuel as [|fuel IH]; intros s c k x H; cbn [Re.star_loop] in H.
  - exists s, c. auto.
  - destruct (step s c _) as [y|] eqn:E.
    + injection H as ->. apply Hstep in E as (s1 & c1 & E & G1).
      destruct (_ <? _)%nat; [|discriminate].
      apply IH in E as (s2 & c2 & E & G2).
      exists s2, c2. split; [exact E | apply (P_trans _ _ _ G1 G2)].
    + exists s, c. auto.
Qed.

(** A match hands on to its continuation, and respects the relation
    when its groups are among the allowed ones. *)
Lemma rmatch_inv (r : Re.re) :
  groups_among allowed r = true ->
  forall s c (k : @Re.cont R) x,
    Re.rmatch r s c k = Some x ->
    exists s' c', k s' c' = Some x /\ P c c'.
Proof.
  induction r as [ | cs | r1 IH1 r2 IH2 | r1 IH1 | r1 IH1 | r1 IH1 | m r1 IH1];
    intros Hn s c k x H; cbn [Re.rmatch groups_among] in H, Hn.
  - exists s, c. auto.
  - destruct s as [|a s]; [discriminate|].
    destruct (Re.in_class cs a); [|discriminate]. exists s, c. auto.
  - apply andb_true_iff in Hn as [H1 H2].
    apply (IH1 H1) in H as (s1 & c1 & H & G1).
    apply (IH2 H2) in H as (s2 & c2 & H & G2).
    exists s2, c2. split; [exact H | apply (P_trans _ _ _ G1 G2)].
  - apply (star_loop_inv _ (IH1 Hn)) in H. exact H.
  - apply (IH1 Hn) in H as (s1 & c1 & H & G1).
    apply (star_loop_inv _ (IH1 Hn)) in H as (s2 & c2 & H & G2).
    exists s2, c2. split; [exact H | apply (P_trans _ _ _ G1 G2)].
  - destruct (Re.rmatch r1 s c k) as [y|] eqn:E.
    + injection H as ->. apply (IH1 Hn) in E. exact E.
    + exists s, c. auto.
  - apply andb_true_iff in Hn as [Hm H1].
    apply (IH1 H1) in H as (s1 & c1 & H & G1).
    eexists _, _. split; [exact H|]. apply P_bind; assumption.
Qed.

End Invariant.

(** A pattern without group [n] leaves the binding of [n] as it was. *)
Lemma rmatch_keeps (n : nat) (r : Re.re) :
  no_group n r = true ->
  forall s c (k : @Re.cont R) x,
    Re.rmatch r s c k = Some x ->
    exists s' c', k s' c' = Some x /\ Re.group c' n = Re.group c n.
Proof.
  intros Hn s c k x H.
  apply (rmatch_inv (fun c c' => Re.group c' n = Re.group c n)
           (fun m => negb (Nat.eqb m n))) with (s := s) (c := c) (r := r).
  - reflexivity.
  - intros c1 c2 c3 H1 H2. congruence.
  - intros m t c1 c2 Hm G. simpl. apply negb_true_iff in Hm. rewrite Hm. exact G.
  - exact Hn.
  - exact H.
Qed.

Lemma groups_among_all (r : Re.re) : groups_among (fun _ => true) r = true.
Proof.
  induction r; simpl; auto. rewrite IHr1, IHr2. reflexivity.
Qed.

(** A match that succeeds handed on to its continuation. *)
Lemma rmatch_continues (r : Re.re) s c (k : @Re.cont R) x :
  Re.rmatch r s c k = Some x -> exists s' c', k s' c' = Some x.
Proof.
  intro H.
  destruct (rmatch_inv (fun _ _ => True) (fun _ => true)
              (fun _ => I) (fun _ _ _ _ _ => I) (fun _ _ _ _ _ _ => I)
              r (groups_among_all r) s c k x H) as (s' & c' & Hk & _).
  exists s', c'. exact Hk.
Qed.

(** [\d*] takes digits off the front of the text. *)
Lemma star_digits (fuel : nat) :
  forall s c (k : @Re.cont R) x,
    Re.star_loop (Re.rmatch (Re.Chr [Re.IDigit])) fuel s c k = Some x ->
    exists d s', s = d ++ s' /\ forallb is_digit d = true /\ k s' c = Some x.
Proof.
  induction fuel as [|fuel IH]; intros s c k x H; cbn [Re.star_loop] in H.
  - exists [], s. auto.
  - cbn [Re.rmatch] in H.
    destruct s as [|a s]; [exists [], []; auto|].
    unfold Re.in_class in H. cbn [existsb Re.in_item] in H. rewrite orb_false_r in H.
    destruct (is_digit a) eqn:Da; [|exists [], (a :: s); auto].
    assert (L : (List.length s <? List.length (a :: s))%nat = true)
      by (apply Nat.ltb_lt; simpl; lia).
    rewrite L in H.
    destruct (Re.star_loop _ fuel s c k) as [y|] eqn:E.
    + injection H as ->. apply IH in E as (d & s' & -> & Hd & Hk).
      exists (a :: d), s'. simpl. rewrite Da, Hd. auto.
    + exists [], (a :: s). auto.
Qed.

(** A group [(\d+)] is bound to the digits it took. *)
Lemma digits_group_binds (n : nat) (r : Re.re) :
  is_digits_plus r = true ->
  forall s c (k : @Re.cont R) x,
    Re.rmatch (Re.Grp n r) s c k = Some x ->
    exists d s' c', is_number_text d /\ Re.group c' n = Some d /\ k s' c' = Some x.
Proof.
  intro Hr.
  destruct r as [ | | r1 r2 | | | | ]; try discriminate.
  destruct r1 as [ | | | | r1 | | ]; try discriminate.
  destruct r1 as [ | [|[ | | ] [|]] | | | | | ]; try discriminate.
  destruct r2; try discriminate. clear Hr.
  intros s c k x H. cbn [Re.rmatch] in H.
  destruct s as [|a s]; [discriminate|].
  unfold Re.in_class in H. cbn [existsb Re.in_item] in H. rewrite orb_false_r in H.
  destruct (is_digit a) eqn:Da; [|discriminate].
  apply star_digits in H as (d & s' & -> & Hd & Hk).
  exists (a :: d), s', ((n, a :: d) :: c). split; [|split].
  - split; [discriminate | simpl; rewrite Da; exact Hd].
  - simpl. rewrite Nat.eqb_refl. reflexivity.
  - assert (F : firstn (List.length (a :: d ++ s') - List.length s') (a :: d ++ s')
                = a :: d).
    { change (a :: d ++ s') with ((a :: d) ++ s').
      rewrite length_app, Nat.add_sub, firstn_app, firstn_all, Nat.sub_diag.
      simpl. rewrite app_nil_r. reflexivity. }
    rewrite F in Hk. exact Hk.
Qed.

(** A pattern that passes [binds_number n] binds group [n] to a number
    text whenever it matches. *)
Lemma rmatch_binds (n : nat) (r : Re.re) :
  binds_number n r = true ->
  forall s c (k : @Re.cont R) x,
    Re.rmatch r s c k = Some x ->
    exists d s' c', is_number_text d /\ Re.group c' n = Some d /\ k s' c' = Some x.
Proof.
  induction r as [ | cs | r1 IH1 r2 IH2 | r1 IH1 | r1 IH1 | r1 IH1 | m r1 IH1];
    try discriminate; intros Hb s c k x H.
  - cbn [binds_number] in Hb. cbn [Re.rmatch] in H.
    destruct (binds_number n r2) eqn:B2.
    + apply rmatch_continues in H as (s1 & c1 & H).
      apply (IH2 eq_refl) in H. exact H.
    + rewrite orb_false_r in Hb. apply andb_true_iff in Hb as [B1 N2].
      apply (IH1 B1) in H as (d & s1 & c1 & Hd & G & H).
      apply (rmatch_keeps n r2 N2) in H as (s2 & c2 & H & G2).
      exists d, s2, c2. split; [exact Hd|]. split; [congruence | exact H].
  - cbn [binds_number] in Hb. apply andb_true_iff in Hb as [E Hd].
    apply Nat.eqb_eq in E. subst m.
    apply (digits_group_binds n r1 Hd) in H. exact H.
Qed.

End GroupFacts.

Lemma search_from_match_here (r : Re.re) (s : str) (m : Re.caps) :
  Re.search_from r s = Some m -> exists s0, Re.match_here r s0 = Some m.
Proof.
  induction s as [|a s IH]; simpl; intro H.
  - destruct (Re.match_here r []) eqn:E; [|discriminate].
    injection H as ->. exists []. exact E.
  - destruct (Re.match_here r (a :: s)) eqn:E.
    + injection H as ->. exists (a :: s). exact E.
    + apply IH. exact H.
Qed.

(** A pattern whose compiled form passes [binds_number n] has group [n]
    bound to a number text in every match [re.search] returns. *)
Lemma search_binds (n : nat) (pattern : str) (r : Re.re) :
  Re.compile pattern = Some r -> binds_number n r = true ->
  forall s m, Re.search pattern s = Some m ->
    exists d, Re.group m n = Some d /\ is_number_text d.
Proof.
  intros Hc Hb s m H. unfold Re.search in H. rewrite Hc in H.
  apply search_from_match_here in H as [s0 H]. unfold Re.match_here in H.
  apply (rmatch_binds n r Hb) in H as (d & s' & c' & Hd & G & H).
  injection H as <-. exists d. auto.
Qed.

(** Whenever a price pattern matches, the groups [extract_price_range]
    reads are bound to number texts: group 1 for every pattern, group 2
    for the range patterns. *)
Lemma price_pattern_groups (pattern : str) :
  In pattern price_patterns ->
  forall s m, Re.search pattern s = Some m ->
    (exists d1, Re.group m 1 = Some d1 /\ is_number_text d1
                /\ group_int m 1 = int_of_digits d1)
    /\ (is_upper_bound_pattern pattern = false ->
        exists d2, Re.group m 2 = Some d2 /\ is_number_text d2
                   /\ group_int m 2 = int_of_digits d2).
Proof.
  intros Hin s m H.
  assert (G : forall n r, Re.compile pattern = Some r -> binds_number n r = true ->
                exists d, Re.group m n = Some d /\ is_number_text d
                          /\ group_int m n = int_of_digits d).
  { intros n r Hc Hb.
    destruct (search_binds n pattern r Hc Hb s m H) as (d & Hg & Hd).
    exists d. unfold group_int. rewrite Hg. auto. }
  simpl in Hin.
  destruct Hin as [<- | [<- | [<- | [<- | [<- | [<- | []]]]]]];
    (split; [eapply G; reflexivity|]);
    try (intro F; discriminate F);
    intros _; eapply G; reflexivity.
Qed.

(** ** Price range *)

Section PriceRangeFacts.

(** The loop over the patterns returns at the first pattern that
    matches. *)
Lemma scan_price_patterns_first (pre post : list str) (pattern query : str)
    (m : Re.caps) :
  (forall p, In p pre -> Re.search p (lower query) = None) ->
  Re.search pattern (lower query) = Some m ->
  scan_price_patterns (pre ++ pattern :: post) query
  = if is_upper_bound_pattern pattern
    then (None, Some (group_int m 1))
    else (Some (group_int m 1), Some (group_int m 2)).
Proof.
  intros Hpre Hm. induction pre as [|p pre IH]; simpl.
  - rewrite Hm. reflexivity.
  - rewrite (Hpre p) by (left; reflexivity).
    apply IH. intros p' Hp'. apply Hpre. right. exact Hp'.
Qed.

Lemma scan_price_patterns_none (patterns : list str) (query : str) :
  (forall p, In p patterns -> Re.search p (lower query) = None) ->
  scan_price_patterns patterns query = (None, None).
Proof.
  induction patterns as [|p patterns IH]; intro H; simpl; [reflexivity|].
  rewrite (H p) by (left; reflexivity).
  apply IH. intros p' Hp'. apply H. right. exact Hp'.
Qed.

(** The upper-bound patterns are the first three of the list: "under",
    "below" and "less than"; the three behind them are the ranges. *)
Lemma upper_bound_patterns :
  map is_upper_bound_pattern price_patterns
  = [true; true; true; false; false; false].
Proof. reflexivity. Qed.

(** Every pattern of the list is in the fragment of the matcher. *)
Lemma price_patterns_compile :
  forallb (fun p => match Re.compile p with Some _ => true | None => false end)
          (price_pattern :: price_patterns) = true.
Proof. reflexivity. Qed.

(** C5: the three documented results, and the rule behind them: the
    first pattern, in the order of the list, that matches the lower-cased
    query decides; an upper-bound pattern gives [(None, N)], a range
    pattern gives [(A, B)], the numbers being the digits the groups of
    the pattern captured, and [(None, None)] is returned when no pattern
    matches. *)
Theorem extract_price_range_spec :
  extract_price_range (lit "under $50") = (None, Some 50%Z)
  /\ extract_price_range (lit "$20-$100") = (Some 20%Z, Some 100%Z)
  /\ extract_price_range (lit "nice shoes") = (None, None)
  /\ (forall query pre pattern post m,
        price_patterns = pre ++ pattern :: post ->
        (forall p, In p pre -> Re.search p (lower query) = None) ->
        Re.search pattern (lower query) = Some m ->
        exists d1,
          Re.group m 1 = Some d1 /\ is_number_text d1
          /\ if is_upper_bound_pattern pattern
             then extract_price_range query = (None, Some (int_of_digits d1))
             else exists d2,
                 Re.group m 2 = Some d2 /\ is_number_text d2
                 /\ extract_price_range query
                    = (Some (int_of_digits d1), Some (int_of_digits d2)))
  /\ (forall query,
        (forall p, In p price_patterns -> Re.search p (lower query) = None) ->
        extract_price_range query = (None, None)).
Proof.
  split; [reflexivity|]. split; [reflexivity|]. split; [reflexivity|]. split.
  - intros query pre pattern post m E Hpre Hm.
    assert (Hin : In pattern price_patterns)
      by (rewrite E; apply in_elt).
    destruct (price_pattern_groups pattern Hin _ _ Hm)
      as [(d1 & G1 & N1 & I1) H2].
    exists d1. split; [exact G1|]. split; [exact N1|].
    unfold extract_price_range. rewrite E.
    rewrite (scan_price_patterns_first pre post pattern query m Hpre Hm).
    destruct (is_upper_bound_pattern pattern).
    + rewrite I1. reflexivity.
    + destruct (H2 eq_refl) as (d2 & G2 & N2 & I2).
      exists d2. rewrite I1, I2. auto.
  - intros query H. apply scan_price_patterns_none. exact H.
Qed.

Lemma extract_price_range_spec_witness :
  (forall p, In p (firstn 3 price_patterns) ->
             Re.search p (lower (lit "$20-$100")) = None)
  /\ Re.search (lit "\$?(\d+)\s*-\s*\$?(\d+)") (lower (lit "$20-$100"))
     = Some [(2%nat, lit "100"); (1%nat, lit "20")]
  /\ exists d1 d2,
       is_number_text d1 /\ is_number_text d2
       /\ extract_price_range (lit "$20-$100")
          = (Some (int_of_digits d1), Some (int_of_digits d2)).
Proof.
  assert (Hpre : forall p, In p (firstn 3 price_patterns) ->
                           Re.search p (lower (lit "$20-$100")) = None)
    by (intros x Hx; each_in Hx).
  assert (Hm : Re.search (lit "\$?(\d+)\s*-\s*\$?(\d+)") (lower (lit "$20-$100"))
               = Some [(2%nat, lit "100"); (1%nat, lit "20")]) by reflexivity.
  split; [exact Hpre|]. split; [exact Hm|].
  destruct extract_price_range_spec as (_ & _ & _ & Hfirst & _).
  destruct (Hfirst (lit "$20-$100") (firstn 3 price_patterns)
              (lit "\$?(\d+)\s*-\s*\$?(\d+)") (skipn 4 price_patterns) _
              eq_refl Hpre Hm) as (d1 & _ & N1 & d2 & _ & N2 & E).
  exists d1, d2. auto.
Defined.

(** A query that matches an upper-bound pattern and a range: the upper
    bound comes first in the list and wins. *)
Example extract_price_range_priority :
  extract_price_range (lit "Under $50 or 20 to 30") = (None, Some 50%Z).
Proof. reflexivity. Qed.

Example extract_price_range_between :
  extract_price_range (lit "between $10 and $30") = (Some 10%Z, Some 30%Z).
Proof. reflexivity. Qed.

End PriceRangeFacts.


(** ** Provider client *)

Section ProviderFacts.

Context {env : Env}.

(** Inverts a [try!] step that ended well. *)
Lemma rbind_ok {A B} (m : result A) (f : A -> result B) (b : B) :
  rbind m f = ok b -> exists a, m = ok a /\ f a = ok b.
Proof.
  destruct m as [e | a]; simpl; [discriminate|].
  intro H. exists a. split; [reflexivity | exact H].
Qed.

Lemma Qltb_lt (p q : Q) : Qltb p q = true <-> (p < q)%Q.
Proof.
  unfold Qltb. rewrite negb_true_iff. split.
  - intro H. apply Qnot_le_lt. intro L. apply Qle_bool_iff in L. congruence.
  - intro H. destruct (Qle_bool q p) eqn:E; [|reflexivity].
    apply Qle_bool_iff in E. exfalso. apply (Qlt_not_le _ _ H E).
Qed.

Lemma Qltb_ge (p q : Q) : Qltb p q = false <-> (q <= p)%Q.
Proof.
  unfold Qltb. rewrite negb_false_iff. apply Qle_bool_iff.
Qed.

(** The rating test on a rating that is a finite number. *)
Lemma below_min_rating_false (q min_rating : Q) :
  below_min_rating (Fin q) min_rating = false <-> (q <= 0 \/ min_rating <= q)%Q.
Proof.
  unfold below_min_rating. cbn [fl_ltb].
  rewrite andb_false_iff, !Qltb_ge. tauto.
Qed.

Lemma below_min_rating_true (q min_rating : Q) :
  below_min_rating (Fin q) min_rating = true <-> (0 < q /\ q < min_rating)%Q.
Proof.
  unfold below_min_rating. cbn [fl_ltb].
  rewrite andb_true_iff, !Qltb_lt. tauto.
Qed.

(** NaN passes the rating test: it is neither above 0 nor below the
    minimum. *)
Lemma below_min_rating_nan (min_rating : Q) :
  below_min_rating NaN min_rating = false.
Proof. reflexivity. Qed.

(** *** One record *)

Lemma make_product_info_fields (product : value) (r : pyfloat) (pv : value)
    (info : product_info) :
  make_product_info product r pv = ok info ->
  rating info = r /\ price info = pv
  /\ py_get product (lit "asin") (VStr []) = ok (asin info)
  /\ py_get product (lit "reviews") (VInt 0) = ok (reviews info).
Proof.
  unfold make_product_info. intro H.
  do 8 (apply rbind_ok in H as [? [? H]]).
  injection H as <-. simpl. auto.
Qed.

(** A record that yields a product passed the rating test, and the
    product carries the record's identifier and parsed rating. *)
Lemma process_record_some (min_rating : Q) (product : value) (info : product_info) :
  process_record min_rating product = ok (Some info) ->
  parse_rating product = ok (rating info)
  /\ below_min_rating (rating info) min_rating = false
  /\ py_get product (lit "asin") (VStr []) = ok (asin info).
Proof.
  unfold process_record. intro H.
  apply rbind_ok in H as [r [Er H]].
  destruct (below_min_rating r min_rating) eqn:B; [discriminate|].
  apply rbind_ok in H as [pv [Ep H]].
  apply rbind_ok in H as [i [Ei H]].
  injection H as ->.
  apply make_product_info_fields in Ei as (Hr & _ & Ha & _).
  rewrite Hr. auto.
Qed.

(** A record whose rating is positive and under the minimum is skipped. *)
Lemma process_record_low_rating (min_rating : Q) (product : value)
    (r : pyfloat) :
  parse_rating product = ok r ->
  fl_ltb (Fin 0) r = true -> fl_ltb r (Fin min_rating) = true ->
  process_record min_rating product = ok None.
Proof.
  intros Hp H0 Hm. unfold process_record. unfold ok in Hp. rewrite Hp.
  cbn [rbind]. unfold below_min_rating. rewrite H0, Hm. reflexivity.
Qed.

(** *** The collecting loop *)

(** A product of the loop is one that was there at the start or the
    product of a record, with a true identifier. *)
Lemma collect_In (min_rating : Q) (max_results : Z) (organic_results : list value) :
  forall (start out : list product_info) (p : product_info),
    collect min_rating max_results organic_results start = ok out ->
    In p out ->
    In p start
    \/ (truthy (asin p) = true
        /\ exists raw, In raw organic_results
                       /\ process_record min_rating raw = ok (Some p)).
Proof.
  induction organic_results as [|product rest IH]; intros start out p H Hin; simpl in H.
  - injection H as <-. left. exact Hin.
  - apply rbind_ok in H as [r [Er H]].
    assert (Hrest : forall start',
               collect min_rating max_results rest start' = ok out ->
               In p start'
               \/ (truthy (asin p) = true
                   /\ exists raw, In raw (product :: rest)
                                  /\ process_record min_rating raw = ok (Some p))).
    { intros start' H'. destruct (IH _ _ _ H' Hin) as [Hs | [Ht [raw [Hr Hp]]]];
        [left; exact Hs | right].
      split; [exact Ht | exists raw; split; [right; exact Hr | exact Hp]]. }
    destruct r as [info|]; [|apply Hrest; exact H].
    assert (Hstep : In p (if truthy (asin info) then start ++ [info] else start) ->
                    In p start
                    \/ (truthy (asin p) = true
                        /\ exists raw, In raw (product :: rest)
                                       /\ process_record min_rating raw = ok (Some p))).
    { destruct (truthy (asin info)) eqn:T; [|auto].
      intro Hi. apply in_app_or in Hi as [Hi | [<- | []]]; [left; exact Hi | right].
      split; [exact T | exists product; split; [left; reflexivity | exact Er]]. }
    destruct (max_results <=? _)%Z.
    + injection H as <-. apply Hstep. exact Hin.
    + destruct (Hrest _ H) as [Hs | Hr]; [apply Hstep; exact Hs | right; exact Hr].
Qed.

(** The loop never holds more than [max_results] products, one at
    least when [max_results] is smaller. *)
Lemma collect_length (min_rating : Q) (max_results : Z) (organic_results : list value) :
  forall (start out : list product_info),
    collect min_rating max_results organic_results start = ok out ->
    (start = [] \/ len start < max_results)%Z ->
    (len out <= Z.max max_results 1)%Z.
Proof.
  unfold len.
  induction organic_results as [|product rest IH]; intros start out H Hs; simpl in H.
  - injection H as <-. destruct Hs as [-> | Hs]; simpl; lia.
  - apply rbind_ok in H as [r [Er H]].
    destruct r as [info|]; [|apply (IH _ _ H Hs)].
    destruct (max_results <=? _)%Z eqn:L.
    + injection H as <-. destruct (truthy (asin info)).
      * rewrite length_app. simpl. destruct Hs as [-> | Hs]; simpl; lia.
      * destruct Hs as [-> | Hs]; simpl; lia.
    + apply (IH _ _ H). apply Z.leb_gt in L. unfold len in L. right. exact L.
Qed.

(** *** The sort keeps the products *)

Lemma insert_desc_split (x : product_info) (acc out : list product_info) :
  insert_desc x acc = ok out ->
  exists l1 l2,
    acc = l1 ++ l2 /\ out = l1 ++ x :: l2
    /\ Forall (fun y => key_lt (sort_key y) (sort_key x) = ok false) l1
    /\ match l2 with
       | [] => True
       | y :: _ => key_lt (sort_key y) (sort_key x) = ok true
       end.
Proof.
  revert out; induction acc as [|y acc IH]; intros out H; simpl in H.
  - injection H as <-. exists [], []. simpl. auto.
  - apply rbind_ok in H as [smaller [Es H]]. destruct smaller.
    + injection H as <-. exists [], (y :: acc). simpl. auto.
    + apply rbind_ok in H as [l [El H]]. injection H as <-.
      destruct (IH _ El) as (l1 & l2 & -> & -> & Hl1 & Hl2).
      exists (y :: l1), l2. simpl. auto.
Qed.

Lemma insert_desc_Permutation (x : product_info) (acc out : list product_info) :
  insert_desc x acc = ok out -> Permutation (acc ++ [x]) out.
Proof.
  intro H. destruct (insert_desc_split _ _ _ H) as (l1 & l2 & -> & -> & _).
  rewrite <- app_assoc. apply Permutation_app_head.
  apply Permutation_sym, Permutation_cons_append.
Qed.

Lemma sort_into_Permutation (l acc out : list product_info) :
  sort_into acc l = ok out -> Permutation (acc ++ l) out.
Proof.
  revert acc; induction l as [|x l IH]; intros acc H; simpl in H.
  - injection H as <-. rewrite app_nil_r. apply Permutation_refl.
  - apply rbind_ok in H as [acc' [Ei H]].
    apply insert_desc_Permutation in Ei. apply IH in H.
    rewrite <- H. change (x :: l) with ([x] ++ l). rewrite app_assoc.
    apply Permutation_app_tail. exact Ei.
Qed.

(** The sort returns the list as it is, or the list sorted by
    insertion. *)
Lemma sort_by_rating_reviews_cases (l out : list product_info) :
  sort_by_rating_reviews l = ok out ->
  (one_run (rev l) = ok true /\ out = l)
  \/ (one_run (rev l) = ok false /\ sort_into [] l = ok out).
Proof.
  unfold sort_by_rating_reviews. intro H.
  apply rbind_ok in H as [run [Er H]]. destruct run.
  - left. injection H as <-. auto.
  - right. auto.
Qed.

Lemma sort_Permutation (l out : list product_info) :
  sort_by_rating_reviews l = ok out -> Permutation l out.
Proof.
  intro H. apply sort_by_rating_reviews_cases in H as [[_ ->] | [_ H]].
  - apply Permutation_refl.
  - apply (sort_into_Permutation _ _ _ H).
Qed.

(** *** The whole call *)

(** What a successful ranking is made of. *)
Lemma rank_results_ok (results : dict) (max_results : Z) (min_rating : Q)
    (res : search_result) :
  rank_results results max_results min_rating = ok res ->
  success res = true /\ error res = None
  /\ total_results res = len (products res)
  /\ exists organic_results collected,
       py_iter (dict_get results (lit "organic_results") (VList []))
       = ok organic_results
       /\ collect min_rating max_results organic_results [] = ok collected
       /\ sort_by_rating_reviews collected = ok (products res).
Proof.
  unfold rank_results. intro H.
  apply rbind_ok in H as [organic [Eo H]].
  apply rbind_ok in H as [collected [Ec H]].
  apply rbind_ok in H as [sorted [Es H]].
  injection H as <-. simpl.
  split; [reflexivity|]. split; [reflexivity|]. split; [reflexivity|].
  exists organic, collected. auto.
Qed.

(** The two ways a call ends: the body raised, or the key was read, the
    provider answered and the ranking went through. *)
Lemma search_amazon_products_cases (query : str) (max_results : Z) (min_rating : Q)
    (w : World) :
  let '(res, w') := search_amazon_products query max_results min_rating w in
  (exists e, search_amazon_products_body query max_results min_rating w = (inl e, w')
             /\ res = failure_result e)
  \/ (exists key w1 results,
        get_serpapi_key w = (ok key, w1)
        /\ google_search (make_params query key) w1 = (ok results, w')
        /\ rank_results results max_results min_rating = ok res).
Proof.
  unfold search_amazon_products, search_amazon_products_body, mbind, lift.
  destruct (get_serpapi_key w) as [[e | key] w1] eqn:Ek.
  - left. exists e. auto.
  - destruct (google_search (make_params query key) w1) as [[e | results] w2] eqn:Eg.
    + left. exists e. auto.
    + destruct (rank_results results max_results min_rating) as [e | res] eqn:Er.
      * left. exists e. auto.
      * right. exists key, w1, results. auto.
Qed.

(** The products of a call: none after a failure, otherwise what the
    loop collected out of the provider's records, sorted. *)
Lemma search_amazon_products_products (query : str) (max_results : Z)
    (min_rating : Q) (w : World) (p : product_info) :
  In p (products (fst (search_amazon_products query max_results min_rating w))) ->
  truthy (asin p) = true
  /\ exists raw, process_record min_rating raw = ok (Some p).
Proof.
  pose proof (search_amazon_products_cases query max_results min_rating w) as C.
  destruct (search_amazon_products query max_results min_rating w) as [res w'].
  simpl. intro Hin.
  destruct C as [[e [_ ->]] | (key & w1 & results & _ & _ & Hr)]; [destruct Hin|].
  apply rank_results_ok in Hr as (_ & _ & _ & organic & collected & _ & Hc & Hs).
  apply sort_Permutation in Hs.
  apply (Permutation_in _ (Permutation_sym Hs)) in Hin.
  destruct (collect_In _ _ _ _ _ _ Hc Hin) as [[] | [Ht [raw [_ Hp]]]].
  split; [exact Ht | exists raw; exact Hp].
Qed.

(** C3: when reading the key, the provider call or a later step of the
    body raises [e], the call returns the failure result: [success] false,
    no product, [total_results] 0 and the text of [e] as [error]. The call
    itself always returns a result. *)
Theorem search_amazon_products_failure (query : str) (max_results : Z)
    (min_rating : Q) (w : World) :
  (forall e w', search_amazon_products_body query max_results min_rating w
                = (inl e, w') ->
     search_amazon_products query max_results min_rating w
     = ({| success := false; error := Some (exn_text e); products := [];
           total_results := 0 |}, w'))
  /\ (forall e w1, get_serpapi_key w = (inl e, w1) ->
        search_amazon_products_body query max_results min_rating w = (inl e, w1))
  /\ (forall key w1 e w2,
        get_serpapi_key w = (ok key, w1) ->
        google_search (make_params query key) w1 = (inl e, w2) ->
        search_amazon_products_body query max_results min_rating w = (inl e, w2))
  /\ (forall key w1 results w2 e,
        get_serpapi_key w = (ok key, w1) ->
        google_search (make_params query key) w1 = (ok results, w2) ->
        rank_results results max_results min_rating = inl e ->
        search_amazon_products_body query max_results min_rating w = (inl e, w2)).
Proof.
  unfold search_amazon_products, search_amazon_products_body, mbind, lift, ok.
  split; [|split; [|split]].
  - intros e w' H. rewrite H. reflexivity.
  - intros e w1 H. rewrite H. reflexivity.
  - intros key w1 e w2 Hk Hg. rewrite Hk. cbv beta iota. rewrite Hg. reflexivity.
  - intros key w1 results w2 e Hk Hg Hr. rewrite Hk. cbv beta iota.
    rewrite Hg. cbv beta iota. rewrite Hr. reflexivity.
Qed.

(** A result is a failure exactly when the body raised. *)
Lemma search_amazon_products_success_iff (query : str) (max_results : Z)
    (min_rating : Q) (w : World) :
  success (fst (search_amazon_products query max_results min_rating w)) = false
  <-> exists e w', search_amazon_products_body query max_results min_rating w
                   = (inl e, w').
Proof.
  pose proof (search_amazon_products_cases query max_results min_rating w) as C.
  unfold search_amazon_products in *.
  destruct (search_amazon_products_body query max_results min_rating w)
    as [[e | r] w'] eqn:Eb; simpl.
  - split; [intros _; exists e, w'; reflexivity | reflexivity].
  - destruct C as [[e [He _]] | (key & w1 & results & _ & _ & Hr)]; [discriminate|].
    apply rank_results_ok in Hr as (Hs & _). rewrite Hs.
    split; [discriminate | intros (e & w'' & H); discriminate].
Qed.

End ProviderFacts.

Lemma search_amazon_products_failure_witness :
  search_amazon_products_body (env := Sim.sim_env) (lit "shoes") 15 3.5
    Sim.provider_down
  = (inl (Exn (OtherError (lit "ConnectionError")) (lit "no answer")),
     Sim.provider_down)
  /\ search_amazon_products (env := Sim.sim_env) (lit "shoes") 15 3.5
       Sim.provider_down
     = ({| success := false; error := Some (lit "no answer"); products := [];
           total_results := 0 |}, Sim.provider_down).
Proof.
  destruct (search_amazon_products_failure (env := Sim.sim_env)
              (lit "shoes") 15 3.5 Sim.provider_down) as (Hf & _ & Hg & _).
  assert (Hb : search_amazon_products_body (env := Sim.sim_env) (lit "shoes") 15 3.5
                 Sim.provider_down
               = (inl (Exn (OtherError (lit "ConnectionError")) (lit "no answer")),
                  Sim.provider_down))
    by (apply (Hg (lit "key") Sim.provider_down); reflexivity).
  split; [exact Hb | exact (Hf _ _ Hb)].
Defined.


(** ** Ranking *)

Section RankingFacts.

(** *** Equality and order of values *)

Lemma value_nested_ind (P : value -> Prop) :
  P VNone -> (forall b, P (VBool b)) -> (forall z, P (VInt z)) ->
  (forall f, P (VFloat f)) -> (forall s, P (VStr s)) ->
  (forall l, Forall P l -> P (VList l)) ->
  (forall d, Forall (fun kv => P (snd kv)) d -> P (VDict d)) ->
  forall v, P v.
Proof.
  intros HN HB HI HF HS HL HD. fix IH 1.
  intros [ | b | z | f | s | l | d];
    [apply HN | apply HB | apply HI | apply HF | apply HS | | ].
  - apply HL. revert l. fix IHl 1. intros [|x l]; constructor; [apply IH | apply IHl].
  - apply HD. revert d. fix IHd 1.
    intros [|[k0 x] d]; constructor; [apply IH | apply IHd].
Qed.

Lemma Qeqb_false (p q : Q) : Qeq_bool p q = false <-> ~ (p == q)%Q.
Proof.
  split; [apply Qeq_bool_neq|].
  intro N. destruct (Qeq_bool p q) eqn:E; [|reflexivity].
  apply Qeq_bool_iff in E. contradiction.
Qed.

Lemma str_eqb_sym (a b : str) : str_eqb a b = str_eqb b a.
Proof.
  destruct (str_eqb a b) eqn:E, (str_eqb b a) eqn:F; try reflexivity.
  - apply str_eqb_eq in E. subst. rewrite str_eqb_refl in F. discriminate.
  - apply str_eqb_eq in F. subst. rewrite str_eqb_refl in E. discriminate.
Qed.

(** **** Numbers *)

(** On finite numbers the comparison is that of the rationals. *)
Lemma fl_compare_Fin (p q : Q) : fl_compare (Fin p) (Fin q) = (p ?= q)%Q.
Proof.
  unfold fl_compare. cbn [fl_eqb fl_ltb].
  destruct (Qcompare_spec p q) as [E | L | G].
  - rewrite (proj2 (Qeq_bool_iff p q) E). reflexivity.
  - rewrite (proj2 (Qeqb_false p q)) by lra.
    rewrite (proj2 (Qltb_lt p q) L). reflexivity.
  - rewrite (proj2 (Qeqb_false p q)) by lra.
    rewrite (proj2 (Qltb_ge p q)) by lra. reflexivity.
Qed.

Lemma fl_compare_refl (a : pyfloat) : is_nan a = false -> fl_compare a a = Eq.
Proof.
  destruct a as [p| | |]; intro H; try discriminate H; try reflexivity.
  rewrite fl_compare_Fin. apply Qeq_alt. reflexivity.
Qed.

Lemma fl_compare_sym (a b : pyfloat) :
  is_nan a = false -> is_nan b = false ->
  fl_compare b a = CompOpp (fl_compare a b).
Proof.
  destruct a as [p| | |], b as [q| | |]; intros Ha Hb;
    try discriminate; try reflexivity.
  rewrite !fl_compare_Fin. symmetry. apply Qcompare_antisym.
Qed.

Lemma Qcompare_chain (p q s : Q) (r : comparison) :
  comp_chain (p ?= q)%Q (q ?= s)%Q = Some r -> (p ?= s)%Q = r.
Proof.
  destruct (Qcompare_spec p q) as [E1 | E1 | E1],
    (Qcompare_spec q s) as [E2 | E2 | E2],
    (Qcompare_spec p s) as [E3 | E3 | E3];
    cbn; intro C; try discriminate C; injection C as <-; try reflexivity;
    exfalso; lra.
Qed.

Lemma fl_compare_trans (a b c : pyfloat) (r : comparison) :
  is_nan a = false -> is_nan b = false -> is_nan c = false ->
  comp_chain (fl_compare a b) (fl_compare b c) = Some r ->
  fl_compare a c = r.
Proof.
  destruct a as [p| | |], b as [q| | |], c as [s| | |]; intros Ha Hb Hc;
    try discriminate; rewrite ?fl_compare_Fin;
    try apply Qcompare_chain;
    try (cbn; destruct (_ ?= _)%Q; cbn; intro H; congruence);
    try (cbn; intro H; congruence).
Qed.

(** **** Strings *)

Lemma code_inj (x y : ascii) : code x = code y -> x = y.
Proof.
  unfold code. intro H.
  rewrite <- (ascii_nat_embedding x), <- (ascii_nat_embedding y), H. reflexivity.
Qed.

Lemma str_ltb_irrefl (a : str) : str_ltb a a = false.
Proof.
  induction a as [|x a IH]; simpl; [reflexivity|].
  rewrite Nat.ltb_irrefl. exact IH.
Qed.

Lemma str_ltb_trans (a b c : str) :
  str_ltb a b = true -> str_ltb b c = true -> str_ltb a c = true.
Proof.
  revert b c; induction a as [|x a IH]; intros [|y b] [|z c]; simpl;
    try discriminate; try reflexivity.
  destruct (code x <? code y)%nat eqn:Exy, (code y <? code x)%nat eqn:Eyx,
    (code y <? code z)%nat eqn:Eyz, (code z <? code y)%nat eqn:Ezy,
    (code x <? code z)%nat eqn:Exz, (code z <? code x)%nat eqn:Ezx;
    try discriminate; try reflexivity;
    rewrite ?Nat.ltb_lt, ?Nat.ltb_ge in *; try lia.
  apply IH.
Qed.

Lemma str_ltb_total (a b : str) :
  str_ltb a b = false -> str_eqb a b = false -> str_ltb b a = true.
Proof.
  revert b; induction a as [|x a IH]; intros [|y b]; simpl;
    try discriminate; try reflexivity.
  destruct (code x <? code y)%nat eqn:Exy, (code y <? code x)%nat eqn:Eyx;
    try discriminate; try reflexivity.
  rewrite Nat.ltb_ge in *.
  assert (E : x = y) by (apply code_inj; lia). subst.
  rewrite ascii_eqb_refl. simpl. apply IH.
Qed.

Lemma str_ltb_asym (a b : str) : str_ltb a b = true -> str_ltb b a = false.
Proof.
  intro H. destruct (str_ltb b a) eqn:E; [|reflexivity].
  rewrite <- (str_ltb_irrefl a). symmetry. apply (str_ltb_trans _ _ _ H E).
Qed.

Lemma str_compare_refl (s : str) : str_compare s s = Eq.
Proof. unfold str_compare. rewrite str_eqb_refl. reflexivity. Qed.

Lemma str_compare_Eq (s t : str) : str_compare s t = Eq <-> s = t.
Proof.
  unfold str_compare. destruct (str_eqb s t) eqn:E.
  - apply str_eqb_eq in E. tauto.
  - split; [destruct (str_ltb s t); discriminate|].
    intros ->. rewrite str_eqb_refl in E. discriminate E.
Qed.

Lemma str_compare_Lt (s t : str) : str_compare s t = Lt <-> str_ltb s t = true.
Proof.
  unfold str_compare. destruct (str_eqb s t) eqn:E.
  - apply str_eqb_eq in E. subst. rewrite str_ltb_irrefl.
    split; discriminate.
  - destruct (str_ltb s t); split; try reflexivity; discriminate.
Qed.

Lemma str_compare_sym (s t : str) : str_compare t s = CompOpp (str_compare s t).
Proof.
  unfold str_compare. rewrite (str_eqb_sym t s).
  destruct (str_eqb s t) eqn:E; [reflexivity|].
  destruct (str_ltb s t) eqn:L.
  - rewrite (str_ltb_asym _ _ L). reflexivity.
  - rewrite (str_ltb_total _ _ L E). reflexivity.
Qed.

Lemma str_compare_trans (s t u : str) (r : comparison) :
  comp_chain (str_compare s t) (str_compare t u) = Some r ->
  str_compare s u = r.
Proof.
  destruct (str_compare s t) eqn:E1.
  - apply str_compare_Eq in E1. subst t. cbn. intro H. congruence.
  - destruct (str_compare t u) eqn:E2; cbn; intro H; try discriminate H;
      injection H as <-.
    + apply str_compare_Eq in E2. subst u. exact E1.
    + apply str_compare_Lt. apply str_compare_Lt in E1, E2.
      apply (str_ltb_trans _ _ _ E1 E2).
  - destruct (str_compare t u) eqn:E2; cbn; intro H; try discriminate H;
      injection H as <-.
    + apply str_compare_Eq in E2. subst u. exact E1.
    + assert (F1 : str_compare t s = Lt) by (rewrite str_compare_sym, E1; reflexivity).
      assert (F2 : str_compare u t = Lt) by (rewrite str_compare_sym, E2; reflexivity).
      apply str_compare_Lt in F1, F2.
      rewrite str_compare_sym.
      rewrite (proj2 (str_compare_Lt u s) (str_ltb_trans _ _ _ F2 F1)). reflexivity.
Qed.

(** **** Sequences *)

Section Lexicographic.

Context {A : Type}.
Variable c : A -> A -> option comparison.
Variable P : A -> Prop.

Lemma lex_compare_refl (l : list A) :
  Forall (fun x => c x x = Some Eq) l -> lex_compare c l l = Some Eq.
Proof.
  induction 1 as [|x l Hx _ IH]; cbn; [reflexivity|]. rewrite Hx. exact IH.
Qed.

Lemma lex_compare_sym (l1 : list A) :
  Forall (fun x => forall y, P y -> c y x = option_map CompOpp (c x y)) l1 ->
  forall l2, Forall P l2 ->
    lex_compare c l2 l1 = option_map CompOpp (lex_compare c l1 l2).
Proof.
  induction 1 as [|x l1 Hx _ IH]; intros [|y l2] H2; cbn; try reflexivity.
  apply Forall_cons_iff in H2 as [Hy H2].
  rewrite (Hx y Hy). destruct (c x y) as [[ | | ]|]; cbn; try reflexivity.
  apply IH. exact H2.
Qed.

Lemma comp_chain_Lt (r1 r2 r : comparison) :
  comp_chain r1 r2 = Some r -> r1 = Lt \/ r2 = Lt -> r = Lt.
Proof.
  destruct r1, r2; cbn; intros H [E | E]; try discriminate; congruence.
Qed.

Lemma comp_chain_Gt (r1 r2 r : comparison) :
  comp_chain r1 r2 = Some r -> r1 = Gt \/ r2 = Gt -> r = Gt.
Proof.
  destruct r1, r2; cbn; intros H [E | E]; try discriminate; congruence.
Qed.

Lemma comp_chain_Eq_l (r2 r : comparison) : comp_chain Eq r2 = Some r -> r = r2.
Proof. cbn. congruence. Qed.

Lemma comp_chain_Eq_r (r1 r : comparison) : comp_chain r1 Eq = Some r -> r = r1.
Proof. destruct r1; cbn; congruence. Qed.

Lemma lex_compare_trans (l1 : list A) :
  Forall (fun x => forall y z r1 r2 r, P y -> P z ->
                     c x y = Some r1 -> c y z = Some r2 ->
                     comp_chain r1 r2 = Some r -> c x z = Some r) l1 ->
  forall l2 l3 r1 r2 r, Forall P l2 -> Forall P l3 ->
    lex_compare c l1 l2 = Some r1 -> lex_compare c l2 l3 = Some r2 ->
    comp_chain r1 r2 = Some r -> lex_compare c l1 l3 = Some r.
Proof.
  induction 1 as [|x l1 Hx _ IH]; intros [|y l2] [|z l3] r1 r2 r H2 H3;
    cbn [lex_compare]; intros E1 E2 C;
    try (injection E1 as <-); try (injection E2 as <-);
    try discriminate C; try (injection C as <-); try reflexivity.
  - f_equal. symmetry. apply (comp_chain_Lt _ _ _ C). auto.
  - f_equal. symmetry. apply (comp_chain_Gt _ _ _ C). auto.
  - apply Forall_cons_iff in H2 as [Hy H2], H3 as [Hz H3].
    destruct (c x y) as [rxy|] eqn:Exy; [|discriminate E1].
    destruct (c y z) as [ryz|] eqn:Eyz;
      [|destruct rxy; discriminate E2 || (cbn in E2; discriminate E2)].
    destruct rxy, ryz.
    + rewrite (Hx y z Eq Eq Eq Hy Hz Exy Eyz eq_refl).
      apply (IH l2 l3 r1 r2 r H2 H3 E1 E2 C).
    + injection E2 as <-. rewrite (Hx y z Eq Lt Lt Hy Hz Exy Eyz eq_refl).
      f_equal. symmetry. apply (comp_chain_Lt _ _ _ C). auto.
    + injection E2 as <-. rewrite (Hx y z Eq Gt Gt Hy Hz Exy Eyz eq_refl).
      f_equal. symmetry. apply (comp_chain_Gt _ _ _ C). auto.
    + injection E1 as <-. rewrite (Hx y z Lt Eq Lt Hy Hz Exy Eyz eq_refl).
      f_equal. symmetry. apply (comp_chain_Lt _ _ _ C). auto.
    + injection E1 as <-. injection E2 as <-.
      rewrite (Hx y z Lt Lt Lt Hy Hz Exy Eyz eq_refl). cbn in C. exact C.
    + injection E1 as <-. injection E2 as <-. discriminate C.
    + injection E1 as <-. rewrite (Hx y z Gt Eq Gt Hy Hz Exy Eyz eq_refl).
      f_equal. symmetry. apply (comp_chain_Gt _ _ _ C). auto.
    + injection E1 as <-. injection E2 as <-. discriminate C.
    + injection E1 as <-. injection E2 as <-.
      rewrite (Hx y z Gt Gt Gt Hy Hz Exy Eyz eq_refl). cbn in C. exact C.
Qed.

End Lexicographic.

(** **** The comparison, kind by kind *)

Lemma compare_values_Eq (a b : value) :
  compare_values a b = Some Eq <-> value_eqb a b = true.
Proof.
  unfold compare_values. destruct (value_eqb a b); [tauto|].
  split; [|discriminate]. destruct (value_lt a b) as [e | []]; discriminate.
Qed.

Lemma compare_values_num (a b : value) (p : pyfloat) :
  num_of a = Some p ->
  compare_values a b
  = match num_of b with
    | Some q => Some (fl_compare p q)
    | None => None
    end.
Proof.
  unfold compare_values, fl_compare.
  destruct a; intro H; try discriminate H; injection H as <-;
    destruct b; try reflexivity;
    cbn [value_eqb value_lt num_of];
    (destruct (fl_eqb _ _); [reflexivity|]);
    unfold ok; destruct (fl_ltb _ _); reflexivity.
Qed.

Lemma compare_values_str (s : str) (b : value) :
  compare_values (VStr s) b
  = match b with
    | VStr t => Some (str_compare s t)
    | _ => None
    end.
Proof.
  unfold compare_values, str_compare. destruct b; cbn; try reflexivity.
  destruct (str_eqb s s0); [reflexivity|]. destruct (str_ltb s s0); reflexivity.
Qed.

Lemma compare_values_none (b : value) :
  compare_values VNone b = match b with VNone => Some Eq | _ => None end.
Proof. destruct b; reflexivity. Qed.

Lemma compare_values_lists (l1 l2 : list value) :
  compare_values (VList l1) (VList l2) = lex_compare compare_values l1 l2.
Proof.
  revert l2; induction l1 as [|x l1 IH]; intros [|y l2]; try reflexivity.
  cbn [lex_compare]. rewrite <- IH. unfold compare_values.
  cbn [value_eqb value_lt list_eqb list_lt].
  destruct (value_eqb x y); cbn [andb]; [reflexivity|].
  destruct (value_lt x y) as [e | []]; reflexivity.
Qed.

Lemma compare_values_list (l : list value) (b : value) :
  compare_values (VList l) b
  = match b with
    | VList l2 => lex_compare compare_values l l2
    | _ => None
    end.
Proof.
  destruct b; try reflexivity. apply compare_values_lists.
Qed.

Lemma compare_values_dict (d : list (str * value)) (b : value) :
  compare_values (VDict d) b
  = match b with
    | VDict d2 => if value_eqb (VDict d) (VDict d2) then Some Eq else None
    | _ => None
    end.
Proof.
  destruct b; reflexivity.
Qed.

Lemma orderly_num (v : value) (p : pyfloat) :
  orderly v = true -> num_of v = Some p -> is_nan p = false.
Proof.
  destruct v; cbn; intros H E; try discriminate E; injection E as <-;
    try reflexivity.
  apply negb_true_iff. exact H.
Qed.

(** **** Dicts *)

Lemma existsb_str_In (x : str) (l : list str) :
  existsb (str_eqb x) l = true <-> In x l.
Proof.
  rewrite existsb_exists. split.
  - intros (y & Hy & E). apply str_eqb_eq in E. subst. exact Hy.
  - intro H. exists x. split; [exact H | apply str_eqb_refl].
Qed.

Lemma distinct_NoDup (l : list str) : distinct l = true -> NoDup l.
Proof.
  induction l as [|x l IH]; cbn; intro H; constructor.
  - apply andb_true_iff in H as [H _]. apply negb_true_iff in H.
    intro Hin. apply existsb_str_In in Hin. congruence.
  - apply IH. apply andb_true_iff in H as [_ H]. exact H.
Qed.

Lemma lookup_In (d : dict) (key : str) (x : value) :
  dict_lookup d key = Some x -> In (key, x) d.
Proof.
  induction d as [|[k0 v0] d IH]; cbn; [discriminate|].
  destruct (str_eqb k0 key) eqn:E.
  - apply str_eqb_eq in E. subst. intro H. injection H as <-. left. reflexivity.
  - intro H. right. apply IH. exact H.
Qed.

Lemma In_lookup (d : dict) (key : str) (x : value) :
  NoDup (map fst d) -> In (key, x) d -> dict_lookup d key = Some x.
Proof.
  induction d as [|[k0 v0] d IH]; cbn; intros Hn Hin; [contradiction|].
  apply NoDup_cons_iff in Hn as [Hk Hn].
  destruct Hin as [E | Hin].
  - injection E as -> ->. rewrite str_eqb_refl. reflexivity.
  - destruct (str_eqb k0 key) eqn:E; [|apply IH; assumption].
    apply str_eqb_eq in E. subst. exfalso. apply Hk.
    apply (in_map fst) in Hin. exact Hin.
Qed.

Lemma key_lookup (d : dict) (key : str) :
  In key (map fst d) -> exists x, dict_lookup d key = Some x.
Proof.
  induction d as [|[k0 v0] d IH]; cbn; [contradiction|].
  destruct (str_eqb k0 key) eqn:E; [eauto|].
  intros [-> | Hin]; [rewrite str_eqb_refl in E; discriminate E | apply IH; exact Hin].
Qed.

Lemma dict_sub_spec (d1 d2 : dict) :
  dict_sub value_eqb dict_lookup d1 d2 = true <->
  forall key x, In (key, x) d1 ->
    exists y, dict_lookup d2 key = Some y /\ value_eqb x y = true.
Proof.
  induction d1 as [|[k0 v0] d1 IH]; cbn [dict_sub].
  - split; [intros _ key x [] | reflexivity].
  - rewrite andb_true_iff, IH. split.
    + intros [H0 H] key x [E | Hin]; [|apply H; exact Hin].
      injection E as <- <-.
      destruct (dict_lookup d2 k0) as [y|]; [|discriminate H0]. eauto.
    + intro H. split.
      * destruct (H k0 v0 (or_introl eq_refl)) as (y & -> & E). exact E.
      * intros key x Hin. apply H. right. exact Hin.
Qed.

Lemma dict_eqb_spec (d1 d2 : dict) :
  value_eqb (VDict d1) (VDict d2) = true <->
  List.length d1 = List.length d2
  /\ forall key x, In (key, x) d1 ->
       exists y, dict_lookup d2 key = Some y /\ value_eqb x y = true.
Proof.
  cbn [value_eqb]. rewrite andb_true_iff, Nat.eqb_eq, dict_sub_spec. tauto.
Qed.

(** With as many entries and distinct keys, the keys of the second dict
    are keys of the first. *)
Lemma dict_keys_back (d1 d2 : dict) :
  NoDup (map fst d1) -> List.length d1 = List.length d2 ->
  (forall key x, In (key, x) d1 -> exists y, dict_lookup d2 key = Some y) ->
  forall key y, In (key, y) d2 -> exists x, In (key, x) d1.
Proof.
  intros Hn Hl Hsub key y Hin.
  assert (Hincl : incl (map fst d1) (map fst d2)).
  { intros k0 Hk. apply in_map_iff in Hk as ([k1 x] & <- & Hx). cbn.
    destruct (Hsub _ _ Hx) as [y0 Hy]. apply lookup_In in Hy.
    apply (in_map fst) in Hy. exact Hy. }
  assert (Hback : incl (map fst d2) (map fst d1)).
  { apply (NoDup_length_incl Hn); [|exact Hincl].
    rewrite !length_map, Hl. apply Nat.le_refl. }
  assert (Hk : In key (map fst d1))
    by (apply Hback; apply (in_map fst) in Hin; exact Hin).
  destruct (key_lookup _ _ Hk) as [x Hx]. exists x. apply lookup_In. exact Hx.
Qed.

Lemma orderly_list (l : list value) :
  orderly (VList l) = true <-> forall x, In x l -> orderly x = true.
Proof. cbn [orderly]. apply forallb_forall. Qed.

Lemma orderly_dict (d : dict) :
  orderly (VDict d) = true ->
  NoDup (map fst d) /\ forall key x, In (key, x) d -> orderly x = true.
Proof.
  cbn [orderly]. intro H. apply andb_true_iff in H as [Hd Hf]. split.
  - apply distinct_NoDup. exact Hd.
  - intros key x Hin. rewrite forallb_forall in Hf. apply (Hf (key, x) Hin).
Qed.

Lemma dict_eqb_flip (d1 d2 : dict) :
  NoDup (map fst d1) -> NoDup (map fst d2) ->
  (forall key x y, In (key, x) d1 -> In (key, y) d2 ->
     value_eqb x y = true -> value_eqb y x = true) ->
  value_eqb (VDict d1) (VDict d2) = true ->
  value_eqb (VDict d2) (VDict d1) = true.
Proof.
  intros N1 N2 Hflip H. apply dict_eqb_spec in H as [Hl Hsub].
  apply dict_eqb_spec. split; [symmetry; exact Hl|].
  intros key y Hy.
  destruct (dict_keys_back d1 d2 N1 Hl) with (key := key) (y := y) as [x Hx];
    [intros k0 x0 H0; destruct (Hsub k0 x0 H0) as (y0 & E & _); eauto
    | exact Hy |].
  exists x. split; [apply In_lookup; assumption|].
  destruct (Hsub key x Hx) as (y' & Ey & E).
  rewrite (In_lookup d2 key y N2 Hy) in Ey. injection Ey as <-.
  apply (Hflip key x y Hx Hy E).
Qed.

(** **** [==] and [<] are consistent on orderly values *)

Lemma compare_values_refl :
  forall a, orderly a = true -> compare_values a a = Some Eq.
Proof.
  induction a as [ | b0 | z | f | s | l IHl | d IHd] using value_nested_ind;
    intro Ho.
  - reflexivity.
  - rewrite (compare_values_num (VBool b0) _ _ eq_refl). cbn [num_of].
    rewrite fl_compare_refl; reflexivity.
  - rewrite (compare_values_num (VInt z) _ _ eq_refl). cbn [num_of].
    rewrite fl_compare_refl; reflexivity.
  - rewrite (compare_values_num (VFloat f) _ _ eq_refl). cbn [num_of].
    rewrite fl_compare_refl; [reflexivity|].
    apply (orderly_num _ _ Ho eq_refl).
  - rewrite compare_values_str, str_compare_refl. reflexivity.
  - rewrite compare_values_lists. apply lex_compare_refl.
    rewrite Forall_forall in *. intros x Hx. apply (IHl x Hx).
    apply (proj1 (orderly_list l) Ho x Hx).
  - apply orderly_dict in Ho as [Hn Ho].
    apply compare_values_Eq, dict_eqb_spec. split; [reflexivity|].
    intros key x Hin. exists x. split; [apply In_lookup; assumption|].
    apply compare_values_Eq. rewrite Forall_forall in IHd.
    apply (IHd (key, x) Hin). apply (Ho key x Hin).
Qed.

Lemma compare_values_sym :
  forall a b, orderly a = true -> orderly b = true ->
    compare_values b a = option_map CompOpp (compare_values a b).
Proof.
  induction a as [ | b0 | z | f | s | l IHl | d IHd] using value_nested_ind;
    intros b Ha Hb.
  - destruct b; reflexivity.
  - destruct b; try reflexivity;
      rewrite (compare_values_num _ _ _ (eq_refl : num_of (VBool b0) = Some _));
      erewrite compare_values_num by reflexivity; cbn [num_of option_map];
      f_equal; apply fl_compare_sym; try reflexivity;
      apply (orderly_num _ _ Hb eq_refl).
  - destruct b; try reflexivity;
      rewrite (compare_values_num _ _ _ (eq_refl : num_of (VInt z) = Some _));
      erewrite compare_values_num by reflexivity; cbn [num_of option_map];
      f_equal; apply fl_compare_sym; try reflexivity;
      apply (orderly_num _ _ Hb eq_refl).
  - pose proof (orderly_num _ _ Ha eq_refl) as Hf.
    destruct b; try reflexivity;
      rewrite (compare_values_num _ _ _ (eq_refl : num_of (VFloat f) = Some _));
      erewrite compare_values_num by reflexivity; cbn [num_of option_map];
      f_equal; apply fl_compare_sym; try reflexivity; try exact Hf;
      apply (orderly_num _ _ Hb eq_refl).
  - destruct b; try reflexivity. rewrite !compare_values_str. cbn [option_map].
    f_equal. apply str_compare_sym.
  - destruct b as [ | | | | | l2 | ]; try reflexivity.
    rewrite !compare_values_lists.
    apply (lex_compare_sym compare_values (fun v => orderly v = true)).
    + rewrite Forall_forall in *. intros x Hx y Hy.
      apply (IHl x Hx y); [apply (proj1 (orderly_list l) Ha x Hx) | exact Hy].
    + apply Forall_forall. apply (proj1 (orderly_list l2) Hb).
  - destruct b as [ | | | | | | d2]; try reflexivity.
    rewrite !compare_values_dict.
    apply orderly_dict in Ha as [N1 O1], Hb as [N2 O2].
    rewrite Forall_forall in IHd.
    assert (E : value_eqb (VDict d2) (VDict d) = value_eqb (VDict d) (VDict d2)).
    { destruct (value_eqb (VDict d) (VDict d2)) eqn:E1.
      - apply (dict_eqb_flip d d2 N1 N2); [|exact E1].
        intros key x y Hx Hy E. apply compare_values_Eq.
        pose proof (IHd (key, x) Hx y (O1 _ _ Hx) (O2 _ _ Hy)) as S.
        cbn [snd] in S. rewrite S.
        apply compare_values_Eq in E. rewrite E. reflexivity.
      - destruct (value_eqb (VDict d2) (VDict d)) eqn:E2; [|reflexivity].
        rewrite <- E1. symmetry.
        apply (dict_eqb_flip d2 d N2 N1); [|exact E2].
        intros key y x Hy Hx E. apply compare_values_Eq.
        apply compare_values_Eq in E.
        pose proof (IHd (key, x) Hx y (O1 _ _ Hx) (O2 _ _ Hy)) as S.
        cbn [snd] in S. rewrite S in E.
        destruct (compare_values x y) as [[ | | ]|]; cbn in E;
          try discriminate E; reflexivity. }
    rewrite E. destruct (value_eqb (VDict d) (VDict d2)); reflexivity.
Qed.

Lemma compare_numbers_trans (a b c : value) (p : pyfloat) (r1 r2 r : comparison) :
  num_of a = Some p ->
  orderly a = true -> orderly b = true -> orderly c = true ->
  compare_values a b = Some r1 -> compare_values b c = Some r2 ->
  comp_chain r1 r2 = Some r -> compare_values a c = Some r.
Proof.
  intros Na Ha Hb Hc H1 H2 C.
  rewrite (compare_values_num _ _ _ Na) in H1.
  destruct (num_of b) as [q|] eqn:Nb; [|discriminate H1]. injection H1 as <-.
  rewrite (compare_values_num _ _ _ Nb) in H2.
  destruct (num_of c) as [s|] eqn:Nc; [|discriminate H2]. injection H2 as <-.
  rewrite (compare_values_num _ _ _ Na), Nc. f_equal.
  apply (fl_compare_trans p q s r); try exact C;
    [apply (orderly_num _ _ Ha Na) | apply (orderly_num _ _ Hb Nb)
    | apply (orderly_num _ _ Hc Nc)].
Qed.

Lemma compare_values_trans :
  forall a, orderly a = true ->
  forall b c r1 r2 r, orderly b = true -> orderly c = true ->
    compare_values a b = Some r1 -> compare_values b c = Some r2 ->
    comp_chain r1 r2 = Some r -> compare_values a c = Some r.
Proof.
  induction a as [ | b0 | z | f | s | l IHl | d IHd] using value_nested_ind;
    intros Ha b c r1 r2 r Hb Hc H1 H2 C.
  - rewrite compare_values_none in H1. destruct b; try discriminate H1.
    injection H1 as <-. apply comp_chain_Eq_l in C. subst r. exact H2.
  - apply (compare_numbers_trans (VBool b0) b c _ r1 r2 r eq_refl); assumption.
  - apply (compare_numbers_trans (VInt z) b c _ r1 r2 r eq_refl); assumption.
  - apply (compare_numbers_trans (VFloat f) b c _ r1 r2 r eq_refl); assumption.
  - rewrite compare_values_str in H1. destruct b; try discriminate H1.
    injection H1 as <-.
    rewrite compare_values_str in H2. destruct c; try discriminate H2.
    injection H2 as <-.
    rewrite compare_values_str. f_equal. apply (str_compare_trans _ _ _ _ C).
  - rewrite compare_values_list in H1. destruct b as [ | | | | | l2 | ];
      try discriminate H1.
    rewrite compare_values_list in H2. destruct c as [ | | | | | l3 | ];
      try discriminate H2.
    rewrite compare_values_lists.
    apply (lex_compare_trans compare_values (fun v => orderly v = true) l)
      with (l2 := l2) (r1 := r1) (r2 := r2); try assumption.
    + rewrite Forall_forall in *. intros x Hx y0 z0 s1 s2 s0 Hy Hz.
      apply (IHl x Hx (proj1 (orderly_list l) Ha x Hx)); assumption.
    + apply Forall_forall. apply (proj1 (orderly_list l2) Hb).
    + apply Forall_forall. apply (proj1 (orderly_list l3) Hc).
  - rewrite compare_values_dict in H1. destruct b as [ | | | | | | d2];
      try discriminate H1.
    destruct (value_eqb (VDict d) (VDict d2)) eqn:E1; [|discriminate H1].
    injection H1 as <-.
    rewrite compare_values_dict in H2. destruct c as [ | | | | | | d3];
      try discriminate H2.
    destruct (value_eqb (VDict d2) (VDict d3)) eqn:E2; [|discriminate H2].
    injection H2 as <-. cbn in C. injection C as <-.
    apply compare_values_Eq, dict_eqb_spec.
    apply dict_eqb_spec in E1 as [L1 S1], E2 as [L2 S2].
    split; [congruence|]. intros key x Hx.
    destruct (S1 key x Hx) as (y & Ly & Exy).
    destruct (S2 key y (lookup_In _ _ _ Ly)) as (z0 & Lz & Eyz).
    exists z0. split; [exact Lz|].
    apply orderly_dict in Ha as [_ O1], Hb as [_ O2], Hc as [_ O3].
    rewrite Forall_forall in IHd. apply compare_values_Eq.
    apply (IHd (key, x) Hx (O1 _ _ Hx) y z0 Eq Eq Eq);
      [apply (O2 key), lookup_In, Ly | apply (O3 key), lookup_In, Lz
      | apply compare_values_Eq, Exy | apply compare_values_Eq, Eyz | reflexivity].
Qed.

(** *** The key tuples *)

(** A key tuple compares as the sequence of its two components. *)
Lemma key_compare_unfold (k1 k2 : sort_key_t) :
  compare_values (key_value k1) (key_value k2)
  = if fl_eqb (fst k1) (fst k2) then
      if value_eqb (snd k1) (snd k2) then Some Eq
      else match value_lt (snd k1) (snd k2) with
           | inr true => Some Lt
           | inr false => Some Gt
           | inl _ => None
           end
    else if fl_ltb (fst k1) (fst k2) then Some Lt else Some Gt.
Proof.
  unfold key_value. rewrite compare_values_lists. cbn [lex_compare].
  rewrite (compare_values_num (VFloat (fst k1)) _ _ eq_refl). cbn [num_of].
  unfold fl_compare.
  destruct (fl_eqb (fst k1) (fst k2)); [|destruct (fl_ltb _ _); reflexivity].
  unfold compare_values.
  destruct (value_eqb (snd k1) (snd k2)); [reflexivity|].
  destruct (value_lt (snd k1) (snd k2)) as [e | []]; reflexivity.
Qed.

Lemma key_eqb_compare (k1 k2 : sort_key_t) :
  key_eqb k1 k2 = true <-> compare_values (key_value k1) (key_value k2) = Some Eq.
Proof.
  rewrite key_compare_unfold. unfold key_eqb.
  destruct (fl_eqb (fst k1) (fst k2)); cbn [andb].
  - destruct (value_eqb (snd k1) (snd k2)); [tauto|].
    split; [discriminate|].
    destruct (value_lt (snd k1) (snd k2)) as [e | []]; discriminate.
  - split; [discriminate|]. destruct (fl_ltb _ _); discriminate.
Qed.

Lemma key_lt_true_compare (k1 k2 : sort_key_t) :
  key_lt k1 k2 = ok true <-> compare_values (key_value k1) (key_value k2) = Some Lt.
Proof.
  rewrite key_compare_unfold. unfold key_lt, ok.
  destruct (fl_eqb (fst k1) (fst k2)).
  - destruct (value_eqb (snd k1) (snd k2)); [split; discriminate|].
    destruct (value_lt (snd k1) (snd k2)) as [e | []];
      split; try discriminate; reflexivity.
  - destruct (fl_ltb _ _); split; try discriminate; reflexivity.
Qed.

Lemma key_lt_false_compare (k1 k2 : sort_key_t) :
  key_lt k1 k2 = ok false <->
  compare_values (key_value k1) (key_value k2) = Some Eq
  \/ compare_values (key_value k1) (key_value k2) = Some Gt.
Proof.
  rewrite key_compare_unfold. unfold key_lt, ok.
  destruct (fl_eqb (fst k1) (fst k2)).
  - destruct (value_eqb (snd k1) (snd k2)); [tauto|].
    destruct (value_lt (snd k1) (snd k2)) as [e | []];
      split; try discriminate; try tauto; intros [H | H]; discriminate H.
  - destruct (fl_ltb _ _); split; try discriminate; try tauto;
      intros [H | H]; discriminate H.
Qed.

Lemma orderly_key_value (p : product_info) :
  orderly_key p = true -> orderly (key_value (sort_key p)) = true.
Proof.
  unfold orderly_key, key_value, sort_key. cbn [orderly forallb fst snd].
  intro H. rewrite andb_true_r. exact H.
Qed.

Section OrderlyKeys.

Variables x y z : sort_key_t.
Hypothesis Hx : orderly (key_value x) = true.
Hypothesis Hy : orderly (key_value y) = true.
Hypothesis Hz : orderly (key_value z) = true.

Lemma key_eqb_refl : key_eqb x x = true.
Proof. apply key_eqb_compare, compare_values_refl, Hx. Qed.

Lemma key_eqb_true_sym : key_eqb x y = true -> key_eqb y x = true.
Proof.
  rewrite !key_eqb_compare. intro H.
  rewrite (compare_values_sym _ _ Hx Hy), H. reflexivity.
Qed.

Lemma key_eqb_trans : key_eqb x y = true -> key_eqb y z = true -> key_eqb x z = true.
Proof.
  rewrite !key_eqb_compare. intros H1 H2.
  apply (compare_values_trans _ Hx _ _ Eq Eq Eq Hy Hz H1 H2 eq_refl).
Qed.

Lemma key_lt_asym : key_lt y x = ok true -> key_lt x y = ok false.
Proof.
  rewrite key_lt_true_compare, key_lt_false_compare. intro H. right.
  rewrite (compare_values_sym _ _ Hy Hx), H. reflexivity.
Qed.

(** [y < x] and [z <= y] give [z <= x]: the new element may stand in
    front of everything the first smaller element stands in front of. *)
Lemma key_lt_chain :
  key_lt y x = ok true -> key_lt y z = ok false -> key_lt x z = ok false.
Proof.
  rewrite key_lt_true_compare, !key_lt_false_compare. intros H1 H2. right.
  assert (Hzy : exists r, compare_values (key_value z) (key_value y) = Some r
                          /\ comp_chain r Lt = Some Lt).
  { rewrite (compare_values_sym _ _ Hy Hz).
    destruct H2 as [-> | ->]; eexists; split; reflexivity. }
  destruct Hzy as (r & Hzy & C).
  pose proof (compare_values_trans _ Hz _ _ r Lt Lt Hy Hx Hzy H1 C) as Hzx.
  rewrite (compare_values_sym _ _ Hz Hx), Hzx. reflexivity.
Qed.

(** A key equal to [x] is above whatever [x] is above. *)
Lemma key_lt_eq_r : key_lt y x = ok true -> key_eqb z x = true -> key_lt y z = ok true.
Proof.
  rewrite !key_lt_true_compare, key_eqb_compare. intros H1 H2.
  assert (Hxz : compare_values (key_value x) (key_value z) = Some Eq)
    by (rewrite (compare_values_sym _ _ Hz Hx), H2; reflexivity).
  apply (compare_values_trans _ Hy _ _ Lt Eq Lt Hx Hz H1 Hxz eq_refl).
Qed.

(** Two keys none of which is smaller than the other are equal. *)
Lemma key_lt_antisym :
  key_lt x y = ok false -> key_lt y x = ok false -> key_eqb x y = true.
Proof.
  rewrite !key_lt_false_compare, key_eqb_compare.
  rewrite (compare_values_sym _ _ Hx Hy).
  intros [H | H] [F | F]; rewrite H in F; cbn in F; try discriminate F; exact H.
Qed.

(** None smaller than the next, neither is the first smaller than the
    last. *)
Lemma key_lt_false_trans :
  key_lt x y = ok false -> key_lt y z = ok false -> key_lt x z = ok false.
Proof.
  rewrite !key_lt_false_compare. intros H1 H2.
  assert (C : exists r1 r2 r,
             compare_values (key_value x) (key_value y) = Some r1
             /\ compare_values (key_value y) (key_value z) = Some r2
             /\ comp_chain r1 r2 = Some r /\ (r = Eq \/ r = Gt)).
  { destruct H1 as [-> | ->], H2 as [-> | ->]; do 3 eexists;
      (split; [reflexivity|]); (split; [reflexivity|]);
      (split; [reflexivity|]); auto. }
  destruct C as (r1 & r2 & r & E1 & E2 & C & Hr).
  rewrite (compare_values_trans _ Hx _ _ r1 r2 r Hy Hz E1 E2 C).
  destruct Hr as [-> | ->]; auto.
Qed.

(** Where no key is NaN, "not smaller" is "greater or equal". *)
Lemma key_lt_false_ge :
  key_lt x y = ok false <-> key_eqb x y = true \/ key_lt y x = ok true.
Proof.
  rewrite key_lt_false_compare, key_eqb_compare, key_lt_true_compare.
  rewrite (compare_values_sym _ _ Hx Hy).
  destruct (compare_values (key_value x) (key_value y)) as [[ | | ]|]; cbn;
    split; intros [H | H]; try discriminate H; auto.
Qed.

End OrderlyKeys.

(** *** The sort *)

Lemma StronglySorted_app {A} (R : A -> A -> Prop) (l1 l2 : list A) :
  StronglySorted R (l1 ++ l2) <->
  StronglySorted R l1 /\ StronglySorted R l2
  /\ (forall a b, In a l1 -> In b l2 -> R a b).
Proof.
  induction l1 as [|x l1 IH]; simpl.
  - split; [intro H; repeat split; [constructor | exact H | intros a b []] | tauto].
  - split.
    + intro H. apply StronglySorted_inv in H as [Hs Hf].
      apply IH in Hs as (H1 & H2 & H12). rewrite Forall_app in Hf.
      destruct Hf as [Hf1 Hf2]. rewrite Forall_forall in Hf2.
      repeat split; [constructor; assumption | exact H2 |].
      intros a b [<- | Ha] Hb; [apply Hf2; exact Hb | apply H12; assumption].
    + intros (H1 & H2 & H12). apply StronglySorted_inv in H1 as [Hs Hf].
      constructor.
      * apply IH. repeat split; [exact Hs | exact H2 |].
        intros a b Ha Hb. apply H12; [right; exact Ha | exact Hb].
      * rewrite Forall_app. split; [exact Hf|]. apply Forall_forall.
        intros b Hb. apply H12; [left; reflexivity | exact Hb].
Qed.

Lemma filter_none {A} (f : A -> bool) (l : list A) :
  (forall z, In z l -> f z = false) -> filter f l = [].
Proof.
  induction l as [|y l IH]; intro H; simpl; [reflexivity|].
  rewrite (H y) by (left; reflexivity).
  apply IH. intros z Hz. apply H. right. exact Hz.
Qed.

(** Behind the place of insertion every key is smaller than the new
    one. *)
Lemma behind_insertion (x y : product_info) (l : list product_info) :
  orderly_key x = true -> Forall (fun p => orderly_key p = true) (y :: l) ->
  StronglySorted not_below (y :: l) ->
  key_lt (sort_key y) (sort_key x) = ok true ->
  Forall (fun z => not_below x z /\ key_eqb (sort_key z) (sort_key x) = false)
         (y :: l).
Proof.
  intros Ox Ol Hs Hy. apply StronglySorted_inv in Hs as [_ Hf].
  apply orderly_key_value in Ox.
  apply Forall_cons_iff in Ol as [Oy Ol]. apply orderly_key_value in Oy.
  assert (Hz : forall z, orderly_key z = true ->
                 key_lt (sort_key y) (sort_key z) <> ok true ->
                 key_eqb (sort_key z) (sort_key x) = false).
  { intros z Oz N. apply orderly_key_value in Oz.
    destruct (key_eqb (sort_key z) (sort_key x)) eqn:E; [|reflexivity].
    exfalso. apply N. apply (key_lt_eq_r _ _ _ Ox Oy Oz Hy E). }
  constructor.
  - split; [apply (key_lt_asym _ _ Ox Oy Hy)|].
    destruct (key_eqb (sort_key y) (sort_key x)) eqn:E; [|reflexivity].
    pose proof (key_lt_eq_r _ _ _ Ox Oy Oy Hy E) as F.
    pose proof (key_lt_asym _ _ Oy Oy F) as G. rewrite F in G. discriminate G.
  - rewrite Forall_forall in *. intros z Hin. specialize (Hf z Hin).
    pose proof (Ol z Hin) as Oz. split.
    + apply orderly_key_value in Oz. apply (key_lt_chain _ _ _ Ox Oy Oz Hy Hf).
    + apply (Hz z Oz). unfold not_below in Hf. rewrite Hf. discriminate.
Qed.

Lemma insert_desc_orderly (x : product_info) (acc out : list product_info) :
  orderly_key x = true -> Forall (fun p => orderly_key p = true) acc ->
  insert_desc x acc = ok out -> Forall (fun p => orderly_key p = true) out.
Proof.
  intros Ox Oa H. destruct (insert_desc_split _ _ _ H) as (l1 & l2 & -> & -> & _).
  apply Forall_app in Oa as [O1 O2]. apply Forall_app. split; [exact O1|].
  constructor; assumption.
Qed.

Lemma insert_desc_sorted (x : product_info) (acc out : list product_info) :
  orderly_key x = true -> Forall (fun p => orderly_key p = true) acc ->
  StronglySorted not_below acc -> insert_desc x acc = ok out ->
  StronglySorted not_below out.
Proof.
  intros Ox Oa Hs H.
  destruct (insert_desc_split _ _ _ H) as (l1 & l2 & -> & -> & H1 & H2).
  apply Forall_app in Oa as [_ O2].
  apply StronglySorted_app in Hs as (S1 & S2 & S12).
  apply StronglySorted_app. split; [exact S1|].
  assert (Hx : Forall (not_below x) l2).
  { destruct l2 as [|y l2]; [constructor|].
    apply (Forall_impl _ (fun z H => proj1 H) (behind_insertion _ _ _ Ox O2 S2 H2)). }
  split; [constructor; assumption|].
  intros a b Ha [<- | Hb].
  - rewrite Forall_forall in H1. apply H1. exact Ha.
  - apply S12; assumption.
Qed.

Lemma insert_desc_stable (x : product_info) (acc out : list product_info)
    (key : sort_key_t) :
  orderly_key x = true -> Forall (fun p => orderly_key p = true) acc ->
  orderly (key_value key) = true ->
  StronglySorted not_below acc -> insert_desc x acc = ok out ->
  filter (same_key key) out = filter (same_key key) (acc ++ [x]).
Proof.
  intros Ox Oa Ok Hs H.
  destruct (insert_desc_split _ _ _ H) as (l1 & l2 & -> & -> & H1 & H2).
  apply Forall_app in Oa as [_ O2].
  apply StronglySorted_app in Hs as (_ & S2 & _).
  rewrite <- app_assoc, !filter_app. f_equal. simpl.
  destruct (same_key key x) eqn:Ex; [|rewrite app_nil_r; reflexivity].
  assert (E2 : filter (same_key key) l2 = []).
  { destruct l2 as [|y l2]; [reflexivity|].
    pose proof (behind_insertion _ _ _ Ox O2 S2 H2) as Hb.
    apply filter_none. rewrite Forall_forall in Hb, O2.
    intros z Hz. destruct (Hb z Hz) as [_ N].
    destruct (same_key key z) eqn:Ez; [|reflexivity].
    unfold same_key in *.
    pose proof (orderly_key_value _ Ox) as Kx.
    pose proof (orderly_key_value _ (O2 z Hz)) as Kz.
    apply (key_eqb_true_sym _ _ Kx Ok) in Ex.
    rewrite (key_eqb_trans _ _ _ Kz Ok Kx Ez Ex) in N. discriminate N. }
  rewrite E2. reflexivity.
Qed.

Lemma sort_into_sorted_stable (l acc out : list product_info) :
  Forall (fun p => orderly_key p = true) (acc ++ l) ->
  StronglySorted not_below acc -> sort_into acc l = ok out ->
  StronglySorted not_below out
  /\ forall key, orderly (key_value key) = true ->
       filter (same_key key) out = filter (same_key key) (acc ++ l).
Proof.
  revert acc; induction l as [|x l IH]; intros acc Ho Hs H; simpl in H.
  - injection H as <-. rewrite app_nil_r. auto.
  - apply rbind_ok in H as [acc' [Ei H]].
    assert (Oa : Forall (fun p => orderly_key p = true) acc)
      by (apply Forall_app in Ho as [Oa _]; exact Oa).
    assert (Ox : orderly_key x = true).
    { apply Forall_app in Ho as [_ Ol]. apply Forall_cons_iff in Ol as [Ox _].
      exact Ox. }
    assert (Ho' : Forall (fun p => orderly_key p = true) (acc' ++ l)).
    { apply Forall_app. split; [apply (insert_desc_orderly _ _ _ Ox Oa Ei)|].
      apply Forall_app in Ho as [_ Ol]. apply Forall_cons_iff in Ol as [_ Ol].
      exact Ol. }
    destruct (IH _ Ho' (insert_desc_sorted _ _ _ Ox Oa Hs Ei) H) as [Hout Hst].
    split; [exact Hout|]. intros key Ok.
    rewrite (Hst key Ok), filter_app, (insert_desc_stable _ _ _ key Ox Oa Ok Hs Ei),
      <- filter_app, <- app_assoc. reflexivity.
Qed.

(** A list in which the search for a run succeeds is in order. *)
Lemma one_run_sorted (r : list product_info) :
  Forall (fun p => orderly_key p = true) r ->
  one_run r = ok true ->
  StronglySorted (fun a b => not_below b a) r.
Proof.
  induction r as [|a r IH]; intros Ho H; [constructor|].
  apply Forall_cons_iff in Ho as [Oa Or].
  destruct r as [|b r]; [repeat constructor|].
  cbn [one_run] in H. apply rbind_ok in H as [smaller [E H]].
  destruct smaller; [discriminate H|].
  specialize (IH Or H). constructor; [exact IH|].
  apply StronglySorted_inv in IH as [_ Hb].
  constructor; [exact E|].
  rewrite Forall_forall in *. intros z Hz. unfold not_below in *.
  apply (key_lt_false_trans (sort_key z) (sort_key b) (sort_key a));
    try apply orderly_key_value; try assumption.
  - apply Or. right. exact Hz.
  - apply Or. left. reflexivity.
  - apply Hb. exact Hz.
Qed.

Lemma StronglySorted_rev {A} (R : A -> A -> Prop) (l : list A) :
  StronglySorted (fun a b => R b a) l -> StronglySorted R (rev l).
Proof.
  induction 1 as [|a l Hs IH Hf]; cbn [rev]; [constructor|].
  apply StronglySorted_app. split; [exact IH|]. split; [repeat constructor|].
  intros x y Hx [<- | []]. rewrite Forall_forall in Hf. apply Hf.
  apply in_rev. exact Hx.
Qed.

(** The built-in sort, as modelled, on keys without NaN: a permutation,
    largest key first, equal keys in their former order. *)
Lemma sort_by_rating_reviews_spec (l out : list product_info) :
  Forall (fun p => orderly_key p = true) l ->
  sort_by_rating_reviews l = ok out ->
  Permutation l out
  /\ StronglySorted not_below out
  /\ forall key, orderly (key_value key) = true ->
       filter (same_key key) out = filter (same_key key) l.
Proof.
  intros Ho H. split; [apply sort_Permutation; exact H|].
  apply sort_by_rating_reviews_cases in H as [[Hr ->] | [_ H]].
  - split; [|reflexivity].
    rewrite <- (rev_involutive l). apply StronglySorted_rev.
    apply one_run_sorted; [|exact Hr].
    apply Forall_forall. intros p Hp. rewrite Forall_forall in Ho.
    apply Ho. apply in_rev. exact Hp.
  - apply (sort_into_sorted_stable l [] out); [exact Ho | constructor | exact H].
Qed.

(** *** The sorted list is determined

    Whatever algorithm the built-in sort runs, a list that is a
    permutation of the input, sorted, with equal keys in their former
    order, is the list the model returns. *)

Lemma stable_sorted_unique (l1 : list product_info) :
  forall l2,
    Forall (fun p => orderly_key p = true) l1 ->
    Permutation l1 l2 ->
    StronglySorted not_below l1 -> StronglySorted not_below l2 ->
    (forall key, orderly (key_value key) = true ->
       filter (same_key key) l1 = filter (same_key key) l2) ->
    l1 = l2.
Proof.
  induction l1 as [|x l1 IH]; intros l2 Ho Hp S1 S2 Hf.
  - apply Permutation_nil in Hp. auto.
  - destruct l2 as [|y l2];
      [apply Permutation_sym, Permutation_nil in Hp; discriminate|].
    apply Forall_cons_iff in Ho as [Ox Ol].
    pose proof (orderly_key_value _ Ox) as Kx.
    assert (In1 : In y (x :: l1))
      by (apply (Permutation_in _ (Permutation_sym Hp)); left; reflexivity).
    assert (Oy : orderly_key y = true).
    { destruct In1 as [<- | H]; [exact Ox|].
      rewrite Forall_forall in Ol. apply Ol. exact H. }
    pose proof (orderly_key_value _ Oy) as Ky.
    assert (Exy : x = y).
    { pose proof (Hf (sort_key x) Kx) as Hx. simpl in Hx.
      unfold same_key at 1 in Hx. rewrite (key_eqb_refl _ Kx) in Hx.
      destruct (same_key (sort_key x) y) eqn:Ey; [congruence|].
      exfalso.
      assert (In2 : In x l2) by
        (apply (filter_In (same_key (sort_key x)) x l2); rewrite <- Hx; left; reflexivity).
      assert (In1' : In y l1).
      { destruct In1 as [<- | H]; [|exact H].
        unfold same_key in Ey. rewrite (key_eqb_refl _ Kx) in Ey. discriminate. }
      apply StronglySorted_inv in S1 as [_ F1], S2 as [_ F2].
      rewrite Forall_forall in F1, F2.
      pose proof (key_lt_antisym _ _ Ky Kx (F2 x In2) (F1 y In1')) as E.
      unfold same_key in Ey. rewrite E in Ey. discriminate. }
    subst y. f_equal. apply IH.
    + exact Ol.
    + apply (Permutation_cons_inv Hp).
    + apply StronglySorted_inv in S1 as [S1 _]. exact S1.
    + apply StronglySorted_inv in S2 as [S2 _]. exact S2.
    + intros key Ok. specialize (Hf key Ok). simpl in Hf.
      destruct (same_key key x); [injection Hf as Hf|]; exact Hf.
Qed.

Lemma sort_by_rating_reviews_unique (l out out' : list product_info) :
  Forall (fun p => orderly_key p = true) l ->
  sort_by_rating_reviews l = ok out ->
  Permutation l out' -> StronglySorted not_below out' ->
  (forall key, orderly (key_value key) = true ->
     filter (same_key key) out' = filter (same_key key) l) ->
  out' = out.
Proof.
  intros Ho H Hp' Hs' Hf'.
  apply (sort_by_rating_reviews_spec _ _ Ho) in H as (Hp & Hs & Hf).
  apply stable_sorted_unique; [| | assumption | assumption |].
  - apply Forall_forall. intros p Hin. rewrite Forall_forall in Ho. apply Ho.
    apply (Permutation_in _ (Permutation_sym Hp') Hin).
  - apply (Permutation_trans (Permutation_sym Hp') Hp).
  - intros key Ok. rewrite (Hf key Ok), (Hf' key Ok). reflexivity.
Qed.

(** *** What the order means *)

(** On keys without NaN, a product that is not below another is ranked
    before it: its key is greater or equal. *)
Lemma not_below_ranked (a b : product_info) :
  orderly_key a = true -> orderly_key b = true ->
  (not_below a b <-> ranked_before a b).
Proof.
  intros Oa Ob. unfold not_below, ranked_before.
  apply key_lt_false_ge; apply orderly_key_value; assumption.
Qed.

(** With numbers as ratings and integer review counts the order is the
    lexicographic one on (rating, review count). *)
Lemma not_below_int_reviews (a b : product_info) (p q : Q) (n m : Z) :
  rating a = Fin p -> rating b = Fin q ->
  reviews a = VInt n -> reviews b = VInt m ->
  (not_below a b <-> (q < p)%Q \/ ((p == q)%Q /\ (m <= n)%Z)).
Proof.
  intros Ra Rb Ha Hb. unfold not_below. rewrite key_lt_false_compare.
  rewrite key_compare_unfold. cbn [sort_key fst snd]. rewrite Ra, Rb, Ha, Hb.
  cbn [fl_eqb fl_ltb value_eqb value_lt num_of ok].
  assert (E : forall u v : Z, (inject_Z u <= inject_Z v)%Q <-> (u <= v)%Z)
    by (intros u v; rewrite <- Zle_Qle; tauto).
  assert (Q0 : (inject_Z n == inject_Z m)%Q <-> n = m)
    by (rewrite inject_Z_injective; tauto).
  destruct (Qeq_bool p q) eqn:Epq.
  - apply Qeq_bool_iff in Epq.
    destruct (Qeq_bool (inject_Z n) (inject_Z m)) eqn:Enm.
    + apply Qeq_bool_iff, Q0 in Enm. split; [|auto].
      intros _. right. split; [exact Epq | lia].
    + apply Qeqb_false in Enm.
      destruct (Qltb (inject_Z n) (inject_Z m)) eqn:L.
      * apply Qltb_lt in L. split; [intros [H | H]; discriminate H|].
        intros [H | [_ H]]; [lra|]. apply (proj2 (E m n)) in H. lra.
      * apply Qltb_ge in L. apply (proj1 (E m n)) in L.
        split; [|auto]. intros _. right. split; [exact Epq | exact L].
  - apply Qeqb_false in Epq. destruct (Qltb p q) eqn:L.
    + apply Qltb_lt in L. split; [intros [H | H]; discriminate H|].
      intros [H | [H _]]; [lra | contradiction].
    + apply Qltb_ge in L. split; [|auto]. intros _. left. lra.
Qed.

End RankingFacts.



(** ** Ranked results *)

Section RankedResults.

Context {env : Env}.

Lemma StronglySorted_among {A} (P : A -> Prop) (R R' : A -> A -> Prop)
    (l : list A) :
  (forall a b, P a -> P b -> R a b -> R' a b) ->
  Forall P l -> StronglySorted R l -> StronglySorted R' l.
Proof.
  intros HR Hp Hs. induction Hs as [|a l Hs IH Hf]; [constructor|].
  apply Forall_cons_iff in Hp as [Pa Pl]. constructor; [apply IH; exact Pl|].
  rewrite Forall_forall in *. intros b Hb. apply HR; auto.
Qed.

(** C2 (amended): a successful call whose products carry no NaN, neither
    as rating nor in the review count, returns the products the loop
    collected in non-increasing order of the key (rating, review count)
    as Python compares the tuples: the key of a product is greater than
    or equal to the key of every product behind it. Products with equal
    keys are in the provider's order. *)
Theorem search_amazon_products_ranked (query : str) (max_results : Z)
    (min_rating : Q) (w : World) :
  let res := fst (search_amazon_products query max_results min_rating w) in
  success res = true ->
  Forall (fun p => orderly_key p = true) (products res) ->
  exists key w1 results organic_results collected,
    get_serpapi_key w = (ok key, w1)
    /\ fst (google_search (make_params query key) w1) = ok results
    /\ py_iter (dict_get results (lit "organic_results") (VList []))
       = ok organic_results
    /\ collect min_rating max_results organic_results [] = ok collected
    /\ Permutation collected (products res)
    /\ StronglySorted ranked_before (products res)
    /\ forall key, orderly (key_value key) = true ->
         filter (same_key key) (products res) = filter (same_key key) collected.
Proof.
  pose proof (search_amazon_products_cases query max_results min_rating w) as C.
  destruct (search_amazon_products query max_results min_rating w) as [res w'].
  simpl. intros Hs Ho.
  destruct C as [[e [_ ->]] | (key & w1 & results & Hk & Hg & Hr)]; [discriminate|].
  apply rank_results_ok in Hr as (_ & _ & _ & organic & collected & Hi & Hc & Hsort).
  assert (Oc : Forall (fun p => orderly_key p = true) collected).
  { apply Forall_forall. intros p Hp. rewrite Forall_forall in Ho. apply Ho.
    apply (Permutation_in _ (sort_Permutation _ _ Hsort) Hp). }
  apply (sort_by_rating_reviews_spec _ _ Oc) in Hsort as (Hp & Hsorted & Hstable).
  exists key, w1, results, organic, collected. rewrite Hg.
  repeat split; try assumption.
  apply (StronglySorted_among (fun p => orderly_key p = true) not_below);
    [|exact Ho | exact Hsorted].
  intros a b Oa Ob. apply (not_below_ranked a b Oa Ob).
Qed.

End RankedResults.

Lemma search_amazon_products_ranked_witness :
  let res := fst (search_amazon_products (env := Sim.sim_env) (lit "shoes") 15 3.5
                    (Sim.with_script [Sim.answer_of Sim.mixed_records])) in
  success res = true
  /\ map asin (products res)
     = map (fun s => VStr (lit s)) ["B0C"; "B0A"; "B0F"; "B0G"; "B0E"; "B0D"]%string
  /\ StronglySorted ranked_before (products res).
Proof.
  intro res.
  assert (Hs : success res = true) by reflexivity.
  assert (Ho : Forall (fun p => orderly_key p = true) (products res))
    by (apply Forall_forall, forallb_forall; reflexivity).
  split; [exact Hs|]. split; [reflexivity|].
  destruct (search_amazon_products_ranked (env := Sim.sim_env) (lit "shoes") 15 3.5
              (Sim.with_script [Sim.answer_of Sim.mixed_records]) Hs Ho)
    as (key & w1 & results & organic & collected & _ & _ & _ & _ & _ & Hsorted & _).
  exact Hsorted.
Defined.

(** C2, as stated, fails on the answer [Sim.nan_records]. The three
    records have the ratings 3.6, NaN and 5. No comparison with NaN is
    true, so that the sort finds the list to be one run and leaves it as
    it is: the call succeeds and returns the products in the provider's
    order, the product rated 3.6 in front of the product rated 5. *)
Lemma ranked_nan_counterexample :
  let res := fst (search_amazon_products (env := Sim.sim_env) (lit "shoes") 15 3.5
                    (Sim.with_script [Sim.answer_of Sim.nan_records])) in
  success res = true
  /\ map rating (products res) = [Fin 3.6; NaN; Fin 5]
  /\ ~ StronglySorted ranked_before (products res)
  /\ ~ StronglySorted not_below (products res).
Proof.
  intro res.
  split; [reflexivity|]. split; [reflexivity|].
  destruct (products res) as [|a [|b [|c l]]] eqn:E;
    try (vm_compute in E; discriminate E).
  assert (Ea : sort_key a = (Fin 3.6, VInt 10))
    by (vm_compute in E; injection E as <- _ _ _; reflexivity).
  assert (Ec : sort_key c = (Fin 5, VInt 10))
    by (vm_compute in E; injection E as _ _ <- _; reflexivity).
  split; intro H; apply StronglySorted_inv in H as [_ H];
    apply Forall_cons_iff in H as [_ H]; apply Forall_cons_iff in H as [H _].
  - unfold ranked_before in H. rewrite Ea, Ec in H.
    destruct H as [H | H]; vm_compute in H; discriminate H.
  - unfold not_below in H. rewrite Ea, Ec in H. vm_compute in H. discriminate H.
Qed.

(** ** Search orchestrator *)

Section OrchestratorFacts.

Context {env : Env}.

Lemma non_empty_nil {A} (l : list A) : non_empty l = false <-> l = [].
Proof. destruct l; simpl; split; intro H; try reflexivity; discriminate. Qed.

(** The loop returns the products of one search, or nothing. *)
Lemma try_attempts_products (attempts : list str) :
  forall (last_error : option str) (w : World) (p : product_info),
    In p (fst (fst (try_attempts attempts last_error w))) ->
    truthy (asin p) = true
    /\ exists raw, process_record default_min_rating raw = ok (Some p).
Proof.
  induction attempts as [|q rest IH]; intros last_error w p; simpl; [tauto|].
  pose proof (search_amazon_products_products q 12 default_min_rating w p) as Hq.
  destruct (search_amazon_products q 12 default_min_rating w) as [r w1].
  destruct (success r && non_empty (products r)); simpl.
  - intro Hin. apply Hq. exact Hin.
  - apply IH.
Qed.

(** When every attempt fails the loop runs them all and keeps the error
    of the last one. *)
Lemma try_attempts_all_fail (attempts : list str) :
  forall (last_error : option str) (w : World),
    all_fail 12 attempts w = true ->
    try_attempts attempts last_error w
    = (([], match last_recorded_error 12 attempts w with
            | Some e => Some e
            | None => last_error
            end),
       snd (run_searches 12 attempts w)).
Proof.
  unfold all_fail, last_recorded_error.
  induction attempts as [|q rest IH]; intros last_error w; simpl; [reflexivity|].
  destruct (search_amazon_products q 12 default_min_rating w) as [r w1].
  specialize (IH (Some (error_or_default r)) w1).
  destruct (run_searches 12 rest w1) as [rs w2]. simpl in *.
  intro H. apply andb_true_iff in H as [Hr Hrs].
  unfold yields_products in Hr. apply negb_true_iff in Hr.
  fold (non_empty (products r)) in Hr. rewrite Hr. rewrite (IH Hrs).
  f_equal. f_equal.
  destruct (rev rs) as [|r' l]; simpl; reflexivity.
Qed.

(** The loop ends at the first attempt that yields products. *)
Lemma try_attempts_first_success (pre post : list str) (q : str) :
  forall (last_error : option str) (w : World),
    all_fail 12 pre w = true ->
    yields_products
      (fst (search_amazon_products q 12 default_min_rating
              (snd (run_searches 12 pre w)))) = true ->
    let '(r, w') := search_amazon_products q 12 default_min_rating
                      (snd (run_searches 12 pre w)) in
    exists le, try_attempts (pre ++ q :: post) last_error w = ((products r, le), w').
Proof.
  unfold all_fail.
  induction pre as [|q0 pre IH]; intros last_error w; simpl.
  - intros _. destruct (search_amazon_products q 12 default_min_rating w) as [r w1].
    simpl. unfold yields_products. fold (non_empty (products r)).
    intros ->. exists last_error. reflexivity.
  - destruct (search_amazon_products q0 12 default_min_rating w) as [r0 w1].
    specialize (IH (Some (error_or_default r0)) w1).
    destruct (run_searches 12 pre w1) as [rs w2]. simpl in *.
    intro H. apply andb_true_iff in H as [Hr Hrs].
    unfold yields_products in Hr. apply negb_true_iff in Hr.
    fold (non_empty (products r0)) in Hr. rewrite Hr.
    intro Hy. apply (IH Hrs Hy).
Qed.

Lemma last_recorded_error_some (q : str) (rest : list str) (w : World) :
  exists e, last_recorded_error 12 (q :: rest) w = Some e.
Proof.
  unfold last_recorded_error. simpl.
  destruct (search_amazon_products q 12 default_min_rating w) as [r w1].
  destruct (run_searches 12 rest w1) as [rs w2]. simpl.
  destruct (rev rs ++ [r]) as [|r' l] eqn:E.
  - destruct (rev rs); discriminate E.
  - eexists. reflexivity.
Qed.

Lemma no_products_answer_contains (question e : str) :
  contains e (no_products_answer question (Some e)) = true.
Proof.
  unfold no_products_answer. simpl str_of_option.
  rewrite !app_assoc. apply contains_suffix.
Qed.

(** The variants, by the words of the question. *)
Lemma search_attempts_shape (question : str) :
  let opt := optimize_search_query question in
  let quality :=
    exists word, In word [lit "best"; lit "top"; lit "good"; lit "recommend"]
                 /\ contains word (lower question) = true in
  let budget :=
    contains (lit "cheap") (lower question) = true
    \/ contains (lit "budget") (lower question) = true in
  (quality -> budget ->
   search_attempts question
   = [question; opt; lit "best rated " ++ opt; lit "budget " ++ opt])
  /\ (quality -> ~ budget ->
      search_attempts question = [question; opt; lit "best rated " ++ opt])
  /\ (~ quality -> budget ->
      search_attempts question = [question; opt; lit "budget " ++ opt])
  /\ (~ quality -> ~ budget -> search_attempts question = [question; opt]).
Proof.
  intros opt quality budget.
  assert (Hq : any (fun word => contains word (lower question)) quality_words = true
               <-> quality).
  { unfold any, quality. rewrite existsb_exists. reflexivity. }
  assert (Hb : contains (lit "cheap") (lower question)
               || contains (lit "budget") (lower question) = true <-> budget).
  { unfold budget. apply orb_true_iff. }
  unfold search_attempts. fold opt.
  destruct (any (fun word => contains word (lower question)) quality_words);
    destruct (contains (lit "cheap") (lower question)
              || contains (lit "budget") (lower question));
    repeat split; intros Q B; try reflexivity; exfalso;
    try (apply Q, Hq; reflexivity); try (apply B, Hb; reflexivity);
    try (apply Hq in Q; discriminate Q); try (apply Hb in B; discriminate B).
Qed.

(** C4: the variants are tried in order: the question as it is, the
    normalised question, then the quality variant (the normalised
    question after the words best rated) when the lower-cased question
    holds one of best, top, good and recommend, then the budget variant
    (the normalised question after the word budget) when it holds cheap
    or budget. When every variant fails or yields no product, the lists
    of identifiers and of products are empty and the answer ends with
    the error recorded last. Otherwise the search ends with the first
    variant that yields a product: no later variant is searched, and the
    products returned are the products of that variant (or none, when
    writing the summary raised). *)
Theorem search_products_fallback (user_id question : str) (w : World) :
  let attempts := search_attempts question in
  let res := fst (search_products user_id question w) in
  let opt := optimize_search_query question in
  let quality :=
    exists word, In word [lit "best"; lit "top"; lit "good"; lit "recommend"]
                 /\ contains word (lower question) = true in
  let budget :=
    contains (lit "cheap") (lower question) = true
    \/ contains (lit "budget") (lower question) = true in
  ((quality -> budget ->
    attempts = [question; opt; lit "best rated " ++ opt; lit "budget " ++ opt])
   /\ (quality -> ~ budget ->
       attempts = [question; opt; lit "best rated " ++ opt])
   /\ (~ quality -> budget ->
       attempts = [question; opt; lit "budget " ++ opt])
   /\ (~ quality -> ~ budget -> attempts = [question; opt]))
  /\ (all_fail 12 attempts w = true ->
      sp_asins res = [] /\ sp_products res = []
      /\ snd (search_products user_id question w) = snd (run_searches 12 attempts w)
      /\ exists e, last_recorded_error 12 attempts w = Some e
                   /\ sp_answer res = no_products_answer question (Some e)
                   /\ contains e (sp_answer res) = true)
  /\ (forall pre q post,
        attempts = pre ++ q :: post ->
        all_fail 12 pre w = true ->
        let w1 := snd (run_searches 12 pre w) in
        let r := search_amazon_products q 12 default_min_rating w1 in
        yields_products (fst r) = true ->
        snd (search_products user_id question w) = snd r
        /\ (sp_products res = products (fst r) \/ sp_products res = [])).
Proof.
  intros attempts res opt quality budget.
  split; [apply search_attempts_shape|]. split.
  - intro Hall. unfold res, search_products. fold attempts.
    rewrite (try_attempts_all_fail _ None w Hall).
    destruct (last_recorded_error_some question (tl attempts) w) as [e He].
    change (question :: tl attempts) with attempts in He.
    rewrite He. simpl.
    repeat split; try reflexivity.
    exists e. repeat split; try reflexivity. apply no_products_answer_contains.
  - intros pre q post E Hpre w1 r Hy.
    pose proof (try_attempts_first_success pre post q None w Hpre Hy) as H.
    fold w1 in H. fold r in H.
    unfold res, search_products. fold attempts. rewrite E.
    destruct r as [r0 w'] eqn:Er. destruct H as [le ->]. simpl in Hy |- *.
    assert (Hne : non_empty (products r0) = true).
    { unfold yields_products in Hy. apply andb_true_iff in Hy as [_ Hy]. exact Hy. }
    rewrite Hne. simpl.
    destruct (found_answer question (products r0)); simpl; auto.
Qed.

(** C10: whenever a non-empty product list is returned, the identifier
    list is parallel to it: the same length, and at every index the
    identifier of the product at that index. *)
Theorem search_products_asins_parallel (user_id question : str) (w : World) :
  let res := fst (search_products user_id question w) in
  sp_products res <> [] ->
  sp_asins res = map asin (sp_products res)
  /\ List.length (sp_asins res) = List.length (sp_products res)
  /\ (forall i p, nth_error (sp_products res) i = Some p ->
                  nth_error (sp_asins res) i = Some (asin p)
                  /\ truthy (asin p) = true).
Proof.
  intros res Hne.
  assert (H : sp_asins res = map asin (sp_products res)
              /\ forall p, In p (sp_products res) -> truthy (asin p) = true).
  { revert Hne. unfold res, search_products.
    pose proof (try_attempts_products (search_attempts question) None w) as Hp.
    destruct (try_attempts (search_attempts question) None w)
      as [[products last_error] w'].
    simpl in Hp. destruct (non_empty products); simpl; [|intro N; contradiction].
    destruct (found_answer question products); simpl; [intro N; contradiction|].
    intros _. split; [|intros p Hin; apply (Hp p Hin)].
    f_equal. apply forallb_filter_id, forallb_forall.
    intros p Hin. apply (Hp p Hin). }
  destruct H as [E Ht]. split; [exact E|]. split.
  - rewrite E. apply length_map.
  - intros i p Hi. split.
    + rewrite E. apply map_nth_error. exact Hi.
    + apply Ht. apply (nth_error_In _ _ Hi).
Qed.

(** The products [search_products] returns are products of one search. *)
Lemma search_products_products (user_id question : str) (w : World)
    (p : product_info) :
  In p (sp_products (fst (search_products user_id question w))) ->
  truthy (asin p) = true
  /\ exists raw, process_record default_min_rating raw = ok (Some p).
Proof.
  unfold search_products.
  pose proof (try_attempts_products (search_attempts question) None w p) as Hp.
  destruct (try_attempts (search_attempts question) None w)
    as [[products last_error] w'].
  simpl in Hp. destruct (non_empty products); simpl; [|tauto].
  destruct (found_answer question products); simpl; [tauto | exact Hp].
Qed.

(** C1 (amended): every product of the list [search_amazon_products]
    returns, and hence of the list [search_products] returns, has an
    identifier that is true in Python's sense (a string identifier is not
    empty) and a rating that is not both above 0 and below [min_rating]:
    a rating that is a finite number is at most 0 (unknown) or at least
    [min_rating]. (NaN, which is neither above 0 nor below [min_rating],
    passes the test.) A raw record whose rating is above 0 and below
    [min_rating] yields no product, and a product without identifier is
    never in the list, whatever its rating. *)
Theorem search_amazon_products_qualifying (query : str) (max_results : Z)
    (min_rating : Q) (w : World) :
  let res := fst (search_amazon_products query max_results min_rating w) in
  (forall p, In p (products res) ->
     truthy (asin p) = true
     /\ (forall s, asin p = VStr s -> s <> [])
     /\ below_min_rating (rating p) min_rating = false
     /\ (forall q, rating p = Fin q -> (q <= 0 \/ min_rating <= q)%Q))
  /\ (forall raw r,
        parse_rating raw = ok r ->
        fl_ltb (Fin 0) r = true -> fl_ltb r (Fin min_rating) = true ->
        process_record min_rating raw = ok None)
  /\ (forall raw info,
        process_record min_rating raw = ok (Some info) ->
        truthy (asin info) = false -> ~ In info (products res))
  /\ (forall user_id question w0 p,
        In p (sp_products (fst (search_products user_id question w0))) ->
        truthy (asin p) = true
        /\ below_min_rating (rating p) default_min_rating = false
        /\ (forall q, rating p = Fin q -> (q <= 0 \/ default_min_rating <= q)%Q)).
Proof.
  intro res. split; [|split; [|split]].
  - intros p Hin.
    destruct (search_amazon_products_products _ _ _ _ _ Hin) as [Ht [raw Hp]].
    split; [exact Ht|]. split.
    + intros s E ->. rewrite E in Ht. discriminate Ht.
    + apply process_record_some in Hp as (_ & Hb & _).
      split; [exact Hb|]. intros q E. rewrite E in Hb.
      apply below_min_rating_false. exact Hb.
  - apply process_record_low_rating.
  - intros raw info _ Hf Hin.
    destruct (search_amazon_products_products _ _ _ _ _ Hin) as [Ht _].
    congruence.
  - intros user_id question w0 p Hin.
    destruct (search_products_products _ _ _ _ Hin) as [Ht [raw Hp]].
    split; [exact Ht|].
    apply process_record_some in Hp as (_ & Hb & _).
    split; [exact Hb|]. intros q E. rewrite E in Hb.
    apply below_min_rating_false. exact Hb.
Qed.

End OrchestratorFacts.

Lemma search_products_fallback_witness :
  let question := lit "best cheap shoes" in
  let down := fst (search_products (env := Sim.sim_env) (lit "u1") question
                     Sim.provider_down) in
  let late := search_products (env := Sim.sim_env) (lit "u1") question
                Sim.third_time in
  search_attempts question
  = [question; lit "best cheap shoes"; lit "best rated best cheap shoes";
     lit "budget best cheap shoes"]
  /\ (all_fail (env := Sim.sim_env) 12 (search_attempts question)
        Sim.provider_down = true
      /\ sp_asins down = [] /\ sp_products down = []
      /\ contains (lit "no answer") (sp_answer down) = true)
  /\ (all_fail (env := Sim.sim_env) 12 [question; lit "best cheap shoes"]
        Sim.third_time = true
      /\ snd late = Sim.with_script [Sim.answer_of Sim.mixed_records]
      /\ map asin (sp_products (fst late))
         = map (fun s => VStr (lit s)) ["B0C"; "B0A"; "B0F"; "B0G"; "B0E"; "B0D"]%string).
Proof.
  intros question down late.
  assert (Hq : exists word,
             In word [lit "best"; lit "top"; lit "good"; lit "recommend"]
             /\ contains word (lower question) = true)
    by (exists (lit "best"); split; [left; reflexivity | reflexivity]).
  assert (Hb : contains (lit "cheap") (lower question) = true
               \/ contains (lit "budget") (lower question) = true)
    by (left; reflexivity).
  split; [|split].
  - destruct (search_products_fallback (env := Sim.sim_env) (lit "u1")
                question Sim.provider_down) as ((Hs & _) & _).
    exact (Hs Hq Hb).
  - assert (Hall : all_fail (env := Sim.sim_env) 12 (search_attempts question)
                     Sim.provider_down = true) by reflexivity.
    split; [exact Hall|].
    destruct (search_products_fallback (env := Sim.sim_env) (lit "u1")
                question Sim.provider_down) as (_ & Hfail & _).
    destruct (Hfail Hall) as (Ha & Hp & _ & e & He & _ & Hc).
    split; [exact Ha|]. split; [exact Hp|].
    assert (Ee : e = lit "no answer")
      by (apply (f_equal (fun o => match o with Some x => x | None => [] end)) in He;
          symmetry; exact He).
    rewrite <- Ee. exact Hc.
  - assert (Hpre : all_fail (env := Sim.sim_env) 12
                     [question; lit "best cheap shoes"] Sim.third_time = true)
      by reflexivity.
    split; [exact Hpre|].
    destruct (search_products_fallback (env := Sim.sim_env) (lit "u1")
                question Sim.third_time) as (_ & _ & Hfirst).
    destruct (Hfirst [question; lit "best cheap shoes"]
                (lit "best rated best cheap shoes")
                [lit "budget best cheap shoes"] eq_refl Hpre eq_refl)
      as [Hw Hp].
    split; [exact Hw|].
    destruct Hp as [Hp | Hp].
    + fold late in Hp. rewrite Hp. reflexivity.
    + vm_compute in Hp. discriminate Hp.
Defined.

Lemma search_products_asins_parallel_witness :
  let res := fst (search_products (env := Sim.sim_env) (lit "u1") (lit "shoes")
                    (Sim.with_script [Sim.answer_of Sim.mixed_records])) in
  sp_products res <> []
  /\ sp_asins res = map asin (sp_products res)
  /\ List.length (sp_asins res) = 6%nat.
Proof.
  intro res.
  assert (Hne : sp_products res <> []) by (vm_compute; discriminate).
  split; [exact Hne|].
  destruct (search_products_asins_parallel (env := Sim.sim_env) (lit "u1")
              (lit "shoes") (Sim.with_script [Sim.answer_of Sim.mixed_records]) Hne)
    as (E & _ & _).
  split; [exact E | reflexivity].
Defined.


(** ** Packing list with product recommendations *)

Section PackingFacts.

Context {env : Env}.

Lemma run_searches_app (max_results : Z) (a b : list str) (w : World) :
  run_searches max_results (a ++ b) w
  = (fst (run_searches max_results a w)
       ++ fst (run_searches max_results b (snd (run_searches max_results a w))),
     snd (run_searches max_results b (snd (run_searches max_results a w)))).
Proof.
  revert w; induction a as [|q a IH]; intro w; simpl.
  - destruct (run_searches max_results b w); reflexivity.
  - destruct (search_amazon_products q max_results default_min_rating w) as [r w1].
    rewrite IH. destruct (run_searches max_results a w1) as [rs w2]. reflexivity.
Qed.

Lemma all_fail_app (max_results : Z) (a b : list str) (w : World) :
  all_fail max_results (a ++ b) w
  = all_fail max_results a w
    && all_fail max_results b (snd (run_searches max_results a w)).
Proof.
  unfold all_fail. rewrite run_searches_app. simpl. apply forallb_app.
Qed.

(** When its queries all fail, an item gets no product. *)
Lemma try_queries_all_fail (queries : list str) (w : World) :
  all_fail 4 queries w = true ->
  try_queries queries w = ([], snd (run_searches 4 queries w)).
Proof.
  unfold all_fail. revert w; induction queries as [|q rest IH]; intro w; simpl;
    [reflexivity|].
  destruct (search_amazon_products q 4 default_min_rating w) as [r w1].
  specialize (IH w1). destruct (run_searches 4 rest w1) as [rs w2]. simpl in *.
  intro H. apply andb_true_iff in H as [Hr Hrs].
  unfold yields_products in Hr. apply negb_true_iff in Hr.
  fold (non_empty (products r)) in Hr. rewrite Hr. apply IH. exact Hrs.
Qed.

(** When the queries of every item fail, the loop ends without a
    result and without an identifier. *)
Lemma pack_items_all_fail (items : list str) :
  forall (st : pack_state) (w : World),
    all_fail 4 (flat_map item_queries items) w = true ->
    exists st',
      pack_items items st w
      = (ok st', snd (run_searches 4 (flat_map item_queries items) w))
      /\ ps_results st' = ps_results st
      /\ ps_asins_dict st' = ps_asins_dict st
      /\ ps_failed_searches st' = ps_failed_searches st ++ items.
Proof.
  induction items as [|it items IH]; intros st w H.
  - exists st. simpl. rewrite app_nil_r. auto.
  - cbn [flat_map] in H |- *. rewrite all_fail_app in H.
    apply andb_true_iff in H as [Hit Hrest].
    cbn [pack_items]. rewrite (try_queries_all_fail _ _ Hit). cbn [non_empty].
    rewrite run_searches_app. cbn [snd].
    destruct (IH {| ps_answer := ps_answer st ++ item_header it ++ item_not_found;
                    ps_results := ps_results st;
                    ps_asins_dict := ps_asins_dict st;
                    ps_failed_searches := ps_failed_searches st ++ [it] |}
                 _ Hrest) as (st' & E & Hr & Ha & Hf).
    exists st'. rewrite E. cbn in Hr, Ha, Hf.
    rewrite Hf, <- app_assoc. auto.
Qed.

Lemma packing_failure_answer_strip (question : str) :
  strip (packing_failure_answer question) = packing_failure_answer question.
Proof.
  assert (E : packing_failure_answer question
              = "U"%char
                  :: (lit "nable to find specific product recommendations for your packing list: "
                        ++ question ++ lit ". Try searching for individual items")
                  ++ ["."%char]).
  { unfold packing_failure_answer. rewrite <- !app_assoc. reflexivity. }
  rewrite E. apply strip_fixed; reflexivity.
Qed.

(** C9: when no query of any priority item yields a product, the answer
    is the aggregate failure message and nothing else: the text built
    item by item is dropped, and no identifier and no item is returned. *)
Theorem generate_packing_list_all_fail (user_id question : str) (w : World) :
  let priority_items := firstn 10 (generate_smart_packing_list question) in
  let res := fst (generate_packing_list user_id question w) in
  all_fail 4 (flat_map item_queries priority_items) w = true ->
  pl_answer res = packing_failure_answer question
  /\ pl_asins res = [] /\ pl_items res = []
  /\ snd (generate_packing_list user_id question w)
     = snd (run_searches 4 (flat_map item_queries priority_items) w).
Proof.
  intros priority_items res H. unfold res, generate_packing_list.
  fold priority_items.
  match goal with
  | |- context [pack_items priority_items ?st w] =>
      destruct (pack_items_all_fail priority_items st w H) as (st' & E & Hr & Ha & _)
  end.
  unfold ok in E. rewrite E. cbn [fst snd pl_answer pl_asins pl_items].
  rewrite Hr, Ha. cbn [non_empty ps_results ps_asins_dict].
  rewrite packing_failure_answer_strip. auto.
Qed.

End PackingFacts.

Lemma generate_packing_list_all_fail_witness :
  let res := fst (generate_packing_list (env := Sim.sim_env) (lit "u1")
                    (lit "Beach trip") Sim.provider_down) in
  all_fail (env := Sim.sim_env) 4
    (flat_map item_queries (firstn 10 (generate_smart_packing_list (lit "Beach trip"))))
    Sim.provider_down = true
  /\ pl_answer res
     = lit "Unable to find specific product recommendations for your packing list: Beach trip. Try searching for individual items."
  /\ pl_items res = [].
Proof.
  intro res.
  assert (Hall : all_fail (env := Sim.sim_env) 4
                   (flat_map item_queries
                      (firstn 10 (generate_smart_packing_list (lit "Beach trip"))))
                   Sim.provider_down = true) by (vm_compute; reflexivity).
  split; [exact Hall|].
  destruct (generate_packing_list_all_fail (env := Sim.sim_env) (lit "u1")
              (lit "Beach trip") Sim.provider_down Hall) as (Ea & _ & Ei & _).
  split; [exact Ea | exact Ei].
Defined.

Lemma search_amazon_products_qualifying_witness :
  exists p,
    In p (products (fst (search_amazon_products (env := Sim.sim_env)
                           (lit "shoes") 15 3.5
                           (Sim.with_script [Sim.answer_of Sim.mixed_records]))))
    /\ asin p = VStr (lit "B0C")
    /\ truthy (asin p) = true
    /\ below_min_rating (rating p) 3.5 = false.
Proof.
  eexists. split; [vm_compute; left; reflexivity|].
  split; [reflexivity|].
  destruct (search_amazon_products_qualifying (env := Sim.sim_env)
              (lit "shoes") 15 3.5
              (Sim.with_script [Sim.answer_of Sim.mixed_records])) as [H _].
  match goal with
  | |- truthy (asin ?p) = true /\ _ =>
      destruct (H p) as (Ht & _ & Hr & _); [vm_compute; left; reflexivity|]
  end.
  split; [exact Ht | exact Hr].
Defined.

(** C1, as stated, fails on the answer [Sim.odd_records]. The record
    with a negative rating passes the rating test, which lets every
    rating that is not above 0 through, and is returned with a rating
    that is neither 0 nor at least 3.5; the record whose identifier is a
    number is returned too, its identifier being true but not a string.
    On the answer [Sim.nan_records] the record whose rating reads as NaN
    is returned: NaN is neither above 0 nor below 3.5, and neither equal
    to 0 nor at least 3.5. *)
Lemma qualifying_rating_counterexample :
  ~ (forall p,
       In p (products (fst (search_amazon_products (env := Sim.sim_env)
                              (lit "shoes") 15 3.5
                              (Sim.with_script [Sim.answer_of Sim.odd_records])))) ->
       fl_eqb (rating p) (Fin 0) = true \/ fl_leb (Fin 3.5) (rating p) = true)
  /\ ~ (forall p,
          In p (products (fst (search_amazon_products (env := Sim.sim_env)
                                 (lit "shoes") 15 3.5
                                 (Sim.with_script [Sim.answer_of Sim.odd_records])))) ->
          exists s, asin p = VStr s /\ s <> [])
  /\ ~ (forall p,
          In p (products (fst (search_amazon_products (env := Sim.sim_env)
                                 (lit "shoes") 15 3.5
                                 (Sim.with_script [Sim.answer_of Sim.nan_records])))) ->
          fl_eqb (rating p) (Fin 0) = true \/ fl_leb (Fin 3.5) (rating p) = true).
Proof.
  split; [|split]; intro H.
  - assert (Hin : exists p,
               In p (products (fst (search_amazon_products (env := Sim.sim_env)
                                      (lit "shoes") 15 3.5
                                      (Sim.with_script
                                         [Sim.answer_of Sim.odd_records]))))
               /\ rating p = Fin (inject_Z (-1)))
      by (eexists; split; [right; left; reflexivity | reflexivity]).
    destruct Hin as (p & Hin & Er).
    destruct (H p Hin) as [E | L]; [rewrite Er in E | rewrite Er in L].
    + discriminate E.
    + discriminate L.
  - assert (Hin : exists p,
               In p (products (fst (search_amazon_products (env := Sim.sim_env)
                                      (lit "shoes") 15 3.5
                                      (Sim.with_script
                                         [Sim.answer_of Sim.odd_records]))))
               /\ asin p = VInt 1234567890)
      by (eexists; split; [left; reflexivity | reflexivity]).
    destruct Hin as (p & Hin & Ea). destruct (H p Hin) as (s & Es & _).
    rewrite Ea in Es. discriminate Es.
  - assert (Hin : exists p,
               In p (products (fst (search_amazon_products (env := Sim.sim_env)
                                      (lit "shoes") 15 3.5
                                      (Sim.with_script
                                         [Sim.answer_of Sim.nan_records]))))
               /\ rating p = NaN)
      by (eexists; split; [right; left; reflexivity | reflexivity]).
    destruct Hin as (p & Hin & Er).
    destruct (H p Hin) as [E | L]; [rewrite Er in E | rewrite Er in L].
    + discriminate E.
    + discriminate L.
Qed.


(** * Further properties *)

(** ** The optimised query is normalised text *)

Section NormalisedText.

Lemma forallb_rev_true {A} (f : A -> bool) (l : list A) :
  forallb f l = true -> forallb f (rev l) = true.
Proof.
  rewrite !forallb_forall. intros H x Hx. apply H, in_rev. exact Hx.
Qed.

Lemma flush_words (cur : str) (k : list str) :
  forallb (fun c => negb (is_space c)) cur = true ->
  Forall is_word k -> Forall is_word (flush cur k).
Proof.
  intros Hc Hk. destruct cur as [|c cur]; simpl; [exact Hk|].
  constructor; [|exact Hk]. split.
  - intro E. apply (f_equal (@List.length ascii)) in E.
    rewrite length_app in E. simpl in E. lia.
  - apply (forallb_rev_true _ (c :: cur)). exact Hc.
Qed.

Lemma split_from_words (s cur : str) :
  forallb (fun c => negb (is_space c)) cur = true ->
  Forall is_word (split_from cur s).
Proof.
  revert cur; induction s as [|c s IH]; intros cur Hc; simpl.
  - apply flush_words; [exact Hc | constructor].
  - destruct (is_space c) eqn:E.
    + apply flush_words; [exact Hc | apply IH; reflexivity].
    + apply IH. simpl. rewrite E, Hc. reflexivity.
Qed.

(** The words [split] returns are words. *)
Lemma split_words (s : str) : Forall is_word (split s).
Proof. apply split_from_words. reflexivity. Qed.

Lemma split_from_word (w rest cur : str) :
  forallb (fun c => negb (is_space c)) w = true ->
  split_from cur (w ++ rest) = split_from (rev w ++ cur) rest.
Proof.
  revert cur; induction w as [|c w IH]; intros cur Hw; simpl; [reflexivity|].
  simpl in Hw. apply andb_true_iff in Hw as [Hc Hw].
  apply negb_true_iff in Hc. rewrite Hc, (IH _ Hw), <- app_assoc. reflexivity.
Qed.

Lemma flush_rev_word (w : str) (k : list str) :
  w <> [] -> flush (rev w) k = w :: k.
Proof.
  intro Hne. unfold flush. destruct (rev w) as [|c r] eqn:E.
  - apply (f_equal (@rev ascii)) in E. rewrite rev_involutive in E. contradiction.
  - rewrite <- E, rev_involutive. reflexivity.
Qed.

(** Splitting words joined by single spaces gives the words back. *)
Lemma split_join (words : list str) :
  Forall is_word words -> split (join (lit " ") words) = words.
Proof.
  unfold split. induction 1 as [|w ws [Hne Hw] Hws IH]; [reflexivity|].
  destruct ws as [|w2 ws].
  - cbn [join]. rewrite <- (app_nil_r w) at 1. rewrite (split_from_word _ _ _ Hw).
    rewrite app_nil_r. cbn [split_from]. apply flush_rev_word. exact Hne.
  - change (join (lit " ") (w :: w2 :: ws))
      with (w ++ " "%char :: join (lit " ") (w2 :: ws)).
    rewrite (split_from_word _ _ _ Hw), app_nil_r.
    cbn [split_from]. change (is_space " ") with true. cbv iota.
    rewrite IH. apply flush_rev_word. exact Hne.
Qed.

Lemma lstrip_word_front (c : ascii) (s : str) :
  is_space c = false -> lstrip (c :: s) = c :: s.
Proof. intro H. simpl. rewrite H. reflexivity. Qed.

(** Words joined by single spaces begin and end with a character of a
    word. *)
Lemma join_ends (words : list str) :
  Forall is_word words -> words <> [] ->
  (exists c t, join (lit " ") words = c :: t /\ is_space c = false)
  /\ (exists c t, join (lit " ") words = t ++ [c] /\ is_space c = false).
Proof.
  induction 1 as [|w ws [Hne Hw] Hws IH]; intro N; [contradiction|]. split.
  - destruct w as [|c w]; [contradiction|].
    simpl in Hw. apply andb_true_iff in Hw as [Hc _]. apply negb_true_iff in Hc.
    exists c. destruct ws; simpl; eauto.
  - destruct ws as [|w2 ws].
    + simpl. destruct (exists_last Hne) as (t & c & ->).
      rewrite forallb_app in Hw. apply andb_true_iff in Hw as [_ Hc].
      simpl in Hc. rewrite andb_true_r in Hc. apply negb_true_iff in Hc.
      exists c, t. auto.
    + destruct IH as [_ (c & t & E & Hc)]; [discriminate|].
      exists c, (w ++ lit " " ++ t).
      change (join (lit " ") (w :: w2 :: ws))
        with (w ++ lit " " ++ join (lit " ") (w2 :: ws)).
      rewrite E, <- !app_assoc. auto.
Qed.

Lemma strip_ends (s t t' : str) (c c' : ascii) :
  s = c :: t -> s = t' ++ [c'] -> is_space c = false -> is_space c' = false ->
  strip s = s.
Proof.
  intros E E' Hc Hc'. unfold strip. rewrite E.
  rewrite (lstrip_word_front _ _ Hc). rewrite <- E. unfold rstrip.
  assert (R : rev s = c' :: rev t')
    by (rewrite E', rev_app_distr; reflexivity).
  rewrite R, (lstrip_word_front _ _ Hc'), <- R. apply rev_involutive.
Qed.

Lemma strip_joined (words : list str) :
  Forall is_word words -> strip (join (lit " ") words) = join (lit " ") words.
Proof.
  intro H. destruct words as [|w ws]; [reflexivity|].
  destruct (join_ends _ H) as [(c & t & E & Hc) (c' & t' & E' & Hc')];
    [discriminate|].
  apply (strip_ends _ _ _ _ _ E E' Hc Hc').
Qed.

(** X1: the optimised query is normalised text: it is the list of its
    words joined by single spaces, so it has no white space at either end
    and none but single spaces between the words; normalising it again
    changes nothing. *)
Theorem optimize_search_query_normalised (query : str) :
  let r := optimize_search_query query in
  Forall is_word (split r)
  /\ join (lit " ") (split r) = r
  /\ strip r = r.
Proof.
  intro r.
  assert (E : exists words, Forall is_word words /\ r = join (lit " ") words).
  { unfold r, optimize_search_query. eexists. split; [apply split_words | reflexivity]. }
  destruct E as (words & Hw & ->).
  rewrite (split_join _ Hw). split; [exact Hw|]. split; [reflexivity|].
  apply strip_joined. exact Hw.
Qed.

End NormalisedText.


(** ** The optimised query is lower-case *)

Section CharacterProperty.

(** A property of characters that the space and the expansions have. *)
Variable P : ascii -> Prop.
Hypothesis P_space : P " "%char.
Hypothesis P_improvements :
  Forall (fun entry => Forall P (snd entry)) improvements.

Lemma lstrip_Forall (s : str) : Forall P s -> Forall P (lstrip s).
Proof.
  induction 1 as [|c s Hc Hs IH]; simpl; [constructor|].
  destruct (is_space c); [exact IH | constructor; assumption].
Qed.

Lemma strip_Forall (s : str) : Forall P s -> Forall P (strip s).
Proof.
  intro H. unfold strip, rstrip.
  apply Forall_rev, lstrip_Forall, Forall_rev, lstrip_Forall, H.
Qed.

Lemma replace_from_Forall (old new : str) (s : str) :
  Forall P new -> Forall P s ->
  forall skip, Forall P (replace_from old new skip s).
Proof.
  intros Hn. induction 1 as [|c s Hc Hs IH]; intro skip; simpl; [constructor|].
  destruct skip; [|apply IH].
  destruct (starts_with old (c :: s)).
  - apply Forall_app. split; [exact Hn | apply IH].
  - constructor; [exact Hc | apply IH].
Qed.

Lemma replace_Forall (old new s : str) :
  Forall P new -> Forall P s -> Forall P (replace old new s).
Proof.
  intros Hn Hs. destruct old as [|o old]; simpl.
  - apply Forall_app. split; [exact Hn|].
    induction Hs as [|c s Hc Hs IH]; simpl; [constructor|].
    constructor; [exact Hc|]. apply Forall_app. split; assumption.
  - apply replace_from_Forall; assumption.
Qed.

Lemma remove_fillers_Forall (fillers : list str) (s : str) :
  Forall P s -> Forall P (remove_fillers fillers s).
Proof.
  unfold remove_fillers. revert s.
  induction fillers as [|f fillers IH]; intros s H; simpl; [exact H|].
  apply IH, strip_Forall, replace_Forall; [constructor | exact H].
Qed.

Lemma improve_Forall (table : list (str * str)) (s : str) :
  Forall (fun entry => Forall P (snd entry)) table ->
  Forall P s -> Forall P (improve table s).
Proof.
  induction 1 as [|[kw imp] table Hi Ht IH]; intro Hs; simpl; [exact Hs|].
  destruct (_ && _); [|apply IH; exact Hs].
  apply Forall_app. split; [exact Hi|]. constructor; [exact P_space | exact Hs].
Qed.

Lemma flush_Forall (cur : str) (k : list str) :
  Forall P cur -> Forall (Forall P) k -> Forall (Forall P) (flush cur k).
Proof.
  intros Hc Hk. destruct cur; simpl; [exact Hk|].
  constructor; [|exact Hk]. apply (Forall_rev Hc).
Qed.

Lemma split_from_Forall (s : str) :
  Forall P s -> forall cur, Forall P cur -> Forall (Forall P) (split_from cur s).
Proof.
  induction 1 as [|c s Hc Hs IH]; intros cur Hcur; simpl.
  - apply flush_Forall; [exact Hcur | constructor].
  - destruct (is_space c).
    + apply flush_Forall; [exact Hcur | apply IH; constructor].
    + apply IH. constructor; assumption.
Qed.

Lemma join_Forall (sep : str) (words : list str) :
  Forall P sep -> Forall (Forall P) words -> Forall P (join sep words).
Proof.
  intro Hsep. induction 1 as [|w ws Hw Hws IH]; simpl; [constructor|].
  destruct ws; [exact Hw|].
  apply Forall_app. split; [exact Hw|]. apply Forall_app. split; assumption.
Qed.

(** Every character of the optimised query has the property when every
    character of the lower-cased query has it. *)
Lemma optimize_search_query_Forall (query : str) :
  Forall P (lower query) -> Forall P (optimize_search_query query).
Proof.
  intro H. unfold optimize_search_query.
  apply join_Forall; [constructor; [exact P_space | constructor]|].
  apply split_from_Forall; [|constructor].
  apply improve_Forall; [exact P_improvements|].
  apply remove_fillers_Forall. exact H.
Qed.

End CharacterProperty.

Lemma lower_char_not_upper (c : ascii) : is_upper (lower_char c) = false.
Proof.
  destruct c as [[] [] [] [] [] [] [] []]; reflexivity.
Qed.

(** X2: the optimised query holds none of the ASCII capital letters A to
    Z, whatever the case of the query. *)
Theorem optimize_search_query_lower_case (query : str) :
  Forall (fun c => is_upper c = false) (optimize_search_query query).
Proof.
  apply optimize_search_query_Forall.
  - reflexivity.
  - repeat constructor.
  - unfold lower. apply Forall_forall. intros c Hc.
    apply in_map_iff in Hc as (c0 & <- & _). apply lower_char_not_upper.
Qed.


(** ** The price bounds are numbers written in the query *)

Section CapturedText.

Context {R : Type}.

Lemma consumes_refl (s : str) (c : Re.caps) : consumes s c s c.
Proof. split; [exists []; reflexivity | auto]. Qed.

Lemma consumes_trans (s1 s2 s3 : str) (c1 c2 c3 : Re.caps) :
  consumes s1 c1 s2 c2 -> consumes s2 c2 s3 c3 -> consumes s1 c1 s3 c3.
Proof.
  intros [[d1 E1] H1] [[d2 E2] H2]. split.
  - exists (d1 ++ d2). rewrite E1, E2, app_assoc. reflexivity.
  - intros n t Hin. destruct (H2 n t Hin) as [Hc | (a & b & E)]; [auto|].
    right. exists (d1 ++ a), b. rewrite E1, E, <- app_assoc. reflexivity.
Qed.

Lemma star_loop_consumes (step : str -> Re.caps -> @Re.cont R -> option R) :
  (forall s c k x, step s c k = Some x ->
     exists s' c', k s' c' = Some x /\ consumes s c s' c') ->
  forall fuel s c k x,
    Re.star_loop step fuel s c k = Some x ->
    exists s' c', k s' c' = Some x /\ consumes s c s' c'.
Proof.
  intros Hstep. induction fuel as [|fuel IH]; intros s c k x H; cbn [Re.star_loop] in H.
  - exists s, c. split; [exact H | apply consumes_refl].
  - destruct (step s c _) as [y|] eqn:E.
    + injection H as ->. apply Hstep in E as (s1 & c1 & E & G1).
      destruct (_ <? _)%nat; [|discriminate].
      apply IH in E as (s2 & c2 & E & G2).
      exists s2, c2. split; [exact E | apply (consumes_trans _ _ _ _ _ _ G1 G2)].
    + exists s, c. split; [exact H | apply consumes_refl].
Qed.

Lemma rmatch_consumes (r : Re.re) :
  forall s c (k : @Re.cont R) x,
    Re.rmatch r s c k = Some x ->
    exists s' c', k s' c' = Some x /\ consumes s c s' c'.
Proof.
  induction r as [ | cs | r1 IH1 r2 IH2 | r1 IH1 | r1 IH1 | r1 IH1 | m r1 IH1];
    intros s c k x H; cbn [Re.rmatch] in H.
  - exists s, c. split; [exact H | apply consumes_refl].
  - destruct s as [|a s]; [discriminate|].
    destruct (Re.in_class cs a); [|discriminate].
    exists s, c. split; [exact H|]. split; [exists [a]; reflexivity | auto].
  - apply IH1 in H as (s1 & c1 & H & G1).
    apply IH2 in H as (s2 & c2 & H & G2).
    exists s2, c2. split; [exact H | apply (consumes_trans _ _ _ _ _ _ G1 G2)].
  - apply (star_loop_consumes _ IH1) in H. exact H.
  - apply IH1 in H as (s1 & c1 & H & G1).
    apply (star_loop_consumes _ IH1) in H as (s2 & c2 & H & G2).
    exists s2, c2. split; [exact H | apply (consumes_trans _ _ _ _ _ _ G1 G2)].
  - destruct (Re.rmatch r1 s c k) as [y|] eqn:E.
    + injection H as ->. apply IH1 in E. exact E.
    + exists s, c. split; [exact H | apply consumes_refl].
  - apply IH1 in H as (s1 & c1 & H & [[d Ed] G1]).
    eexists _, _. split; [exact H|]. split; [exists d; exact Ed|].
    intros n t [E | Hin]; [|apply G1; exact Hin].
    injection E as _ <-. right. exists [], s1. simpl.
    rewrite Ed, length_app, Nat.add_sub, firstn_app, firstn_all, Nat.sub_diag.
    simpl. rewrite app_nil_r. reflexivity.
Qed.

End CapturedText.

Lemma group_In (m : Re.caps) (n : nat) (t : str) :
  Re.group m n = Some t -> In (n, t) m.
Proof.
  induction m as [|[i u] m IH]; simpl; [discriminate|].
  destruct (Nat.eqb i n) eqn:E.
  - intro H. injection H as ->. apply Nat.eqb_eq in E. subst. left. reflexivity.
  - intro H. right. apply IH. exact H.
Qed.

Lemma search_from_suffix (r : Re.re) (s : str) (m : Re.caps) :
  Re.search_from r s = Some m ->
  exists a s0, s = a ++ s0 /\ Re.match_here r s0 = Some m.
Proof.
  induction s as [|c s IH]; simpl; intro H.
  - destruct (Re.match_here r []) eqn:E; [|discriminate].
    injection H as ->. exists [], []. auto.
  - destruct (Re.match_here r (c :: s)) eqn:E.
    + injection H as ->. exists [], (c :: s). auto.
    + destruct (IH H) as (a & s0 & -> & Hm). exists (c :: a), s0. auto.
Qed.

(** The text of a group of a match [re.search] returns occurs in the
    text searched. *)
Lemma search_group_occurs (pattern s : str) (m : Re.caps) (n : nat) (t : str) :
  Re.search pattern s = Some m -> Re.group m n = Some t ->
  contains t s = true.
Proof.
  unfold Re.search. destruct (Re.compile pattern) as [r|]; [|discriminate].
  intros H G. apply search_from_suffix in H as (a & s0 & -> & H).
  unfold Re.match_here in H.
  apply rmatch_consumes in H as (s' & c' & E & _ & Hc). injection E as ->.
  apply group_In in G. destruct (Hc n t G) as [[] | (a' & b & ->)].
  apply contains_app. exists (a ++ a'), b. rewrite <- app_assoc. reflexivity.
Qed.

Lemma int_of_digits_nonneg (d : str) : (0 <= int_of_digits d)%Z.
Proof.
  unfold int_of_digits.
  assert (H : forall acc, (0 <= acc)%Z ->
                (0 <= fold_left (fun acc c => 10 * acc + digit_val c) d acc)%Z).
  { induction d as [|c d IH]; intros acc Ha; cbn [fold_left]; [exact Ha|].
    apply IH. unfold digit_val. lia. }
  apply H. lia.
Qed.

(** What the loop over the patterns can return. *)
Lemma scan_price_patterns_cases (patterns : list str) (query : str) :
  scan_price_patterns patterns query = (None, None)
  \/ exists pattern m,
       In pattern patterns /\ Re.search pattern (lower query) = Some m
       /\ scan_price_patterns patterns query
          = if is_upper_bound_pattern pattern
            then (None, Some (group_int m 1))
            else (Some (group_int m 1), Some (group_int m 2)).
Proof.
  induction patterns as [|p patterns IH]; simpl; [left; reflexivity|].
  destruct (Re.search p (lower query)) as [m|] eqn:E.
  - right. exists p, m. auto.
  - destruct IH as [H | (pattern & m & Hin & Hm & H)]; [left; exact H | right].
    exists pattern, m. auto.
Qed.

(** X3: every bound [extract_price_range] returns is the value of a
    string of digits that occurs in the lower-cased query, hence not
    negative; and a lower bound never comes without an upper bound. *)
Theorem extract_price_range_written (query : str) :
  (forall a, fst (extract_price_range query) = Some a ->
             written_in query a /\ (0 <= a)%Z
             /\ snd (extract_price_range query) <> None)
  /\ (forall b, snd (extract_price_range query) = Some b ->
                written_in query b /\ (0 <= b)%Z).
Proof.
  unfold extract_price_range.
  destruct (scan_price_patterns_cases price_patterns query)
    as [-> | (pattern & m & Hin & Hm & ->)].
  - split; intros x H; discriminate H.
  - destruct (price_pattern_groups pattern Hin _ _ Hm)
      as [(d1 & G1 & N1 & I1) H2].
    assert (W1 : written_in query (group_int m 1) /\ (0 <= group_int m 1)%Z).
    { split; [|rewrite I1; apply int_of_digits_nonneg].
      exists d1. split; [exact N1|]. split; [|exact I1].
      apply (search_group_occurs _ _ _ _ _ Hm G1). }
    destruct (is_upper_bound_pattern pattern) eqn:U; simpl.
    + split; [intros a H; discriminate H|].
      intros b H. injection H as <-. exact W1.
    + destruct (H2 eq_refl) as (d2 & G2 & N2 & I2).
      assert (W2 : written_in query (group_int m 2) /\ (0 <= group_int m 2)%Z).
      { split; [|rewrite I2; apply int_of_digits_nonneg].
        exists d2. split; [exact N2|]. split; [|exact I2].
        apply (search_group_occurs _ _ _ _ _ Hm G2). }
      split.
      * intros a H. injection H as <-. destruct W1 as [W1 P1].
        split; [exact W1|]. split; [exact P1 | discriminate].
      * intros b H. injection H as <-. exact W2.
Qed.

Lemma extract_price_range_written_witness :
  snd (extract_price_range (lit "Tent UNDER $50")) = Some 50%Z
  /\ written_in (lit "Tent UNDER $50") 50 /\ (0 <= 50)%Z.
Proof.
  assert (E : snd (extract_price_range (lit "Tent UNDER $50")) = Some 50%Z)
    by reflexivity.
  split; [exact E|].
  exact (proj2 (extract_price_range_written (lit "Tent UNDER $50")) 50%Z E).
Defined.


(** ** The request sent to the provider *)

Lemma price_filter_Some (p : option Z) (z : Z) :
  price_filter p = Some z <-> p = Some z /\ z <> 0%Z.
Proof.
  unfold price_filter. destruct p as [y|].
  - destruct (y =? 0)%Z eqn:E.
    + apply Z.eqb_eq in E. split; [discriminate|].
      intros [H N]. injection H as ->. contradiction.
    + apply Z.eqb_neq in E. split.
      * intro H. injection H as ->. auto.
      * intros [H _]. exact H.
  - split; [discriminate | intros [H _]; discriminate H].
Qed.

Lemma group_int_nonneg (m : Re.caps) (n : nat) : (0 <= group_int m n)%Z.
Proof.
  unfold group_int. destruct (Re.group m n); [apply int_of_digits_nonneg | lia].
Qed.

Lemma extract_price_range_nonneg (query : str) :
  (forall a, fst (extract_price_range query) = Some a -> (0 <= a)%Z)
  /\ (forall b, snd (extract_price_range query) = Some b -> (0 <= b)%Z).
Proof.
  unfold extract_price_range.
  destruct (scan_price_patterns_cases price_patterns query)
    as [-> | (pattern & m & _ & _ & ->)].
  - split; intros x H; discriminate H.
  - destruct (is_upper_bound_pattern pattern); simpl; split; intros x H;
      try discriminate H; injection H as <-; apply group_int_nonneg.
Qed.

(** X4: the request carries the optimised query, and a price bound
    exactly when [extract_price_range] found one that is not 0: a bound of
    0 is dropped by the [if min_price:] and [if max_price:] tests. A bound
    sent is positive. *)
Theorem make_params_bounds (query key : str) :
  let p := make_params query key in
  k p = optimize_search_query query /\ api_key p = key
  /\ (forall a, low_price p = Some a <->
                fst (extract_price_range query) = Some a /\ a <> 0%Z)
  /\ (forall b, high_price p = Some b <->
                snd (extract_price_range query) = Some b /\ b <> 0%Z)
  /\ (forall a, low_price p = Some a -> (0 < a)%Z)
  /\ (forall b, high_price p = Some b -> (0 < b)%Z).
Proof.
  intro p.
  assert (El : low_price p = price_filter (fst (extract_price_range query)))
    by (unfold p, make_params; destruct (extract_price_range query); reflexivity).
  assert (Eh : high_price p = price_filter (snd (extract_price_range query)))
    by (unfold p, make_params; destruct (extract_price_range query); reflexivity).
  split; [unfold p, make_params; destruct (extract_price_range query); reflexivity|].
  split; [unfold p, make_params; destruct (extract_price_range query); reflexivity|].
  split; [intro a; rewrite El; apply price_filter_Some|].
  split; [intro b; rewrite Eh; apply price_filter_Some|].
  destruct (extract_price_range_nonneg query) as [Hl Hh]. split.
  - intros a H. rewrite El in H. apply price_filter_Some in H as [H N].
    specialize (Hl a H). lia.
  - intros b H. rewrite Eh in H. apply price_filter_Some in H as [H N].
    specialize (Hh b H). lia.
Qed.

Lemma make_params_bounds_witness :
  high_price (make_params (lit "tent under $50") (lit "key")) = Some 50%Z
  /\ low_price (make_params (lit "tent under $50") (lit "key")) = None
  /\ high_price (make_params (lit "free stuff under $0") (lit "key")) = None
  /\ (0 < 50)%Z.
Proof.
  assert (E : high_price (make_params (lit "tent under $50") (lit "key")) = Some 50%Z)
    by reflexivity.
  split; [exact E|]. split; [reflexivity|]. split; [reflexivity|].
  destruct (make_params_bounds (lit "tent under $50") (lit "key"))
    as (_ & _ & _ & _ & _ & H).
  exact (H 50%Z E).
Defined.


(** ** The collecting loop *)

Section CollectFacts.

Context {env : Env}.

Lemma kept_some (min_rating : Q) (raw : value) (info : product_info) :
  process_record min_rating raw = ok (Some info) ->
  kept min_rating raw = if truthy (asin info) then [info] else [].
Proof. intro H. unfold kept. rewrite H. reflexivity. Qed.

Lemma kept_none (min_rating : Q) (raw : value) :
  process_record min_rating raw = ok None -> kept min_rating raw = [].
Proof. intro H. unfold kept. rewrite H. reflexivity. Qed.

(** X5: what the loop collects is, in the provider's order, what the
    records of a prefix of the provider's list contribute: the loop
    neither reorders nor repeats, and stops somewhere in the list. *)
Theorem collect_prefix (min_rating : Q) (max_results : Z)
    (organic_results : list value) :
  forall start out,
    collect min_rating max_results organic_results start = ok out ->
    exists n, out = start ++ flat_map (kept min_rating) (firstn n organic_results).
Proof.
  induction organic_results as [|product rest IH]; intros start out H; simpl in H.
  - injection H as <-. exists 0%nat. simpl. rewrite app_nil_r. reflexivity.
  - apply rbind_ok in H as [r [Er H]].
    destruct r as [info|].
    + destruct (max_results <=? _)%Z.
      * injection H as <-. exists 1%nat. cbn [firstn flat_map].
        rewrite (kept_some _ _ _ Er), app_nil_r.
        destruct (truthy (asin info)); [reflexivity|].
        rewrite app_nil_r. reflexivity.
      * destruct (IH _ _ H) as [n ->]. exists (S n). cbn [firstn flat_map].
        rewrite (kept_some _ _ _ Er).
        destruct (truthy (asin info)); [rewrite <- app_assoc|]; reflexivity.
    + destruct (IH _ _ H) as [n ->]. exists (S n). cbn [firstn flat_map].
      rewrite (kept_none _ _ Er). reflexivity.
Qed.

(** While fewer than [max_results] products are gathered the loop goes
    on with the rest of the list. *)
Lemma collect_app (min_rating : Q) (max_results : Z) (pre l : list value) :
  forall start out,
    collect min_rating max_results pre start = ok out ->
    (len out < max_results)%Z ->
    collect min_rating max_results (pre ++ l) start
    = collect min_rating max_results l out.
Proof.
  induction pre as [|product rest IH]; intros start out H Hlt; simpl in H |- *.
  - injection H as <-. reflexivity.
  - apply rbind_ok in H as [r [Er H]]. rewrite Er. simpl.
    destruct r as [info|]; [|apply IH; assumption].
    destruct (max_results <=? _)%Z eqn:L; [|apply IH; assumption].
    injection H as <-. apply Z.leb_le in L. lia.
Qed.

(** X6: once [max_results] products are gathered the loop ends, and the
    records behind that point are never looked at: whatever they are, the
    list collected is the same. *)
Theorem collect_break (min_rating : Q) (max_results : Z) (pre : list value) :
  forall start out,
    collect min_rating max_results pre start = ok out ->
    (len start < max_results)%Z ->
    (max_results <= len out)%Z ->
    forall post, collect min_rating max_results (pre ++ post) start = ok out.
Proof.
  induction pre as [|product rest IH]; intros start out H Hs Hout post;
    simpl in H |- *.
  - injection H as <-. lia.
  - apply rbind_ok in H as [r [Er H]]. rewrite Er. simpl.
    destruct r as [info|]; [|apply (IH _ _ H Hs Hout)].
    destruct (max_results <=? _)%Z eqn:L; [exact H|].
    apply Z.leb_gt in L. apply (IH _ _ H L Hout).
Qed.

Lemma process_record_not_dict (min_rating : Q) (bad : value) :
  is_dict bad = false ->
  process_record min_rating bad
  = raise (Exn AttributeError
             (lit "'" ++ type_name bad ++ lit "' object has no attribute 'get'")).
Proof.
  intro H. unfold process_record, parse_rating.
  destruct bad; try discriminate H; reflexivity.
Qed.

(** X7: one record that is not a JSON object, met before [max_results]
    products are gathered, fails the whole call: no product is returned,
    not even those already collected, and the error is the
    [AttributeError] of the record. *)
Theorem search_amazon_products_bad_record (query : str) (max_results : Z)
    (min_rating : Q) (w w1 w2 : World) (key : str) (results : dict)
    (pre post : list value) (bad : value) (collected : list product_info) :
  get_serpapi_key w = (ok key, w1) ->
  google_search (make_params query key) w1 = (ok results, w2) ->
  dict_lookup results (lit "organic_results") = Some (VList (pre ++ bad :: post)) ->
  collect min_rating max_results pre [] = ok collected ->
  (len collected < max_results)%Z ->
  is_dict bad = false ->
  search_amazon_products query max_results min_rating w
  = ({| success := false;
        error := Some (lit "'" ++ type_name bad
                         ++ lit "' object has no attribute 'get'");
        products := []; total_results := 0 |}, w2).
Proof.
  intros Hk Hg Ho Hc Hlt Hbad.
  unfold search_amazon_products, search_amazon_products_body, mbind, lift.
  unfold ok in Hk, Hg. rewrite Hk. cbv beta iota. rewrite Hg. cbv beta iota.
  unfold rank_results, dict_get. rewrite Ho. cbn [py_iter rbind ok].
  rewrite (collect_app _ _ _ _ _ _ Hc Hlt). cbn [collect].
  rewrite (process_record_not_dict _ _ Hbad). reflexivity.
Qed.

End CollectFacts.

Lemma search_amazon_products_bad_record_witness :
  search_amazon_products (env := Sim.sim_env) (lit "shoes") 15 3.5
    (Sim.with_script
       [Sim.answer_of [Sim.raw "B0A" (VFloat 4.5) 10; VStr (lit "oops")]])
  = ({| success := false;
        error := Some (lit "'str' object has no attribute 'get'");
        products := []; total_results := 0 |}, Sim.with_script []).
Proof.
  eapply (search_amazon_products_bad_record (env := Sim.sim_env)
            (lit "shoes") 15 3.5 _ _ _ (lit "key")
            [(lit "organic_results",
              VList [Sim.raw "B0A" (VFloat 4.5) 10; VStr (lit "oops")])]
            [Sim.raw "B0A" (VFloat 4.5) 10] [] (VStr (lit "oops")));
    [reflexivity | reflexivity | reflexivity | vm_compute; reflexivity
    | vm_compute; reflexivity | reflexivity].
Defined.

Lemma collect_prefix_witness :
  exists out n,
    collect (env := Sim.sim_env) 3.5 3 Sim.mixed_records [] = ok out
    /\ out = flat_map (kept (env := Sim.sim_env) 3.5) (firstn n Sim.mixed_records)
    /\ map asin out = [VStr (lit "B0A"); VStr (lit "B0C"); VStr (lit "B0D")].
Proof.
  eexists.
  assert (E : collect (env := Sim.sim_env) 3.5 3 Sim.mixed_records []
              = ok (flat_map (kept (env := Sim.sim_env) 3.5)
                      (firstn 5 Sim.mixed_records)))
    by (vm_compute; reflexivity).
  destruct (collect_prefix (env := Sim.sim_env) 3.5 3 Sim.mixed_records [] _ E)
    as [n Hn].
  exists n. split; [exact E|]. split; [exact Hn | reflexivity].
Defined.

Lemma collect_break_witness :
  exists out,
    collect (env := Sim.sim_env) 3.5 3 (firstn 5 Sim.mixed_records) [] = ok out
    /\ (len (@nil product_info) < 3)%Z /\ (3 <= len out)%Z
    /\ collect (env := Sim.sim_env) 3.5 3
         (firstn 5 Sim.mixed_records ++ [VInt 7; VNone]) [] = ok out.
Proof.
  eexists.
  assert (E : collect (env := Sim.sim_env) 3.5 3 (firstn 5 Sim.mixed_records) []
              = ok (flat_map (kept (env := Sim.sim_env) 3.5)
                      (firstn 5 Sim.mixed_records)))
    by (vm_compute; reflexivity).
  assert (Hs : (len (@nil product_info) < 3)%Z) by reflexivity.
  assert (Ho : (3 <= len (flat_map (kept (env := Sim.sim_env) 3.5)
                            (firstn 5 Sim.mixed_records)))%Z)
    by (vm_compute; discriminate).
  split; [exact E|]. split; [exact Hs|]. split; [exact Ho|].
  exact (collect_break (env := Sim.sim_env) 3.5 3 _ [] _ E Hs Ho [VInt 7; VNone]).
Defined.


(** ** Size and order of the result *)

Section ResultFacts.

Context {env : Env}.

(** X8: [total_results] is the number of products returned, and a call
    returns at most [max_results] products; when [max_results] is below 1
    the loop still takes one product before its size test, so one product
    can be returned. *)
Theorem search_amazon_products_bounded (query : str) (max_results : Z)
    (min_rating : Q) (w : World) :
  let res := fst (search_amazon_products query max_results min_rating w) in
  total_results res = len (products res)
  /\ (len (products res) <= Z.max max_results 1)%Z.
Proof.
  pose proof (search_amazon_products_cases query max_results min_rating w) as C.
  destruct (search_amazon_products query max_results min_rating w) as [res w'].
  simpl.
  destruct C as [[e [_ ->]] | (key & w1 & results & _ & _ & Hr)].
  - simpl. split; [reflexivity|]. unfold len. simpl. lia.
  - apply rank_results_ok in Hr as (_ & _ & Ht & organic & collected & _ & Hc & Hs).
    split; [exact Ht|].
    apply sort_Permutation, Permutation_length in Hs.
    apply collect_length in Hc; [|left; reflexivity].
    unfold len in *. rewrite <- Hs. exact Hc.
Qed.

Lemma fl_eqb_sym (a b : pyfloat) : fl_eqb a b = fl_eqb b a.
Proof.
  destruct a as [p| | |], b as [q| | |]; try reflexivity. cbn [fl_eqb].
  destruct (Qeq_bool p q) eqn:E, (Qeq_bool q p) eqn:F; try reflexivity.
  - apply Qeq_bool_iff in E. symmetry in E. apply Qeq_bool_iff in E. congruence.
  - apply Qeq_bool_iff in F. symmetry in F. apply Qeq_bool_iff in F. congruence.
Qed.

(** A product ranked before another is rated at least as high. *)
Lemma ranked_before_rating (a b : product_info) :
  ranked_before a b -> fl_leb (rating b) (rating a) = true.
Proof.
  unfold ranked_before, key_eqb, key_lt, fl_leb. cbn [sort_key fst snd].
  intros [H | H].
  - apply andb_true_iff in H as [H _]. rewrite fl_eqb_sym, H. apply orb_true_r.
  - destruct (fl_eqb (rating b) (rating a)); [apply orb_true_r|].
    injection H as ->. reflexivity.
Qed.

Lemma search_amazon_products_sorted (query : str) (max_results : Z)
    (min_rating : Q) (w : World) :
  let l := products (fst (search_amazon_products query max_results min_rating w)) in
  Forall (fun p => orderly_key p = true) l -> StronglySorted ranked_before l.
Proof.
  pose proof (search_amazon_products_cases query max_results min_rating w) as C.
  destruct (search_amazon_products query max_results min_rating w) as [res w'].
  cbn [fst]. intro Ho.
  destruct C as [[e [_ ->]] | (key & w1 & results & _ & _ & Hr)]; [constructor|].
  apply rank_results_ok in Hr as (_ & _ & _ & organic & collected & _ & _ & Hs).
  assert (Oc : Forall (fun p => orderly_key p = true) collected).
  { apply Forall_forall. intros p Hp. rewrite Forall_forall in Ho. apply Ho.
    apply (Permutation_in _ (sort_Permutation _ _ Hs) Hp). }
  apply (sort_by_rating_reviews_spec _ _ Oc) in Hs as (_ & Hs & _).
  apply (StronglySorted_among (fun p => orderly_key p = true) not_below);
    [|exact Ho | exact Hs].
  intros a b Oa Ob. apply (not_below_ranked a b Oa Ob).
Qed.

Lemma sorted_ratings (l : list product_info) :
  StronglySorted ranked_before l ->
  forall pre a mid b post,
    l = pre ++ a :: mid ++ b :: post -> fl_leb (rating b) (rating a) = true.
Proof.
  intros Hs pre a mid b post ->.
  apply StronglySorted_app in Hs as (_ & Hs & _).
  apply StronglySorted_inv in Hs as [_ Hf]. rewrite Forall_forall in Hf.
  apply ranked_before_rating, Hf, in_elt.
Qed.

Lemma try_attempts_sorted (attempts : list str) :
  forall (last_error : option str) (w : World),
    let l := fst (fst (try_attempts attempts last_error w)) in
    Forall (fun p => orderly_key p = true) l -> StronglySorted ranked_before l.
Proof.
  induction attempts as [|q rest IH]; intros last_error w;
    cbn [try_attempts]; [constructor|].
  pose proof (search_amazon_products_sorted q 12 default_min_rating w) as Hq.
  destruct (search_amazon_products q 12 default_min_rating w) as [r w1].
  destruct (success r && non_empty (products r)); [exact Hq | apply IH].
Qed.

(** X9: when the products returned carry no NaN, neither as rating nor
    in the review count, the ratings never go up in the list
    [search_amazon_products] returns, nor in the list [search_products]
    returns: a product is rated at least as high as every product behind
    it, so the best-rated product comes first. *)
Theorem ratings_never_increase :
  (forall query max_results min_rating w pre a mid b post,
     let l := products (fst (search_amazon_products query max_results
                               min_rating w)) in
     Forall (fun p => orderly_key p = true) l ->
     l = pre ++ a :: mid ++ b :: post ->
     fl_leb (rating b) (rating a) = true)
  /\ (forall user_id question w pre a mid b post,
        let l := sp_products (fst (search_products user_id question w)) in
        Forall (fun p => orderly_key p = true) l ->
        l = pre ++ a :: mid ++ b :: post ->
        fl_leb (rating b) (rating a) = true).
Proof.
  split.
  - intros query max_results min_rating w pre a mid b post l Ho E.
    apply (sorted_ratings _ (search_amazon_products_sorted _ _ _ w Ho) _ _ _ _ _ E).
  - intros user_id question w pre a mid b post l Ho E.
    assert (Hs : StronglySorted ranked_before l).
    { revert Ho. unfold l, search_products.
      pose proof (try_attempts_sorted (search_attempts question) None w) as Ht.
      destruct (try_attempts (search_attempts question) None w)
        as [[products last_error] w'].
      cbn [fst] in Ht. destruct (non_empty products); cbn; [|constructor].
      destruct (found_answer question products); cbn; [constructor | exact Ht]. }
    apply (sorted_ratings _ Hs _ _ _ _ _ E).
Qed.

(** A provider answer without results gives a success without
    products. *)
Lemma rank_results_empty (results : dict) (max_results : Z) (min_rating : Q) :
  py_iter (dict_get results (lit "organic_results") (VList [])) = ok [] ->
  rank_results results max_results min_rating
  = ok {| success := true; error := None; products := []; total_results := 0 |}.
Proof. intro H. unfold rank_results. rewrite H. reflexivity. Qed.

(** X10: when the key can be read and the provider answers every
    request without a result (the key "organic_results" is missing, or it
    holds nothing to loop over), every search is a success with no
    product, and [search_products] reports "No products found" as the
    error, with empty lists: no result is told apart from a failure only
    by the text. *)
Theorem search_products_no_results (user_id question : str) (w : World) :
  (forall w0, exists key w1, get_serpapi_key w0 = (ok key, w1)) ->
  (forall p w0, exists results w1,
      google_search p w0 = (ok results, w1)
      /\ py_iter (dict_get results (lit "organic_results") (VList [])) = ok []) ->
  let res := fst (search_products user_id question w) in
  sp_answer res = no_products_answer question (Some (lit "No products found"))
  /\ sp_asins res = [] /\ sp_products res = [].
Proof.
  intros Hkey Hsearch.
  assert (Hs : forall q mr w0,
             fst (search_amazon_products q mr default_min_rating w0)
             = {| success := true; error := None; products := [];
                  total_results := 0 |}).
  { intros q mr w0. unfold search_amazon_products, search_amazon_products_body,
      mbind, lift.
    destruct (Hkey w0) as (key & w1 & Hk). unfold ok in Hk. rewrite Hk.
    cbv beta iota.
    destruct (Hsearch (make_params q key) w1) as (results & w2 & Hg & Hi).
    unfold ok in Hg. rewrite Hg. cbv beta iota.
    rewrite (rank_results_empty _ _ _ Hi). reflexivity. }
  assert (Ht : forall attempts le w0,
             fst (try_attempts attempts le w0)
             = ([], match attempts with
                    | [] => le
                    | _ :: _ => Some (lit "No products found")
                    end)).
  { induction attempts as [|q rest IH]; intros le w0; simpl; [reflexivity|].
    specialize (Hs q 12%Z w0).
    destruct (search_amazon_products q 12 default_min_rating w0) as [r w1].
    simpl in Hs. subst r. simpl. rewrite IH. destruct rest; reflexivity. }
  intro res. unfold res, search_products.
  specialize (Ht (search_attempts question) None w).
  destruct (try_attempts (search_attempts question) None w) as [[ps le] w'].
  simpl in Ht. injection Ht as -> ->. simpl. auto.
Qed.

End ResultFacts.

(** With [max_results] 0 the loop still returns the first product it
    keeps. *)
Example search_amazon_products_zero_max :
  map asin (products (fst (search_amazon_products (env := Sim.sim_env)
                             (lit "shoes") 0 3.5
                             (Sim.with_script [Sim.answer_of Sim.mixed_records]))))
  = [VStr (lit "B0A")].
Proof. reflexivity. Qed.

Lemma search_products_no_results_witness :
  sp_answer (fst (search_products (env := Sim.quiet_env) (lit "u1")
                    (lit "red shoes") 0%nat))
  = lit "No products found matching 'red shoes'. Try being more specific or using different keywords. Error: No products found".
Proof.
  refine (proj1 (search_products_no_results (env := Sim.quiet_env) (lit "u1")
                   (lit "red shoes") 0%nat _ _)).
  - intro w0. exists (lit "key"), w0. reflexivity.
  - intros p w0. eexists _, _. split; reflexivity.
Defined.

Lemma ratings_never_increase_witness :
  exists a b rest,
    products (fst (search_amazon_products (env := Sim.sim_env) (lit "shoes") 15 3.5
                     (Sim.with_script [Sim.answer_of Sim.mixed_records])))
    = [] ++ a :: [] ++ b :: rest
    /\ fl_leb (rating b) (rating a) = true.
Proof.
  assert (Ho : Forall (fun p => orderly_key p = true)
                 (products (fst (search_amazon_products (env := Sim.sim_env)
                                   (lit "shoes") 15 3.5
                                   (Sim.with_script
                                      [Sim.answer_of Sim.mixed_records])))))
    by (apply Forall_forall, forallb_forall; reflexivity).
  destruct (products (fst (search_amazon_products (env := Sim.sim_env)
                             (lit "shoes") 15 3.5
                             (Sim.with_script [Sim.answer_of Sim.mixed_records]))))
    as [|a [|b rest]] eqn:E;
    [vm_compute in E; discriminate E | vm_compute in E; discriminate E |].
  exists a, b, rest. split; [reflexivity|].
  refine (proj1 (ratings_never_increase (env := Sim.sim_env))
            (lit "shoes") 15%Z 3.5%Q
            (Sim.with_script [Sim.answer_of Sim.mixed_records])
            [] a [] b rest _ _).
  - rewrite E. exact Ho.
  - exact E.
Defined.


(** ** Searches made and summaries that fail *)

Section OrchestratorMore.

Context {env : Env}.

Lemma try_attempts_world (attempts : list str) :
  forall (last_error : option str) (w : World),
    attempts <> [] ->
    exists n, (1 <= n <= List.length attempts)%nat
              /\ snd (try_attempts attempts last_error w)
                 = snd (run_searches 12 (firstn n attempts) w).
Proof.
  induction attempts as [|q rest IH]; intros last_error w N; [contradiction|].
  simpl.
  destruct (search_amazon_products q 12 default_min_rating w) as [r w1] eqn:E.
  destruct (success r && non_empty (products r)).
  - exists 1%nat. simpl. rewrite E. split; [lia | reflexivity].
  - destruct rest as [|q2 rest].
    + exists 1%nat. simpl. rewrite E. split; [lia | reflexivity].
    + destruct (IH (Some (error_or_default r)) w1) as (n & Hn & Hw); [discriminate|].
      exists (S n). cbn [firstn run_searches]. rewrite E.
      destruct (run_searches 12 (firstn n (q2 :: rest)) w1) as [rs w2] eqn:Er.
      simpl in Hw, Hn |- *. split; [lia | exact Hw].
Qed.

Lemma search_attempts_length (question : str) :
  (2 <= List.length (search_attempts question) <= 4)%nat.
Proof.
  unfold search_attempts. cbn [List.length app].
  rewrite !length_app.
  destruct (any _ quality_words); destruct (_ || _); simpl; lia.
Qed.

Lemma search_products_world (user_id question : str) (w : World) :
  snd (search_products user_id question w)
  = snd (try_attempts (search_attempts question) None w).
Proof.
  unfold search_products.
  destruct (try_attempts (search_attempts question) None w) as [[ps le] w'].
  simpl. destruct (non_empty ps); simpl; [|reflexivity].
  destruct (found_answer question ps); reflexivity.
Qed.

(** X11: [search_products] searches the variants in order, from the
    first one on, and makes at least one and at most four searches: what
    it leaves of the world is what searching the first [n] variants
    leaves, for some [n] between 1 and the number of variants, which is
    between 2 and 4. *)
Theorem search_products_searches (user_id question : str) (w : World) :
  (2 <= List.length (search_attempts question) <= 4)%nat
  /\ exists n, (1 <= n <= List.length (search_attempts question))%nat
               /\ snd (search_products user_id question w)
                  = snd (run_searches 12 (firstn n (search_attempts question)) w).
Proof.
  split; [apply search_attempts_length|].
  rewrite search_products_world. apply try_attempts_world.
  pose proof (search_attempts_length question) as H.
  intro E. rewrite E in H. simpl in H. lia.
Qed.

(** An entry of the summary cannot be written for a title that is
    neither text nor a list. *)
Lemma product_entry_scalar_title (i : Z) (p : product_info) :
  is_scalar_title (p_title p) = true -> exists e, product_entry i p = inl e.
Proof.
  unfold product_entry. destruct (p_title p); try discriminate; intros _;
    eexists; reflexivity.
Qed.

Lemma product_entries_raise (l : list product_info) (p : product_info) :
  In p l -> is_scalar_title (p_title p) = true ->
  forall i, exists e, product_entries i l = inl e.
Proof.
  induction l as [|x l IH]; intros Hin Hp i; [contradiction|]. simpl.
  destruct (product_entry i x) as [e | s] eqn:E; [exists e; reflexivity|].
  destruct Hin as [-> | Hin].
  - destruct (product_entry_scalar_title i p Hp) as [e He]. congruence.
  - destruct (IH Hin Hp (i + 1)%Z) as [e He]. simpl. rewrite He.
    exists e. reflexivity.
Qed.

Lemma try_attempts_head_success (q : str) (rest : list str)
    (last_error : option str) (w : World) :
  yields_products (fst (search_amazon_products q 12 default_min_rating w)) = true ->
  fst (fst (try_attempts (q :: rest) last_error w))
  = products (fst (search_amazon_products q 12 default_min_rating w)).
Proof.
  cbn [try_attempts].
  destruct (search_amazon_products q 12 default_min_rating w) as [r w1].
  cbn [fst]. unfold yields_products. fold (non_empty (products r)).
  intros ->. reflexivity.
Qed.

(** X12: when the first search finds products and one of the first
    eight has a title that is neither text nor a list (a number, say),
    writing the summary raises and [search_products] answers with the
    error text and empty lists: the products found are dropped. *)
Theorem search_products_summary_failure (user_id question : str) (w : World)
    (p : product_info) :
  let r := fst (search_amazon_products question 12 default_min_rating w) in
  yields_products r = true ->
  In p (firstn 8 (products r)) ->
  is_scalar_title (p_title p) = true ->
  let res := fst (search_products user_id question w) in
  sp_products res = [] /\ sp_asins res = []
  /\ exists e, sp_answer res = search_error_answer e.
Proof.
  intros r Hy Hin Hp res.
  pose proof (try_attempts_head_success question (tl (search_attempts question))
                None w Hy) as H.
  change (question :: tl (search_attempts question))
    with (search_attempts question) in H.
  fold r in H. unfold res, search_products.
  destruct (try_attempts (search_attempts question) None w) as [[ps le] w'].
  cbn [fst] in H. subst ps.
  unfold yields_products in Hy. apply andb_true_iff in Hy as [_ Hne].
  fold (non_empty (products r)) in Hne. rewrite Hne. cbn [negb].
  destruct (product_entries_raise _ _ Hin Hp 1%Z) as [e He].
  unfold found_answer. rewrite He. simpl. eauto.
Qed.

End OrchestratorMore.

Lemma search_products_searches_witness :
  exists n, (1 <= n <= 4)%nat
            /\ snd (search_products (env := Sim.sim_env) (lit "u1")
                      (lit "best cheap shoes")
                      (Sim.with_script [Sim.answer_of []; Sim.answer_of Sim.mixed_records;
                                        Sim.answer_of []; Sim.answer_of []]))
               = Sim.with_script [Sim.answer_of []; Sim.answer_of []].
Proof.
  destruct (search_products_searches (env := Sim.sim_env) (lit "u1")
              (lit "best cheap shoes")
              (Sim.with_script [Sim.answer_of []; Sim.answer_of Sim.mixed_records;
                                Sim.answer_of []; Sim.answer_of []]))
    as [_ (n & Hn & _)].
  exists n. split; [exact Hn | reflexivity].
Defined.

Lemma search_products_summary_failure_witness :
  let w := Sim.with_script
             [Sim.answer_of [VDict [(lit "asin", VStr (lit "B0T"));
                                    (lit "title", VInt 2024)]]] in
  yields_products
    (fst (search_amazon_products (env := Sim.sim_env) (lit "calendar") 12
            default_min_rating w)) = true
  /\ sp_products (fst (search_products (env := Sim.sim_env) (lit "u1")
                         (lit "calendar") w)) = []
  /\ sp_answer (fst (search_products (env := Sim.sim_env) (lit "u1")
                       (lit "calendar") w))
     = lit "An error occurred while searching for products: 'int' object is not subscriptable. Please try rephrasing your search or try again later.".
Proof.
  intro w.
  assert (Hy : yields_products
                 (fst (search_amazon_products (env := Sim.sim_env) (lit "calendar") 12
                         default_min_rating w)) = true) by reflexivity.
  split; [exact Hy|].
  destruct (products (fst (search_amazon_products (env := Sim.sim_env)
                             (lit "calendar") 12 default_min_rating w)))
    as [|p l] eqn:E; [vm_compute in E; discriminate E|].
  assert (Hin : In p (firstn 8 (products
                  (fst (search_amazon_products (env := Sim.sim_env)
                          (lit "calendar") 12 default_min_rating w)))))
    by (rewrite E; left; reflexivity).
  assert (Hp : is_scalar_title (p_title p) = true).
  { vm_compute in E. injection E as <- _. reflexivity. }
  destruct (search_products_summary_failure (env := Sim.sim_env) (lit "u1")
              (lit "calendar") w p Hy Hin Hp) as (Hs & _ & _).
  split; [exact Hs | reflexivity].
Defined.


(** ** What the packing list holds *)

Section PackingListMore.

Lemma firstn_In {A} (n : nat) (l : list A) (x : A) :
  In x (firstn n l) -> In x l.
Proof.
  revert l; induction n as [|n IH]; intros [|y l]; simpl; try tauto.
  intros [H | H]; [left; exact H | right; apply IH; exact H].
Qed.

Lemma firstn_NoDup {A} (n : nat) (l : list A) : NoDup l -> NoDup (firstn n l).
Proof.
  revert l; induction n as [|n IH]; intros [|y l] H; simpl; try constructor.
  - apply NoDup_cons_iff in H as [Hy _]. intro Hin. apply Hy.
    apply (firstn_In _ _ _ Hin).
  - apply IH. apply NoDup_cons_iff in H as [_ H]. exact H.
Qed.

Lemma from_keys_app_NoDup (a l : list str) :
  NoDup a ->
  from_keys (a ++ l)
  = a ++ filter (fun y => negb (mem_str y a)) (first_occurrences l).
Proof.
  intro Ha. unfold from_keys. rewrite fold_left_app.
  fold (from_keys a).
  rewrite from_keys_first_occurrences, (first_occurrences_NoDup_id _ Ha).
  apply from_keys_fold.
Qed.

Lemma NoDup_by_first_occurrences (l : list str) :
  first_occurrences l = l -> NoDup l.
Proof. intro E. rewrite <- E. apply first_occurrences_NoDup. Qed.

Lemma base_duration_NoDup (q : str) : NoDup (base_items ++ duration_items q).
Proof.
  destruct (duration_items_cases q) as [[-> _] | [[-> _] | [-> _]]];
    apply NoDup_by_first_occurrences; reflexivity.
Qed.

(** X13: the packing list always begins with the four base items, in
    their order, followed by the items of the duration branch. *)
Theorem packing_list_base_first (question : str) :
  exists rest,
    generate_smart_packing_list question
    = base_items ++ duration_items (lower question) ++ rest.
Proof.
  unfold generate_smart_packing_list.
  rewrite (from_keys_app_NoDup _ _ (base_duration_NoDup (lower question))).
  rewrite <- app_assoc. eexists. reflexivity.
Qed.

Lemma activity_matches_all (table : list (str * list str)) (q : str)
    (activity : str) (items : list str) (x : str) :
  In (activity, items) table -> contains activity q = true -> In x items ->
  In x (activity_matches table q).
Proof.
  induction table as [|[a its] table IH]; intros Hin Hc Hx; [contradiction|].
  cbn [activity_matches]. apply in_or_app.
  destruct Hin as [E | Hin].
  - injection E as -> ->. rewrite Hc. left. exact Hx.
  - right. apply IH; assumption.
Qed.

(** X14: every activity whose keyword is in the description contributes
    all its items, however many activities match: the activity loop has no
    [break]. *)
Theorem packing_list_all_activities (question activity : str)
    (items : list str) (x : str) :
  In (activity, items) activities ->
  contains activity (lower question) = true ->
  In x items ->
  In x (generate_smart_packing_list question).
Proof.
  intros Hin Hc Hx. apply packing_list_In. right; right; right.
  apply (activity_matches_all _ _ _ _ _ Hin Hc Hx).
Qed.

Lemma climate_keys_plain (c : str) :
  In c (map fst climate_items) -> replace (lit "_") (lit " ") c = c.
Proof. intro H. each_in H. Qed.

Lemma in_map_fst_prefix {A B} (pre post : list (A * B)) (e : A * B) (x : A) :
  In x (map fst pre) -> In x (map fst (pre ++ e :: post)).
Proof. intro H. rewrite map_app. apply in_or_app. left. exact H. Qed.

(** X15: only the first climate entry, in table order, whose keyword is in
    the description applies: all its items are in the list, and no item
    that only other climate entries have is, even when their keywords
    are in the description too. *)
Theorem packing_list_one_climate (question : str)
    (pre post : list (str * list str)) (climate : str) (items : list str) :
  climate_items = pre ++ (climate, items) :: post ->
  (forall c, In c (map fst pre) -> contains c (lower question) = false) ->
  contains climate (lower question) = true ->
  (forall x, In x items -> In x (generate_smart_packing_list question))
  /\ (forall x, In x (table_items climate_items) -> ~ In x items ->
                ~ In x (generate_smart_packing_list question)).
Proof.
  intros E Hpre Hc.
  assert (M : climate_match climate_items (lower question) = items).
  { rewrite E. apply climate_match_first; [|exact Hc].
    intros c Hin. unfold any. cbn [existsb].
    rewrite climate_keys_plain
      by (rewrite E; apply in_map_fst_prefix; exact Hin).
    rewrite (Hpre c Hin). reflexivity. }
  split.
  - intros x Hx. apply packing_list_In. right; right; left. rewrite M. exact Hx.
  - intros x Hx Hn Hin. apply packing_list_In in Hin.
    rewrite M in Hin.
    assert (D : mem_str x (base_items ++ long_trip_items ++ short_trip_items
                             ++ table_items activities) = false)
      by each_in Hx.
    apply mem_str_not_In in D. apply D. rewrite !in_app_iff.
    destruct Hin as [H | [H | [H | H]]].
    + left. exact H.
    + destruct (duration_items_cases (lower question))
        as [[Ed _] | [[Ed _] | [Ed _]]]; rewrite Ed in H;
        [right; left; exact H | right; right; left; exact H | contradiction].
    + contradiction.
    + right; right; right. apply (activity_matches_In _ _ _ H).
Qed.

Lemma climate_match_cases (table : list (str * list str)) (q : str) :
  climate_match table q = []
  \/ exists c, In (c, climate_match table q) table.
Proof.
  induction table as [|[c items] table IH]; [left; reflexivity|].
  cbn [climate_match]. destruct (any _ _).
  - right. exists c. left. reflexivity.
  - destruct IH as [H | [c' H]]; [left; exact H | right; exists c'; right; exact H].
Qed.

(** With a duration branch and a climate entry the list has ten items
    before the first activity item. *)
Lemma duration_climate_ten (dur : list str) :
  dur = long_trip_items \/ dur = short_trip_items ->
  Forall (fun entry =>
            first_occurrences (base_items ++ dur ++ snd entry)
            = base_items ++ dur ++ snd entry
            /\ (10 <= List.length (base_items ++ dur ++ snd entry))%nat
            /\ forallb (fun x => negb (mem_str x (table_items activities)))
                 (base_items ++ dur ++ snd entry) = true)
         climate_items.
Proof.
  intros [-> | ->]; repeat constructor; simpl; lia.
Qed.

(** X16: [generate_packing_list] searches the first ten items only. When
    a duration branch and a climate entry both apply, these ten are base,
    duration and climate items: no activity item is ever searched. *)
Theorem priority_items_no_activity (question : str) :
  duration_items (lower question) <> [] ->
  climate_match climate_items (lower question) <> [] ->
  firstn 10 (generate_smart_packing_list question)
  = firstn 10 (base_items ++ duration_items (lower question)
                 ++ climate_match climate_items (lower question))
  /\ forall x, In x (table_items activities) ->
               ~ In x (firstn 10 (generate_smart_packing_list question)).
Proof.
  intros Hd Hc.
  assert (Dur : duration_items (lower question) = long_trip_items
                \/ duration_items (lower question) = short_trip_items).
  { destruct (duration_items_cases (lower question))
      as [[E _] | [[E _] | [E _]]]; auto. contradiction. }
  destruct (climate_match_cases climate_items (lower question)) as [E | [c Hin]];
    [contradiction|].
  pose proof (duration_climate_ten _ Dur) as F.
  rewrite Forall_forall in F. destruct (F _ Hin) as (Hnd & Hlen & Hact).
  cbn [snd] in Hnd, Hlen, Hact.
  apply NoDup_by_first_occurrences in Hnd.
  assert (Ep : firstn 10 (generate_smart_packing_list question)
               = firstn 10 (base_items ++ duration_items (lower question)
                              ++ climate_match climate_items (lower question))).
  { unfold generate_smart_packing_list. cbv zeta.
    replace ((base_items ++ duration_items (lower question))
               ++ climate_match climate_items (lower question)
               ++ activity_matches activities (lower question))
      with ((base_items ++ duration_items (lower question)
               ++ climate_match climate_items (lower question))
              ++ activity_matches activities (lower question))
      by (rewrite <- !app_assoc; reflexivity).
    rewrite (from_keys_app_NoDup _ _ Hnd), firstn_app.
    replace (10 - _)%nat with 0%nat by lia.
    rewrite firstn_O, app_nil_r. reflexivity. }
  split; [exact Ep|].
  intros x Hx Hin10. rewrite Ep in Hin10. apply firstn_In in Hin10.
  rewrite forallb_forall in Hact. specialize (Hact x Hin10).
  apply negb_true_iff, mem_str_not_In in Hact. contradiction.
Qed.

End PackingListMore.

Lemma packing_list_all_activities_witness :
  In (lit "e-reader")
     (generate_smart_packing_list (lit "Reading and FITNESS retreat"))
  /\ In (lit "protein bars")
        (generate_smart_packing_list (lit "Reading and FITNESS retreat")).
Proof.
  split.
  - apply (packing_list_all_activities _ (lit "reading")
             [lit "e-reader"; lit "reading light"; lit "book stand";
              lit "blue light glasses"]);
      [simpl; auto 10 | reflexivity | simpl; auto].
  - apply (packing_list_all_activities _ (lit "fitness")
             [lit "workout clothes"; lit "running shoes"; lit "fitness tracker";
              lit "protein bars"]);
      [simpl; auto 10 | reflexivity | simpl; auto].
Defined.

Lemma packing_list_one_climate_witness :
  In (lit "sun hat") (generate_smart_packing_list (lit "Tropical beach resort"))
  /\ ~ In (lit "swimsuit") (generate_smart_packing_list (lit "Tropical beach resort")).
Proof.
  destruct (packing_list_one_climate (lit "Tropical beach resort") []
              (tl climate_items) (lit "tropical")
              [lit "sunscreen SPF 50"; lit "insect repellent";
               lit "lightweight clothing"; lit "sandals"; lit "sun hat"]
              eq_refl (fun c H => match H with end) eq_refl) as [H1 H2].
  split.
  - apply H1. simpl. auto 10.
  - apply H2.
    + apply mem_str_In. reflexivity.
    + apply mem_str_not_In. reflexivity.
Defined.

Lemma priority_items_no_activity_witness :
  firstn 10 (generate_smart_packing_list
               (lit "a week of photography in the mountains"))
  = firstn 10 (base_items ++ long_trip_items
                 ++ [lit "hiking boots"; lit "rain jacket"; lit "first aid kit";
                     lit "headlamp"; lit "trekking poles"])
  /\ ~ In (lit "camera equipment")
        (firstn 10 (generate_smart_packing_list
                      (lit "a week of photography in the mountains")))
  /\ In (lit "camera equipment")
        (generate_smart_packing_list (lit "a week of photography in the mountains")).
Proof.
  destruct (priority_items_no_activity
              (lit "a week of photography in the mountains")) as [H1 H2].
  - discriminate.
  - discriminate.
  - split; [exact H1|]. split.
    + apply H2. apply mem_str_In. reflexivity.
    + apply mem_str_In. reflexivity.
Defined.


(** ** What [generate_packing_list] returns *)

Section PackingMore.

Context {env : Env}.

(** The products an item gets are at most three products of one search. *)
Lemma try_queries_products (queries : list str) :
  forall (w : World),
    (List.length (fst (try_queries queries w)) <= 3)%nat
    /\ forall p, In p (fst (try_queries queries w)) -> truthy (asin p) = true.
Proof.
  induction queries as [|q rest IH]; intro w; cbn [try_queries].
  - cbn [fst]. split; [cbn; lia | intros p []].
  - pose proof (search_amazon_products_products q 4 default_min_rating w) as Hq.
    destruct (search_amazon_products q 4 default_min_rating w) as [r w1].
    destruct (success r && non_empty (products r)); [|apply IH].
    cbn [fst]. split.
    + pose proof (length_firstn 3 (products r)) as L. lia.
    + intros p Hin. apply (Hq p). cbn [fst]. apply (firstn_In _ _ _ Hin).
Qed.

Lemma assoc_set_fresh {A} (d : list (str * A)) (key : str) (v : A) :
  ~ In key (map fst d) -> assoc_set d key v = d ++ [(key, v)].
Proof.
  induction d as [|[k0 v0] d IH]; intro H; simpl; [reflexivity|].
  destruct (str_eqb k0 key) eqn:E.
  - apply str_eqb_eq in E. subst. exfalso. apply H. left. reflexivity.
  - rewrite IH; [reflexivity|]. intro Hin. apply H. right. exact Hin.
Qed.

Lemma pack_invariant_more (seen : list str) (x : str) (st : pack_state) :
  pack_invariant seen st -> pack_invariant (seen ++ [x]) st.
Proof.
  intros (Ha & Hok & Hin & Hnd). repeat split; try assumption.
  intros it Hit. apply in_or_app. left. apply Hin. exact Hit.
Qed.

(** The loop keeps the invariant, item after item. *)
Lemma pack_items_invariant (todo : list str) :
  forall (seen : list str) (st st' : pack_state) (w w' : World),
    NoDup (seen ++ todo) ->
    pack_invariant seen st ->
    pack_items todo st w = (ok st', w') ->
    pack_invariant (seen ++ todo) st'.
Proof.
  induction todo as [|x todo IH]; intros seen st st' w w' Hnd Hinv H.
  - cbn [pack_items] in H. injection H as <- _. rewrite app_nil_r. exact Hinv.
  - cbn [pack_items] in H.
    pose proof (try_queries_products (item_queries x) w) as [Hlen Htruthy].
    destruct (try_queries (item_queries x) w) as [ps w1]. cbn [fst] in Hlen, Htruthy.
    assert (Hx : ~ In x seen).
    { apply NoDup_remove_2 in Hnd. intro Hin. apply Hnd.
      apply in_or_app. left. exact Hin. }
    assert (Hnd' : NoDup ((seen ++ [x]) ++ todo))
      by (rewrite <- app_assoc; exact Hnd).
    replace (seen ++ x :: todo) with ((seen ++ [x]) ++ todo)
      by (rewrite <- app_assoc; reflexivity).
    destruct (non_empty ps) eqn:Ne.
    + destruct (recommendations 1 ps) as [e | recs]; [discriminate H|].
      apply (IH _ _ _ _ _ Hnd') in H; [exact H|].
      destruct Hinv as (Ha & Hok & Hin & Hn).
      assert (Hfresh : ~ In x (map item (ps_results st))).
      { intro Hi. apply in_map_iff in Hi as (it & <- & Hit).
        apply Hx, Hin, Hit. }
      repeat split; cbn [ps_asins_dict ps_results].
      * rewrite assoc_set_fresh.
        -- rewrite map_app, Ha. reflexivity.
        -- rewrite Ha, map_map. exact Hfresh.
      * apply Forall_app. split; [exact Hok|]. constructor; [|constructor].
        repeat split; cbn [item_products]; try assumption.
        destruct ps; [discriminate Ne | discriminate].
      * intros it Hit. apply in_app_or in Hit as [Hit | [<- | []]];
          apply in_or_app; [left; apply Hin; exact Hit | right; left; reflexivity].
      * rewrite map_app. cbn [map item].
        apply NoDup_app; [exact Hn | repeat constructor; intros [] |].
        intros y Hy [<- | []]. exact (Hfresh Hy).
    + apply (IH _ _ _ _ _ Hnd') in H; [exact H|].
      apply (pack_invariant_more _ x) in Hinv.
      destruct Hinv as (Ha & Hok & Hin & Hn). repeat split; assumption.
Qed.

(** X17: in what [generate_packing_list] returns, the dict of
    identifiers goes entry by entry with the list of items: one entry per
    item, in the same order, holding the identifiers of exactly the
    products of the item. No item is listed twice, every item listed is
    one of the first ten of the packing list and has between one and three
    products, each with a true identifier; an item without product is not
    listed. *)
Theorem generate_packing_list_items (user_id question : str) (w : World) :
  let res := fst (generate_packing_list user_id question w) in
  pl_asins res = map asins_of (pl_items res)
  /\ NoDup (map item (pl_items res))
  /\ forall it, In it (pl_items res) ->
       In (item it) (firstn 10 (generate_smart_packing_list question))
       /\ item_ok it
       /\ snd (asins_of it) = map asin (item_products it).
Proof.
  intro res.
  assert (H : pack_invariant (firstn 10 (generate_smart_packing_list question))
                {| ps_answer := []; ps_results := pl_items res;
                   ps_asins_dict := pl_asins res; ps_failed_searches := [] |}).
  { unfold res, generate_packing_list.
    match goal with
    | |- context [pack_items ?its ?st w] =>
        destruct (pack_items its st w) as [[e | st'] w'] eqn:E
    end.
    - repeat split; cbn; try constructor. intros it [].
    - apply (pack_items_invariant _ []) in E.
      + destruct E as (Ha & Hok & Hin & Hn). repeat split; assumption.
      + apply firstn_NoDup, from_keys_NoDup.
      + repeat split; cbn; try constructor. intros it []. }
  destruct H as (Ha & Hok & Hin & Hn). cbn in Ha, Hok, Hin, Hn.
  split; [exact Ha|]. split; [exact Hn|].
  intros it Hit. rewrite Forall_forall in Hok.
  split; [apply Hin; exact Hit|]. split; [apply Hok; exact Hit|].
  unfold asins_of. cbn [snd]. f_equal.
  apply forallb_filter_id, forallb_forall.
  destruct (Hok it Hit) as (_ & _ & Ht). exact Ht.
Qed.

End PackingMore.

Lemma generate_packing_list_items_witness :
  let res := fst (generate_packing_list (env := Sim.sim_env) (lit "u1") (lit "beach")
                    (Sim.with_script [Sim.answer_of []; Sim.answer_of Sim.mixed_records])) in
  pl_asins res
  = [(lit "travel backpack", [VStr (lit "B0C"); VStr (lit "B0A"); VStr (lit "B0E")])]
  /\ exists it, In it (pl_items res)
       /\ item it = lit "travel backpack"
       /\ In (item it) (firstn 10 (generate_smart_packing_list (lit "beach")))
       /\ item_ok it.
Proof.
  intro res. split; [reflexivity|].
  destruct (generate_packing_list_items (env := Sim.sim_env) (lit "u1") (lit "beach")
              (Sim.with_script [Sim.answer_of []; Sim.answer_of Sim.mixed_records]))
    as (_ & _ & Hit).
  fold res in Hit.
  destruct (pl_items res) as [|it l] eqn:E; [vm_compute in E; discriminate E|].
  exists it. destruct (Hit it (or_introl eq_refl)) as (Hin & Hok & _).
  split; [left; reflexivity|]. split; [|split; assumption].
  vm_compute in E. injection E as <- _. reflexivity.
Defined.


(** ** How many searches [generate_packing_list] makes *)

Section PackingSearches.

Context {env : Env}.

(** The query loop of an item searches its queries in order and stops
    at the first that yields products. *)
Lemma try_queries_searches (queries : list str) :
  forall (w : World),
    exists n, (n <= List.length queries)%nat
      /\ (queries <> [] -> (1 <= n)%nat)
      /\ snd (try_queries queries w) = snd (run_searches 4 (firstn n queries) w).
Proof.
  induction queries as [|q rest IH]; intro w.
  - exists 0%nat. cbn. repeat split; [lia | congruence].
  - cbn [try_queries].
    destruct (search_amazon_products q 4 default_min_rating w) as [r w1] eqn:E.
    destruct (success r && non_empty (products r)).
    + exists 1%nat. cbn [firstn run_searches List.length]. rewrite E.
      cbn [snd]. repeat split; lia.
    + destruct (IH w1) as (n & Hn & _ & Hw). exists (S n).
      cbn [firstn run_searches List.length]. rewrite E.
      destruct (run_searches 4 (firstn n rest) w1) as [rs w2].
      cbn [snd] in *. repeat split; [lia | lia | exact Hw].
Qed.

Lemma pack_items_searches (items : list str) :
  forall (st : pack_state) (w : World),
    exists qs,
      snd (pack_items items st w) = snd (run_searches 4 qs w)
      /\ (List.length qs <= 3 * List.length items)%nat
      /\ (items <> [] -> qs <> [])
      /\ incl qs (flat_map item_queries items).
Proof.
  induction items as [|x items IH]; intros st w.
  - exists []. cbn. repeat split; [lia | congruence | apply incl_refl].
  - cbn [pack_items].
    destruct (try_queries_searches (item_queries x) w) as (n & Hn & Hpos & Hw).
    assert (Hone : (1 <= n)%nat) by (apply Hpos; discriminate).
    assert (Hne : firstn n (item_queries x) <> [])
      by (destruct n; [lia | discriminate]).
    assert (Hlen : (List.length (firstn n (item_queries x)) <= 3)%nat).
    { pose proof (length_firstn n (item_queries x)) as L. cbn in Hn. lia. }
    assert (Hincl : incl (firstn n (item_queries x)) (item_queries x))
      by (intros y Hy; apply (firstn_In _ _ _ Hy)).
    destruct (try_queries (item_queries x) w) as [ps w1]. cbn [snd] in Hw. subst w1.
    assert (Hstop : exists qs,
               snd (run_searches 4 (firstn n (item_queries x)) w)
               = snd (run_searches 4 qs w)
               /\ (List.length qs <= 3 * List.length (x :: items))%nat
               /\ (x :: items <> [] -> qs <> [])
               /\ incl qs (flat_map item_queries (x :: items))).
    { exists (firstn n (item_queries x)). cbn [List.length flat_map].
      repeat split; [lia | intros _; exact Hne | apply incl_appl; exact Hincl]. }
    assert (Hgo : forall st1,
               exists qs,
                 snd (pack_items items st1
                        (snd (run_searches 4 (firstn n (item_queries x)) w)))
                 = snd (run_searches 4 qs w)
                 /\ (List.length qs <= 3 * List.length (x :: items))%nat
                 /\ (x :: items <> [] -> qs <> [])
                 /\ incl qs (flat_map item_queries (x :: items))).
    { intro st1.
      destruct (IH st1 (snd (run_searches 4 (firstn n (item_queries x)) w)))
        as (qs & Hq & Hl & _ & Hi).
      exists (firstn n (item_queries x) ++ qs).
      rewrite run_searches_app. cbn [snd List.length flat_map].
      rewrite length_app. repeat split.
      - exact Hq.
      - lia.
      - intros _ E. apply app_eq_nil in E as [E _]. exact (Hne E).
      - apply incl_app_app; assumption. }
    destruct (non_empty ps); [|apply Hgo].
    destruct (recommendations 1 ps) as [e | recs]; [exact Hstop | apply Hgo].
Qed.

(** X18: [generate_packing_list] makes at least one and at most thirty
    searches, of four results each: the world it leaves is the one left by
    searching, in order, a list of queries taken from the three queries
    of the first ten items of the packing list. *)
Theorem generate_packing_list_searches (user_id question : str) (w : World) :
  let priority_items := firstn 10 (generate_smart_packing_list question) in
  exists qs,
    snd (generate_packing_list user_id question w) = snd (run_searches 4 qs w)
    /\ (1 <= List.length qs <= 30)%nat
    /\ incl qs (flat_map item_queries priority_items).
Proof.
  intro priority_items.
  assert (Hten : (List.length priority_items <= 10)%nat).
  { unfold priority_items.
    pose proof (length_firstn 10 (generate_smart_packing_list question)). lia. }
  assert (Hne : priority_items <> []).
  { unfold priority_items, generate_smart_packing_list.
    rewrite (from_keys_app_NoDup _ _ (base_duration_NoDup (lower question))).
    discriminate. }
  unfold generate_packing_list. fold priority_items.
  match goal with
  | |- context [pack_items priority_items ?st w] =>
      destruct (pack_items_searches priority_items st w) as (qs & Hq & Hl & Hpos & Hi);
      destruct (pack_items priority_items st w) as [[e | st'] w']
  end; cbn [snd] in *; exists qs; (split; [exact Hq|]); (split; [|exact Hi]);
    specialize (Hpos Hne); destruct qs; try congruence; cbn [List.length] in *; lia.
Qed.

End PackingSearches.


(** ** One item that cannot be written *)

Section PackingAbort.

Context {env : Env}.

Lemma recommendation_scalar_title (i : Z) (p : product_info) :
  is_scalar_title (p_title p) = true -> exists e, recommendation i p = inl e.
Proof.
  unfold recommendation, short_title.
  destruct (p_title p); try discriminate; intros _; eexists; reflexivity.
Qed.

Lemma recommendations_raise (l : list product_info) (p : product_info) :
  In p l -> is_scalar_title (p_title p) = true ->
  forall i, exists e, recommendations i l = inl e.
Proof.
  induction l as [|x l IH]; intros Hin Hp i; [contradiction|].
  cbn [recommendations].
  destruct (recommendation i x) as [e | s] eqn:E; [exists e; reflexivity|].
  destruct Hin as [-> | Hin].
  - destruct (recommendation_scalar_title i p Hp) as [e He]. congruence.
  - destruct (IH Hin Hp (i + 1)%Z) as [e He]. cbn [rbind]. rewrite He.
    exists e. reflexivity.
Qed.

Lemma pack_items_app (a b : list str) :
  forall (st : pack_state) (w : World),
    pack_items (a ++ b) st w
    = match pack_items a st w with
      | (inr st1, w1) => pack_items b st1 w1
      | (inl e, w1) => (inl e, w1)
      end.
Proof.
  induction a as [|x a IH]; intros st w; [reflexivity|].
  cbn [app pack_items].
  destruct (try_queries (item_queries x) w) as [ps w1].
  destruct (non_empty ps); [|apply IH].
  destruct (recommendations 1 ps) as [e | recs]; [reflexivity | apply IH].
Qed.

Lemma pack_items_world (items : list str) :
  forall (st st' : pack_state) (w w' : World),
    pack_items items st w = (inr st', w') -> w' = items_world items w.
Proof.
  induction items as [|x items IH]; intros st st' w w' H.
  - cbn [pack_items] in H. injection H as _ <-. reflexivity.
  - cbn [pack_items items_world] in *.
    destruct (try_queries (item_queries x) w) as [ps w1]. cbn [snd].
    destruct (non_empty ps); [|apply (IH _ _ _ _ H)].
    destruct (recommendations 1 ps) as [e | recs]; [discriminate H|].
    apply (IH _ _ _ _ H).
Qed.

(** X19: the items are not isolated from each other. When the products
    found for one of the first ten items hold one whose title is neither
    text nor a list (a number, say), [generate_packing_list] answers with
    the error text and returns no item and no identifier: what was found
    for the items before is dropped, and the items after are not
    searched. *)
Theorem generate_packing_list_abort (user_id question : str) (w : World)
    (pre post : list str) (x : str) (p : product_info) :
  firstn 10 (generate_smart_packing_list question) = pre ++ x :: post ->
  In p (fst (try_queries (item_queries x) (items_world pre w))) ->
  is_scalar_title (p_title p) = true ->
  let res := fst (generate_packing_list user_id question w) in
  pl_items res = [] /\ pl_asins res = []
  /\ (exists e, pl_answer res = packing_error_answer e)
  /\ exists n, (n <= List.length pre)%nat
       /\ snd (generate_packing_list user_id question w)
          = snd (try_queries (item_queries (nth n (pre ++ [x]) x))
                   (items_world (firstn n pre) w)).
Proof.
  intros Hsplit Hin Hp res. unfold res, generate_packing_list. cbv zeta.
  rewrite Hsplit.
  match goal with
  | |- context [pack_items (pre ++ x :: post) ?st w] => set (start := st)
  end.
  assert (Hx : forall st1,
             exists e, pack_items (x :: post) st1 (items_world pre w)
                       = (inl e, snd (try_queries (item_queries x)
                                        (items_world pre w)))).
  { intro st1. cbn [pack_items].
    destruct (try_queries (item_queries x) (items_world pre w)) as [ps w2].
    cbn [fst snd] in *.
    assert (Hne : non_empty ps = true) by (destruct ps; [contradiction | reflexivity]).
    rewrite Hne. destruct (recommendations_raise _ _ Hin Hp 1%Z) as [e He].
    rewrite He. exists e. reflexivity. }
  assert (Hpre : forall (items : list str) st0 w0 e w1,
             pack_items items st0 w0 = (inl e, w1) ->
             exists n, (n < List.length items)%nat
               /\ w1 = snd (try_queries (item_queries (nth n items x))
                              (items_world (firstn n items) w0))).
  { induction items as [|y items IH]; intros st0 w0 e w1 H.
    - cbn [pack_items] in H. discriminate H.
    - cbn [pack_items] in H.
      destruct (try_queries (item_queries y) w0) as [ps w2] eqn:E.
      assert (Hgo : forall st2, pack_items items st2 w2 = (inl e, w1) ->
                 exists n, (n < List.length (y :: items))%nat
                   /\ w1 = snd (try_queries (item_queries (nth n (y :: items) x))
                                  (items_world (firstn n (y :: items)) w0))).
      { intros st2 H2. destruct (IH _ _ _ _ H2) as (n & Hn & Hw).
        exists (S n). cbn [List.length nth firstn items_world]. rewrite E.
        cbn [snd]. split; [lia | exact Hw]. }
      destruct (non_empty ps); [|apply (Hgo _ H)].
      destruct (recommendations 1 ps) as [e' | recs]; [|apply (Hgo _ H)].
      injection H as _ <-. exists 0%nat. cbn [List.length nth firstn items_world].
      rewrite E. split; [lia | reflexivity]. }
  rewrite pack_items_app.
  destruct (pack_items pre start w) as [[e | st1] w1] eqn:E.
  - cbn [fst snd pl_items pl_asins pl_answer].
    repeat split; [eexists; reflexivity|].
    destruct (Hpre _ _ _ _ _ E) as (n & Hn & Hw). exists n.
    split; [lia|]. rewrite app_nth1 by exact Hn. exact Hw.
  - apply pack_items_world in E. subst w1.
    destruct (Hx st1) as [e He]. rewrite He.
    cbn [fst snd pl_items pl_asins pl_answer].
    repeat split; [eexists; reflexivity|].
    exists (List.length pre). split; [lia|].
    rewrite app_nth2 by lia. rewrite Nat.sub_diag. cbn [nth].
    rewrite firstn_all. reflexivity.
Qed.

End PackingAbort.

Lemma generate_packing_list_abort_witness :
  let w := Sim.with_script
             [Sim.answer_of Sim.mixed_records;
              Sim.answer_of [VDict [(lit "asin", VStr (lit "B0T"));
                                    (lit "title", VInt 2024)]];
              Sim.answer_of Sim.mixed_records] in
  let res := fst (generate_packing_list (env := Sim.sim_env) (lit "u1") (lit "beach") w) in
  pl_items res = []
  /\ pl_answer res
     = lit "An error occurred while generating your packing list: object of type 'int' has no len(). Please try again with more specific trip details."
  /\ snd (generate_packing_list (env := Sim.sim_env) (lit "u1") (lit "beach") w)
     = Sim.with_script [Sim.answer_of Sim.mixed_records].
Proof.
  intros w res.
  destruct (fst (try_queries (env := Sim.sim_env) (item_queries (lit "phone charger"))
                   (items_world (env := Sim.sim_env) [lit "travel backpack"] w)))
    as [|p l] eqn:E; [vm_compute in E; discriminate E|].
  assert (Hp : is_scalar_title (p_title p) = true).
  { vm_compute in E. injection E as <- _. reflexivity. }
  assert (Hin : In p (fst (try_queries (env := Sim.sim_env)
                             (item_queries (lit "phone charger"))
                             (items_world (env := Sim.sim_env)
                                [lit "travel backpack"] w))))
    by (rewrite E; left; reflexivity).
  destruct (generate_packing_list_abort (env := Sim.sim_env) (lit "u1") (lit "beach") w
              [lit "travel backpack"]
              (skipn 2 (firstn 10 (generate_smart_packing_list (lit "beach"))))
              (lit "phone charger") p eq_refl Hin Hp) as (Hi & _ & _ & _).
  split; [exact Hi|]. split; reflexivity.
Defined.


(** ** The price of a record *)

Section PriceText.

Lemma take_drop_while (f : ascii -> bool) (s : str) :
  take_while f s ++ drop_while f s = s.
Proof.
  induction s as [|c s IH]; [reflexivity|]. cbn [take_while drop_while].
  destruct (f c); [cbn [app]; rewrite IH|]; reflexivity.
Qed.

Lemma drop_while_length (f : ascii -> bool) (s : str) :
  (List.length (drop_while f s) <= List.length s)%nat.
Proof.
  induction s as [|c s IH]; [cbn; lia|]. cbn [drop_while].
  destruct (f c); cbn [List.length] in *; lia.
Qed.

(** What is left of a text behind its leading number. *)
Lemma leading_number_split (t : str) :
  exists rest,
    t = leading_number t ++ rest
    /\ rest = match drop_while is_price_char t with
              | c :: r => if ascii_eqb "." c then drop_while is_digit r
                          else drop_while is_price_char t
              | [] => []
              end.
Proof.
  unfold leading_number.
  pose proof (take_drop_while is_price_char t) as E.
  destruct (drop_while is_price_char t) as [|c r].
  - exists []. split; [|reflexivity].
    rewrite !app_nil_r. rewrite app_nil_r in E. symmetry. exact E.
  - destruct (ascii_eqb "." c).
    + exists (drop_while is_digit r). split; [|reflexivity].
      rewrite <- app_assoc. cbn [app]. rewrite take_drop_while. symmetry. exact E.
    + exists (c :: r). split; [|reflexivity].
      rewrite app_nil_r. symmetry. exact E.
Qed.

Context {R : Type}.

(** A greedy iteration over a class of characters takes all of them,
    when what follows accepts the rest. *)
Lemma star_class_greedy (cs : list Re.citem) (f : ascii -> bool) :
  (forall x, Re.in_class cs x = f x) ->
  forall fuel s c (k : @Re.cont R) x,
    (List.length s < fuel)%nat ->
    k (drop_while f s) c = Some x ->
    Re.star_loop (Re.rmatch (Re.Chr cs)) fuel s c k = Some x.
Proof.
  intro Hf. induction fuel as [|fuel IH]; intros s c k x Hl Hk; [lia|].
  cbn [Re.star_loop Re.rmatch].
  destruct s as [|a s]; [exact Hk|].
  rewrite Hf. cbn [drop_while] in Hk. destruct (f a); [|exact Hk].
  assert (L : (List.length s <? List.length (a :: s))%nat = true)
    by (apply Nat.ltb_lt; cbn; lia).
  rewrite L.
  assert (E : Re.star_loop (Re.rmatch (Re.Chr cs)) fuel s c k = Some x)
    by (apply IH; [cbn in Hl; lia | exact Hk]).
  cbn [Re.rmatch] in E. rewrite E. reflexivity.
Qed.


Lemma drop_while_head (f : ascii -> bool) (s : str) (a : ascii) (r : str) :
  drop_while f s = a :: r -> f a = false.
Proof.
  induction s as [|c s IH]; [discriminate|]. cbn [drop_while].
  destruct (f c) eqn:E; [exact IH|]. intro H. injection H as <- _. exact E.
Qed.

Lemma price_char_class (x : ascii) :
  Re.in_class [Re.IDigit; Re.IChar ","] x = is_price_char x.
Proof.
  unfold Re.in_class, is_price_char. cbn [existsb Re.in_item].
  rewrite orb_false_r. reflexivity.
Qed.

Lemma digit_class (x : ascii) : Re.in_class [Re.IDigit] x = is_digit x.
Proof. unfold Re.in_class. cbn [existsb Re.in_item]. apply orb_false_r. Qed.

Lemma star_digits_greedy s c (k : @Re.cont R) x :
  k (drop_while is_digit s) c = Some x ->
  Re.rmatch (Re.Cat (Re.Star (Re.Chr [Re.IDigit])) Re.Eps) s c k = Some x.
Proof.
  intro Hk.
  change (Re.star_loop (Re.rmatch (Re.Chr [Re.IDigit])) (S (List.length s)) s c
            (fun s' c' => k s' c') = Some x).
  apply (star_class_greedy _ is_digit digit_class); [lia | exact Hk].
Qed.

(** [\.?\d*] behind the digits and commas: a dot, if there is one, and
    the digits that follow it. *)
Lemma decimals_greedy s c (k : @Re.cont R) x :
  k match s with
    | ch :: r => if ascii_eqb "." ch then drop_while is_digit r
                 else drop_while is_digit s
    | [] => []
    end c = Some x ->
  Re.rmatch (Re.Cat (Re.Opt (Re.Chr [Re.IChar "."]))
               (Re.Cat (Re.Star (Re.Chr [Re.IDigit])) Re.Eps)) s c k = Some x.
Proof.
  intro Hk.
  change (match Re.rmatch (Re.Chr [Re.IChar "."]) s c
                  (fun s' c' =>
                     Re.rmatch (Re.Cat (Re.Star (Re.Chr [Re.IDigit])) Re.Eps) s' c' k)
          with
          | Some y => Some y
          | None => Re.rmatch (Re.Cat (Re.Star (Re.Chr [Re.IDigit])) Re.Eps) s c k
          end = Some x).
  destruct s as [|ch r].
  - cbn [Re.rmatch]. exact Hk.
  - change (Re.rmatch (Re.Chr [Re.IChar "."]) (ch :: r) c
              (fun s' c' =>
                 Re.rmatch (Re.Cat (Re.Star (Re.Chr [Re.IDigit])) Re.Eps) s' c' k))
      with (if Re.in_class [Re.IChar "."] ch
            then Re.rmatch (Re.Cat (Re.Star (Re.Chr [Re.IDigit])) Re.Eps) r c k
            else None).
    unfold Re.in_class. cbn [existsb Re.in_item]. rewrite orb_false_r.
    destruct (ascii_eqb "." ch).
    + rewrite (star_digits_greedy r c k x Hk). reflexivity.
    + apply star_digits_greedy. exact Hk.
Qed.

(** The number pattern on a text that begins with a digit or a comma
    takes the leading number of the text. *)
Lemma number_re_greedy (t : str) c (k : @Re.cont R) x (a : ascii) (t' : str) :
  t = a :: t' -> is_price_char a = true ->
  (forall rest, t = leading_number t ++ rest -> k rest c = Some x) ->
  Re.rmatch number_re t c k = Some x.
Proof.
  intros -> Ha Hk.
  destruct (leading_number_split (a :: t')) as (rest & Hsplit & Hrest).
  specialize (Hk rest Hsplit).
  cbn [drop_while] in Hrest. rewrite Ha in Hrest.
  change (Re.rmatch (Re.Chr [Re.IDigit; Re.IChar ","]) (a :: t') c
            (fun s' c' =>
               Re.star_loop (Re.rmatch (Re.Chr [Re.IDigit; Re.IChar ","]))
                 (S (List.length s')) s' c'
                 (fun s2 c2 =>
                    Re.rmatch (Re.Cat (Re.Opt (Re.Chr [Re.IChar "."]))
                                 (Re.Cat (Re.Star (Re.Chr [Re.IDigit])) Re.Eps))
                      s2 c2 k)) = Some x).
  change (Re.rmatch (Re.Chr [Re.IDigit; Re.IChar ","]) (a :: t') c ?K)
    with (if Re.in_class [Re.IDigit; Re.IChar ","] a then K t' c else None).
  rewrite price_char_class, Ha.
  apply (star_class_greedy _ is_price_char price_char_class); [lia|].
  apply decimals_greedy.
  destruct (drop_while is_price_char t') as [|ch r] eqn:E.
  - rewrite <- Hrest. exact Hk.
  - destruct (ascii_eqb "." ch).
    + rewrite <- Hrest. exact Hk.
    + assert (Hd : is_digit ch = false).
      { apply drop_while_head in E. unfold is_price_char in E.
        apply orb_false_iff in E as [E _]. exact E. }
      cbn [drop_while]. rewrite Hd. rewrite <- Hrest. exact Hk.
Qed.

Lemma number_re_none (t : str) c (k : @Re.cont R) :
  match t with a :: _ => is_price_char a = false | [] => True end ->
  Re.rmatch number_re t c k = None.
Proof.
  intro H. unfold number_re. cbn [Re.rmatch].
  destruct t as [|a t']; [reflexivity|].
  rewrite price_char_class, H. reflexivity.
Qed.

End PriceText.

Section PriceSearch.

Lemma dollar_not_price_char (x : ascii) :
  is_price_char x = true -> ascii_eqb "$" x = false.
Proof.
  intro H. destruct (ascii_eqb "$" x) eqn:E; [|reflexivity].
  apply Ascii.eqb_eq in E. subst x. discriminate H.
Qed.

Lemma group_greedy (a : ascii) (t' : str) (c : Re.caps) :
  is_price_char a = true ->
  Re.rmatch (Re.Cat (Re.Grp 1 number_re) Re.Eps) (a :: t') c (fun _ c' => Some c')
  = Some ((1%nat, leading_number (a :: t')) :: c).
Proof.
  intro Ha.
  change (Re.rmatch number_re (a :: t') c
            (fun s' c' =>
               Some ((1%nat, firstn (List.length (a :: t') - List.length s') (a :: t'))
                       :: c'))
          = Some ((1%nat, leading_number (a :: t')) :: c)).
  apply (number_re_greedy _ _ _ _ a t' eq_refl Ha).
  intros rest Hsplit. do 3 f_equal.
  assert (L : (List.length (a :: t') - List.length rest
               = List.length (leading_number (a :: t')))%nat).
  { apply (f_equal (@List.length ascii)) in Hsplit.
    rewrite length_app in Hsplit. lia. }
  rewrite L.
  replace (firstn (List.length (leading_number (a :: t'))) (a :: t'))
    with (firstn (List.length (leading_number (a :: t')))
            (leading_number (a :: t') ++ rest))
    by (rewrite <- Hsplit; reflexivity).
  rewrite firstn_app, Nat.sub_diag, firstn_all. cbn [firstn]. apply app_nil_r.
Qed.

Lemma group_none (t : str) (c : Re.caps) :
  match t with a :: _ => is_price_char a = false | [] => True end ->
  Re.rmatch (Re.Cat (Re.Grp 1 number_re) Re.Eps) t c (fun _ c' => Some c') = None.
Proof.
  intro H.
  change (Re.rmatch number_re t c
            (fun s' c' =>
               Some ((1%nat, firstn (List.length t - List.length s') t) :: c'))
          = None).
  apply number_re_none. exact H.
Qed.

(** Where the price pattern matches at the start of a text. *)
Lemma match_here_price (s : str) :
  Re.match_here price_re s
  = match s with
    | [] => None
    | x :: s' =>
        if is_price_char x then Some [(1%nat, leading_number s)]
        else if ascii_eqb "$" x then
          match s' with
          | y :: _ => if is_price_char y then Some [(1%nat, leading_number s')]
                      else None
          | [] => None
          end
        else None
    end.
Proof.
  unfold Re.match_here, price_re.
  change (match Re.rmatch (Re.Chr [Re.IChar "$"]) s []
                  (fun s' c' =>
                     Re.rmatch (Re.Cat (Re.Grp 1 number_re) Re.Eps) s' c'
                       (fun _ c2 => Some c2))
          with
          | Some y => Some y
          | None => Re.rmatch (Re.Cat (Re.Grp 1 number_re) Re.Eps) s []
                      (fun _ c2 => Some c2)
          end = match s with
                | [] => None
                | x :: s' =>
                    if is_price_char x then Some [(1%nat, leading_number s)]
                    else if ascii_eqb "$" x then
                      match s' with
                      | y :: _ => if is_price_char y
                                  then Some [(1%nat, leading_number s')]
                                  else None
                      | [] => None
                      end
                    else None
                end).
  destruct s as [|x s'].
  - cbn [Re.rmatch]. apply group_none. exact I.
  - change (Re.rmatch (Re.Chr [Re.IChar "$"]) (x :: s') [] ?K)
      with (if Re.in_class [Re.IChar "$"] x then K s' [] else None).
    unfold Re.in_class. cbn [existsb Re.in_item]. rewrite orb_false_r.
    destruct (is_price_char x) eqn:Px.
    + rewrite (dollar_not_price_char x Px). apply group_greedy. exact Px.
    + destruct (ascii_eqb "$" x).
      * destruct s' as [|y s2].
        -- rewrite !group_none; [reflexivity | exact Px | exact I].
        -- destruct (is_price_char y) eqn:Py.
           ++ rewrite (group_greedy y s2 [] Py). reflexivity.
           ++ rewrite !group_none; [reflexivity | exact Px | exact Py].
      * apply group_none. exact Px.
Qed.

(** The price pattern finds the first number written in the text, and
    binds group 1 to it. *)
Lemma search_price_pattern (s : str) :
  Re.search price_pattern s
  = match first_number s with
    | Some g => Some [(1%nat, g)]
    | None => None
    end.
Proof.
  unfold Re.search.
  assert (C : Re.compile price_pattern = Some price_re) by reflexivity.
  rewrite C.
  induction s as [|x s' IH].
  - reflexivity.
  - cbn [Re.search_from]. rewrite match_here_price.
    unfold first_number. cbn [drop_while].
    destruct (is_price_char x) eqn:Px; cbn [negb]; [reflexivity|].
    fold (first_number s').
    destruct (ascii_eqb "$" x).
    + destruct s' as [|y s2]; [exact IH|].
      destruct (is_price_char y) eqn:Py; [|exact IH].
      unfold first_number. cbn [drop_while]. rewrite Py. reflexivity.
    + exact IH.
Qed.

Context {env : Env}.

(** X20: what [extract_price] makes of a price given as text. A text
    without digit and without comma is kept as it is. Otherwise the
    price is the first number written in the text (digits and commas,
    then a dot and digits if a dot follows), read by [float] once its
    commas are removed; the text is not kept when [float] rejects the
    number: the error of [float] is raised. *)
Theorem extract_price_text (d : dict) (s : str) :
  dict_lookup d (lit "price") = Some (VStr s) ->
  extract_price (VDict d)
  = match first_number s with
    | None => ok (VStr s)
    | Some g =>
        match float_of_str (replace (lit ",") [] g) with
        | inr q => ok (VFloat q)
        | inl e => raise e
        end
    end.
Proof.
  intro H. unfold extract_price. cbn [py_get rbind ok]. unfold dict_get.
  rewrite H. rewrite search_price_pattern.
  destruct (first_number s) as [g|]; [|reflexivity].
  cbn [Re.group Nat.eqb].
  destruct (float_of_str (replace (lit ",") [] g)); reflexivity.
Qed.

End PriceSearch.

Lemma extract_price_text_witness :
  extract_price (env := Sim.sim_env)
    (VDict [(lit "asin", VStr (lit "B0A")); (lit "price", VStr (lit "from $1,299.50 each"))])
  = ok (VFloat (Qmake 129950 100)).
Proof.
  exact (eq_trans
           (extract_price_text (env := Sim.sim_env)
              [(lit "asin", VStr (lit "B0A"));
               (lit "price", VStr (lit "from $1,299.50 each"))]
              (lit "from $1,299.50 each") eq_refl)
           eq_refl).
Defined.

Section PriceFailure.

Context {env : Env}.

Lemma process_record_price_raises (min_rating : Q) (d : dict) (s g : str)
    (r : pyfloat) (e : exn) :
  parse_rating (VDict d) = ok r ->
  below_min_rating r min_rating = false ->
  dict_lookup d (lit "price") = Some (VStr s) ->
  first_number s = Some g ->
  float_of_str (replace (lit ",") [] g) = raise e ->
  process_record min_rating (VDict d) = raise e.
Proof.
  intros Hr Hb Hp Hg Hf. unfold process_record.
  unfold ok in Hr. rewrite Hr. cbn [rbind]. rewrite Hb.
  unfold extract_price. cbn [py_get rbind ok]. unfold dict_get.
  rewrite Hp, search_price_pattern, Hg. cbn [Re.group Nat.eqb].
  unfold raise in Hf. rewrite Hf. reflexivity.
Qed.

(** X21: a price text whose first number [float] rejects (a comma that
    comes before any digit, say) does not fall back to the text. When
    such a record passes the rating test and is met before [max_results]
    products are gathered, the whole call fails with the error of
    [float]: no product is returned, not even those already collected. *)
Theorem search_amazon_products_bad_price (query : str) (max_results : Z)
    (min_rating : Q) (w w1 w2 : World) (key : str) (results : dict)
    (pre post : list value) (d : dict) (s g : str) (r : pyfloat) (e : exn)
    (collected : list product_info) :
  get_serpapi_key w = (ok key, w1) ->
  google_search (make_params query key) w1 = (ok results, w2) ->
  dict_lookup results (lit "organic_results") = Some (VList (pre ++ VDict d :: post)) ->
  collect min_rating max_results pre [] = ok collected ->
  (len collected < max_results)%Z ->
  parse_rating (VDict d) = ok r ->
  below_min_rating r min_rating = false ->
  dict_lookup d (lit "price") = Some (VStr s) ->
  first_number s = Some g ->
  float_of_str (replace (lit ",") [] g) = raise e ->
  search_amazon_products query max_results min_rating w
  = ({| success := false; error := Some (exn_text e);
        products := []; total_results := 0 |}, w2).
Proof.
  intros Hk Hg Ho Hc Hlt Hr Hb Hp Hn Hf.
  unfold search_amazon_products, search_amazon_products_body, mbind, lift.
  unfold ok in Hk, Hg. rewrite Hk. cbv beta iota. rewrite Hg. cbv beta iota.
  unfold rank_results, dict_get. rewrite Ho. cbn [py_iter rbind ok].
  rewrite (collect_app _ _ _ _ _ _ Hc Hlt). cbn [collect].
  rewrite (process_record_price_raises _ _ _ _ _ _ Hr Hb Hp Hn Hf). reflexivity.
Qed.

End PriceFailure.

Lemma search_amazon_products_bad_price_witness :
  search_amazon_products (env := Sim.sim_env) (lit "shoes") 15 3.5
    (Sim.with_script
       [Sim.answer_of [Sim.raw "B0A" (VFloat 4.5) 10;
                       VDict [(lit "asin", VStr (lit "B0B"));
                              (lit "price", VStr (lit "Free, ships today"))]]])
  = ({| success := false;
        error := Some (lit "could not convert string to float: ''");
        products := []; total_results := 0 |}, Sim.with_script []).
Proof.
  eapply (search_amazon_products_bad_price (env := Sim.sim_env)
            (lit "shoes") 15 3.5 _ _ _ (lit "key")
            [(lit "organic_results",
              VList [Sim.raw "B0A" (VFloat 4.5) 10;
                     VDict [(lit "asin", VStr (lit "B0B"));
                            (lit "price", VStr (lit "Free, ships today"))]])]
            [Sim.raw "B0A" (VFloat 4.5) 10] []
            [(lit "asin", VStr (lit "B0B"));
             (lit "price", VStr (lit "Free, ships today"))]
            (lit "Free, ships today") (lit ",") (Fin 0)
            (Exn ValueError (lit "could not convert string to float: ''")));
    [reflexivity | reflexivity | reflexivity | vm_compute; reflexivity
    | vm_compute; reflexivity | reflexivity | reflexivity | reflexivity
    | reflexivity | reflexivity].
Defined.


(** ** The summary of [search_products] *)

Section SummaryFacts.

Context {env : Env}.

Lemma contains_skip (sub a s : str) :
  contains sub s = true -> contains sub (a ++ s) = true.
Proof.
  intro H. rewrite <- (app_nil_r s). apply contains_within. exact H.
Qed.

Lemma contains_front (sub s b : str) :
  contains sub s = true -> contains sub (s ++ b) = true.
Proof. intro H. apply (contains_within sub [] s b H). Qed.

Lemma ok_inj {A} (a b : A) : ok a = ok b -> a = b.
Proof. intro H. injection H as H. exact H. Qed.

(** An entry of the summary shows the link of its product. *)
Lemma product_entry_link (i : Z) (p : product_info) (e : str) :
  product_entry i p = ok e ->
  contains (lit "https://www.amazon.com/dp/" ++ py_str (asin p)) e = true.
Proof.
  unfold product_entry. intro H.
  apply rbind_ok in H as [head [_ H]]. apply rbind_ok in H as [n [_ H]].
  apply rbind_ok in H as [shown [_ H]].
  apply ok_inj in H. subst e.
  do 16 apply contains_skip.
  apply contains_app. exists (lit "   🛒 **Link**: "). eexists.
  rewrite <- app_assoc. reflexivity.
Qed.

Lemma product_entries_links (l : list product_info) (p : product_info) :
  In p l ->
  forall i es, product_entries i l = ok es ->
    contains (lit "https://www.amazon.com/dp/" ++ py_str (asin p)) es = true.
Proof.
  induction l as [|x l IH]; intros Hin i es H; [contradiction|].
  cbn [product_entries] in H.
  apply rbind_ok in H as [e [He H]]. apply rbind_ok in H as [es' [Hes H]].
  apply ok_inj in H. subst es.
  destruct Hin as [-> | Hin].
  - apply contains_front. apply (product_entry_link _ _ _ He).
  - apply contains_skip. apply (IH Hin _ _ Hes).
Qed.

(** X22: when [search_products] returns products, its answer is the
    header, the entries and the footer, with nothing stripped off. The
    header announces the number of all the products returned, not of
    those shown, and each of the first eight products is shown with its
    link [https://www.amazon.com/dp/] followed by its identifier. *)
Theorem search_products_summary (user_id question : str) (w : World)
    (p : product_info) :
  let res := fst (search_products user_id question w) in
  In p (firstn 8 (sp_products res)) ->
  exists entries,
    sp_answer res
    = lit "🛍️ **Found " ++ py_str (VInt (len (sp_products res)))
        ++ lit " high-quality products for '" ++ question ++ lit "'**" ++ nl ++ nl
        ++ entries ++ shop_footer
    /\ product_entries 1 (firstn 8 (sp_products res)) = ok entries
    /\ contains (lit "https://www.amazon.com/dp/" ++ py_str (asin p)) entries = true.
Proof.
  intro res. unfold res, search_products.
  destruct (try_attempts (search_attempts question) None w) as [[ps le] w'].
  destruct (negb (non_empty ps)); [intros []|].
  destruct (found_answer question ps) as [e | answer] eqn:F; [intros []|].
  cbn [fst sp_products sp_answer]. intro Hin.
  unfold found_answer in F. apply rbind_ok in F as [entries [He F]].
  apply ok_inj in F. subst answer. exists entries.
  split; [|split; [exact He | apply (product_entries_links _ _ Hin _ _ He)]].
  assert (Hf : exists t', shop_footer = t' ++ ["!"%char])
    by (exists (removelast shop_footer); reflexivity).
  destruct Hf as [t' Hf].
  eapply strip_ends.
  - cbn [lit app]. reflexivity.
  - rewrite Hf. rewrite !app_assoc. reflexivity.
  - reflexivity.
  - reflexivity.
Qed.

End SummaryFacts.

Lemma search_products_summary_witness :
  let res := fst (search_products (env := Sim.sim_env) (lit "u1") (lit "shoes")
                    (Sim.with_script [Sim.answer_of Sim.mixed_records])) in
  exists p, In p (firstn 8 (sp_products res))
    /\ asin p = VStr (lit "B0C")
    /\ contains (lit "https://www.amazon.com/dp/B0C") (sp_answer res) = true.
Proof.
  intro res.
  destruct (sp_products res) as [|p l] eqn:E; [vm_compute in E; discriminate E|].
  exists p.
  assert (Hin : In p (firstn 8 (sp_products res)))
    by (rewrite E; left; reflexivity).
  destruct (search_products_summary (env := Sim.sim_env) (lit "u1") (lit "shoes")
              (Sim.with_script [Sim.answer_of Sim.mixed_records]) p Hin)
    as (entries & _ & _ & _).
  rewrite <- E. split; [exact Hin|].
  split; [vm_compute in E; injection E as <- _; reflexivity | reflexivity].
Defined.
